(** * Telegram multi-threaded bot: a shallow embedding of [telegrambot.py]

    The development follows the source file top to bottom:
    - Python values (strings as sequences of code points, [deque(maxlen=..)],
      [range], slices, [str.join], [str.strip], text-file line iteration);
    - the external collaborators (Gemini, the transcription and speech
      services, the Telegram client, the clock) as an interface of stateful
      oracles that may raise;
    - the functions of the module ([detectar_idioma], ..., [adecuar_respuesta]);
    - the class [GestorChat], method by method, in a state-and-exception monad;
    - the global registry [chats_activos] with its lock, the cleaning thread
      [monitor_inactividad] and the polling loop of [main], as a transition
      system over thread program counters. *)

From Stdlib Require Import ZArith NArith QArith Lia List.
From Stdlib Require Import Strings.String Strings.Ascii.
From Stdlib Require Import Numbers.DecimalString.
From stdpp Require Import base tactics option list gmap.

Local Open Scope nat_scope.

(* ===================================================================== *)
(** ** Python strings *)
(* ===================================================================== *)

(** A Python [str] is a sequence of Unicode code points; [len] counts code
    points, which is what the 4000 bound of Telegram is measured in. *)
Definition codepoint : Type := N.
Definition pystr : Type := list codepoint.

(** [bytes] objects (audio payloads). *)
Definition pybytes : Type := list Byte.byte.

Module Utf8.
(** Decoder used only to write the literals of the source file (which is
    UTF-8 encoded) as Rocq string literals. *)
Definition cont (a : ascii) : N := N.land (N_of_ascii a) 63.

Fixpoint decode (s : string) : pystr :=
  match s with
  | EmptyString => []
  | String a s1 =>
    let n := N_of_ascii a in
    if (n <? 128)%N then n :: decode s1
    else if (n <? 224)%N then
      match s1 with
      | String b s2 => ((n - 192) * 64 + cont b)%N :: decode s2
      | _ => [n]
      end
    else if (n <? 240)%N then
      match s1 with
      | String b (String c s3) =>
        ((n - 224) * 4096 + cont b * 64 + cont c)%N :: decode s3
      | _ => [n]
      end
    else
      match s1 with
      | String b (String c (String d s4)) =>
        ((n - 240) * 262144 + cont b * 4096 + cont c * 64 + cont d)%N
          :: decode s4
      | _ => [n]
      end
  end.
End Utf8.

(** [py "..."] is the Python string written as the literal ["..."]. *)
Definition py (s : string) : pystr := Utf8.decode s.

(** Line feed and carriage return. *)
Definition LF : codepoint := 10%N.
Definition CR : codepoint := 13%N.

(** [str(n)] for an [int]. *)
Definition str_of_Z (z : Z) : pystr :=
  py (NilZero.string_of_int (Z.to_int z)).

(** [str(n)] for a [len(..)] result. *)
Definition str_of_nat (n : nat) : pystr := str_of_Z (Z.of_nat n).

(** [sep.join(l)]. *)
Fixpoint join (sep : pystr) (l : list pystr) : pystr :=
  match l with
  | [] => []
  | [x] => x
  | x :: rest => x ++ sep ++ join sep rest
  end.

(** [s[i:j]] for [0 <= i <= j]; indices past the end are clamped, as Python
    does. *)
Definition slice {A} (i j : nat) (s : list A) : list A :=
  take (j - i) (drop i s).

(** [s[:n]]. *)
Definition prefix_slice {A} (n : nat) (s : list A) : list A := take n s.

(** The characters [str.isspace] accepts, which [str.strip()] removes. *)
Definition isspace (c : codepoint) : bool :=
  ((9 <=? c) && (c <=? 13) || (28 <=? c) && (c <=? 32)
   || (c =? 133) || (c =? 160) || (c =? 5760)
   || (8192 <=? c) && (c <=? 8202)
   || (c =? 8232) || (c =? 8233) || (c =? 8239) || (c =? 8287)
   || (c =? 12288))%N.

Fixpoint lstrip (s : pystr) : pystr :=
  match s with
  | c :: s' => if isspace c then lstrip s' else s
  | [] => []
  end.

Definition rstrip (s : pystr) : pystr := rev (lstrip (rev s)).

(** [s.strip()]. *)
Definition strip (s : pystr) : pystr := rstrip (lstrip s).

(** [s.strip().lower()] is only applied to the language code returned by the
    model; [lower] is modelled on the ASCII letters, which is all an ISO 639-1
    code has. *)
Definition lower_char (c : codepoint) : codepoint :=
  if ((65 <=? c) && (c <=? 90))%N then (c + 32)%N else c.
Definition lower (s : pystr) : pystr := map lower_char s.

(** [range(start, stop, step)] for [step > 0], by the iteration Python
    performs: emit [i], add [step], stop at the first [i >= stop]. *)
Fixpoint range_from (fuel i stop step : nat) : list nat :=
  match fuel with
  | 0 => []
  | S fuel' =>
    if i <? stop then i :: range_from fuel' (i + step) stop step else []
  end.

Definition py_range (start stop step : nat) : list nat :=
  range_from (stop - start) start stop step.

(* ===================================================================== *)
(** ** [collections.deque] with [maxlen] *)
(* ===================================================================== *)

(** [d.append(x)] on a bounded deque: the item is added on the right and, if
    the deque is now longer than [maxlen], one item is removed on the left. *)
Definition deque_append {A} (maxlen : nat) (x : A) (d : list A) : list A :=
  let d' := d ++ [x] in
  if maxlen <? length d' then tail d' else d'.

(* ===================================================================== *)
(** ** Module constants *)
(* ===================================================================== *)

Definition TIEMPO_INACTIVIDAD_MAX : Q := 300.
Definition INTERVALO_LIMPIEZA : Q := 10.

(** The literal 4000 of [adecuar_respuesta] and the literal 6 of
    [deque(maxlen=6)]. *)
Definition LIMITE_TELEGRAM : nat := 4000.
Definition MEMORIA_MAXLEN : nat := 6.

(** [voces] and [voces_largo], with [dict.get(key, default)]. *)
Definition voces : list (pystr * pystr) :=
  [ (py "es", py "es-ES-AlvaroNeural");
    (py "en", py "en-US-GuyNeural");
    (py "fr", py "fr-FR-DeniseNeural");
    (py "de", py "de-DE-KatjaNeural");
    (py "it", py "it-IT-ElsaNeural") ].

Definition voces_largo : list (pystr * pystr) :=
  [ (py "es", py "ESPAÑOL"); (py "en", py "INGLÉS"); (py "fr", py "FRANCÉS");
    (py "de", py "ALEMÁN"); (py "it", py "ITALIANO") ].

Fixpoint dict_get_default (d : list (pystr * pystr)) (k dflt : pystr) : pystr :=
  match d with
  | [] => dflt
  | (k', v) :: d' => if decide (k' = k) then v else dict_get_default d' k dflt
  end.

(* ===================================================================== *)
(** ** [adecuar_respuesta] *)
(* ===================================================================== *)

Definition adecuar_respuesta (respuesta : pystr) : list pystr :=
  if length respuesta <? LIMITE_TELEGRAM then [respuesta]
  else map (fun i => slice i (i + LIMITE_TELEGRAM) respuesta)
           (py_range 0 (length respuesta) LIMITE_TELEGRAM).

(* ===================================================================== *)
(** ** Text files *)
(* ===================================================================== *)

(** Reading a file opened with [open(ruta, "r", encoding="utf-8")]: the
    default universal-newlines mode turns CR LF and a lone CR into LF. *)
Fixpoint universal_newlines (s : pystr) : pystr :=
  match s with
  | [] => []
  | c :: s' =>
    if (c =? CR)%N then
      LF :: match s' with
            | d :: s'' =>
              if (d =? LF)%N then universal_newlines s''
              else universal_newlines s'
            | [] => []
            end
    else c :: universal_newlines s'
  end.

(** [for linea in f]: the lines of the translated text, each with its
    terminating LF, the last one possibly without. [cur] is the line being
    read. *)
Fixpoint lines_from (cur : pystr) (s : pystr) : list pystr :=
  match s with
  | [] => match cur with [] => [] | _ => [cur] end
  | c :: s' =>
    if (c =? LF)%N then (cur ++ [LF]) :: lines_from [] s'
    else lines_from (cur ++ [c]) s'
  end.

Definition file_lines (contents : pystr) : list pystr :=
  lines_from [] (universal_newlines contents).

(** The part of the file system the program touches: the directories that
    exist and the text files with their contents. Writing and reading are
    taken to succeed (no I/O error, and every string can be encoded). *)
Record FileSystem := {
  fs_dirs : list pystr;
  fs_files : list (pystr * pystr);
}.

Fixpoint fs_lookup (files : list (pystr * pystr)) (ruta : pystr) : option pystr :=
  match files with
  | [] => None
  | (p, c) :: rest => if decide (p = ruta) then Some c else fs_lookup rest ruta
  end.

(** [open(ruta, "w")] followed by [f.write(contents)]: creates or truncates. *)
Fixpoint fs_store (files : list (pystr * pystr)) (ruta contents : pystr)
  : list (pystr * pystr) :=
  match files with
  | [] => [(ruta, contents)]
  | (p, c) :: rest =>
    if decide (p = ruta) then (p, contents) :: rest
    else (p, c) :: fs_store rest ruta contents
  end.

(** [os.path.exists]. *)
Definition path_exists (fs : FileSystem) (ruta : pystr) : bool :=
  bool_decide (ruta ∈ fs_dirs fs)
  || match fs_lookup (fs_files fs) ruta with Some _ => true | None => false end.

(** [os.makedirs]. *)
Definition makedirs (ruta : pystr) (fs : FileSystem) : FileSystem :=
  {| fs_dirs := fs_dirs fs ++ [ruta]; fs_files := fs_files fs |}.

Definition write_file (ruta contents : pystr) (fs : FileSystem) : FileSystem :=
  {| fs_dirs := fs_dirs fs; fs_files := fs_store (fs_files fs) ruta contents |}.

(* ===================================================================== *)
(** ** Telegram updates *)
(* ===================================================================== *)

Module Teleapi.
Record Chat := { id : Z }.
(** [message.audio] and [message.voice] objects. *)
Record FileRef := { file_id : pystr }.
Record Message := {
  chat : Chat;
  text : option pystr;
  audio : option FileRef;
  voice : option FileRef;
}.
Record Update := { update_id : Z; message : option Message }.
End Teleapi.
Import Teleapi.

(** Truth value of an optional string: [None] and [""] are false. *)
Definition truthy_str (s : option pystr) : bool :=
  match s with Some (_ :: _) => true | _ => false end.

(** Truth value of an optional object. *)
Definition truthy_obj {A} (o : option A) : bool :=
  match o with Some _ => true | None => false end.

(* ===================================================================== *)
(** ** Exceptions, results and the collaborators *)
(* ===================================================================== *)

(** A raised exception, with [str(e)]. The raising calls of the program are
    library and network calls, whose exceptions derive from [Exception]. *)
Record exn := Exn { exn_str : pystr }.

Inductive result (A : Type) : Type :=
| Ok (a : A)
| Raise (e : exn).
Arguments Ok {A} a.
Arguments Raise {A} e.

(** What the program does to the outside, in order. *)
Inductive Event : Type :=
| EPrint (linea : pystr)
| EGenerateContent (model contents : pystr) (file_search : option pystr)
| EPostTranscription (url : pystr) (audio : pybytes)
| EPostSpeech (url input voice : pystr)
| EGetFile (file_id : pystr)
| ERequestsGet (url : pystr)
| ESendMessage (chat_id : Z) (text : pystr)
| ESendAudio (chat_id : Z) (audio : pybytes)
| EMakedirs (ruta : pystr)
| EWriteFile (ruta contents : pystr)
| ESleep (segundos : Q).

(** The external services, as oracles over a state [W] of the outside world
    that the program cannot inspect. Each call may raise.
    - [generate_content model contents store]:
      [client.models.generate_content(...).text], [store] being the File
      Search store of the [config] argument when there is one;
    - [post_transcription url audio]:
      [requests.post(url, ...).json()["text"]];
    - [post_speech url input voice]: [requests.post(url, ...).content];
    - [getFile file_id]: [bot.getFile(file_id=...).file_path];
    - [requests_get url]: [requests.get(url).content];
    - [sendMessage], [sendAudio]: the methods of the bot;
    - [time_time]: [time.time()]. *)
Record Collaborators (W : Type) := {
  BOT_TOKEN : pystr;
  BASE_URL : pystr;
  FILESEARCHSTORE : pystr;
  generate_content : pystr -> pystr -> option pystr -> W -> result pystr * W;
  post_transcription : pystr -> pybytes -> W -> result pystr * W;
  post_speech : pystr -> pystr -> pystr -> W -> result pybytes * W;
  getFile : pystr -> W -> result pystr * W;
  requests_get : pystr -> W -> result pybytes * W;
  sendMessage : Z -> pystr -> W -> result unit * W;
  sendAudio : Z -> pybytes -> W -> result unit * W;
  time_time : W -> Q * W;
}.
Arguments BOT_TOKEN {W} _.
Arguments BASE_URL {W} _.
Arguments FILESEARCHSTORE {W} _.
Arguments generate_content {W} _ _ _ _ _.
Arguments post_transcription {W} _ _ _ _.
Arguments post_speech {W} _ _ _ _ _.
Arguments getFile {W} _ _ _.
Arguments requests_get {W} _ _ _.
Arguments sendMessage {W} _ _ _ _.
Arguments sendAudio {W} _ _ _ _.
Arguments time_time {W} _ _.

(** The world as the program sees it: the outside, the file system and the
    trace of effects so far (oldest first). *)
Record World (W : Type) := {
  ext : W;
  fs : FileSystem;
  log : list Event;
}.
Arguments ext {W} _.
Arguments fs {W} _.
Arguments log {W} _.

(* ===================================================================== *)
(** ** The state-and-exception monad *)
(* ===================================================================== *)

(** A computation over a state [S] that returns or raises; the state
    survives a raise, as mutations of Python objects do. *)
Definition M (S A : Type) : Type := S -> result A * S.

Definition ret {S A} (a : A) : M S A := fun s => (Ok a, s).

Definition raise {S A} (e : exn) : M S A := fun s => (Raise e, s).

Definition bind {S A B} (m : M S A) (k : A -> M S B) : M S B :=
  fun s =>
    match m s with
    | (Ok a, s') => k a s'
    | (Raise e, s') => (Raise e, s')
    end.

(** [try: m  except ... as e: h e]. *)
Definition try_except {S A} (m : M S A) (h : exn -> M S A) : M S A :=
  fun s =>
    match m s with
    | (Ok a, s') => (Ok a, s')
    | (Raise e, s') => h e s'
    end.

(** [try: m  finally: f]. *)
Definition try_finally {S A} (m : M S A) (f : M S unit) : M S A :=
  fun s =>
    match m s with
    | (r, s') =>
      match f s' with
      | (Ok _, s'') => (r, s'')
      | (Raise e, s'') => (Raise e, s'')
      end
    end.

Definition get_state {S} : M S S := fun s => (Ok s, s).
Definition modify {S} (f : S -> S) : M S unit := fun s => (Ok tt, f s).

(** [for x in l: body x]. *)
Fixpoint for_each {S A} (l : list A) (body : A -> M S unit) : M S unit :=
  match l with
  | [] => ret tt
  | x :: rest => bind (body x) (fun _ => for_each rest body)
  end.

Declare Scope py_scope.
Delimit Scope py_scope with py.
Notation "'let!' x ':=' m 'in' k" := (bind m (fun x => k))
  (at level 10, x name, m at level 100, k at level 200) : py_scope.
Notation "'run!' m 'in' k" := (bind m (fun _ => k))
  (at level 10, m at level 100, k at level 200) : py_scope.
Local Open Scope py_scope.

(* ===================================================================== *)
(** ** The functions of the module *)
(* ===================================================================== *)

Section Program.

Context {W : Type} (E : Collaborators W).

(** Recording an effect in the trace. *)
Definition emit (e : Event) : M (World W) unit :=
  modify (fun w => {| ext := ext w; fs := fs w; log := log w ++ [e] |}).

(** Calling a collaborator: the call is recorded, the outside world moves,
    and the call returns or raises. *)
Definition call {A} (e : Event) (oracle : W -> result A * W) : M (World W) A :=
  fun w =>
    let (r, x) := oracle (ext w) in
    (r, {| ext := x; fs := fs w; log := log w ++ [e] |}).

Definition print (linea : pystr) : M (World W) unit := emit (EPrint linea).

Definition now : M (World W) Q :=
  fun w =>
    let (t, x) := time_time E (ext w) in
    (Ok t, {| ext := x; fs := fs w; log := log w |}).

Definition client_generate_content (model contents : pystr)
    (store : option pystr) : M (World W) pystr :=
  call (EGenerateContent model contents store)
       (generate_content E model contents store).

Definition detectar_idioma (mensaje : pystr) : M (World W) pystr :=
  try_except
    (let prompt :=
       py "Detecta el idioma y devuelve SOLO el código ISO 639-1 (es, en, fr...): "
       ++ prefix_slice 50 mensaje in
     let! response_text :=
       client_generate_content (py "gemini-2.5-flash-lite") prompt None in
     ret (lower (strip response_text)))
    (fun _ => ret (py "es")).

Definition prompt_completo (idioma historial_previo mensaje : pystr) : pystr :=
  [LF] ++ py "    Respondes exclusivamente en "
  ++ dict_get_default voces_largo idioma (py "ESPAÑOL") ++ py "." ++ [LF]
  ++ [LF]
  ++ py "    HISTORIAL DE LA CONVERSACIÓN:" ++ [LF]
  ++ py "    " ++ historial_previo ++ [LF]
  ++ py "    " ++ [LF]
  ++ py "    NUEVA CONSULTA DEL USUARIO:" ++ [LF]
  ++ py "    " ++ mensaje ++ py "'".

Definition MENSAJE_ERROR : pystr :=
  py "Lo siento, hubo un error procesando tu solicitud: ".

Definition response_gemini_consulta_documentos
    (mensaje historial_previo : pystr) : M (World W) pystr :=
  let! idioma := detectar_idioma mensaje in
  let contents := prompt_completo idioma historial_previo mensaje in
  try_except
    (client_generate_content (py "gemini-2.5-flash") contents
                             (Some (FILESEARCHSTORE E)))
    (fun e => ret (MENSAJE_ERROR ++ exn_str e)).

Definition response_openweb_transcriptor (audio : pybytes) : M (World W) pystr :=
  let url := BASE_URL E ++ py "/api/v1/audio/transcriptions" in
  try_except
    (call (EPostTranscription url audio) (post_transcription E url audio))
    (fun _ => ret []).

(** Returns [None] when the request raises. *)
Definition response_openweb_lectura (mensaje : pystr)
  : M (World W) (option pybytes) :=
  let! idioma := detectar_idioma mensaje in
  let url := BASE_URL E ++ py "/api/v1/audio/speech" in
  let voice := dict_get_default voces idioma (py "es-ES-AlvaroNeural") in
  try_except
    (let! audio := call (EPostSpeech url mensaje voice)
                        (post_speech E url mensaje voice) in
     ret (Some audio))
    (fun _ => ret None).

Definition obt_audio (file_id : pystr) : M (World W) pybytes :=
  let! file_path := call (EGetFile file_id) (getFile E file_id) in
  let url := py "https://api.telegram.org/file/bot" ++ BOT_TOKEN E
             ++ py "/" ++ file_path in
  call (ERequestsGet url) (requests_get E url).

(* ===================================================================== *)
(** ** The class [GestorChat] *)
(* ===================================================================== *)

(** The fields of an instance. [bot] is the collaborator interface and
    [hilo] is the thread of the instance, which the transition system below
    represents by a program counter. *)
Record GestorChat := {
  chat_id : Z;
  cola_mensajes : list Update;
  ultima_actividad : Q;
  memoria : list pystr;
  activo : bool;
}.

(** The state a method runs on: the instance and the world. *)
Record St := { self : GestorChat; world : World W }.

Definition lift {A} (m : M (World W) A) : M St A :=
  fun s =>
    let (r, w) := m (world s) in
    (r, {| self := self s; world := w |}).

Definition on_self (f : GestorChat -> GestorChat) : M St unit :=
  modify (fun s => {| self := f (self s); world := world s |}).

Definition on_fs (f : FileSystem -> FileSystem) : M (World W) unit :=
  modify (fun w => {| ext := ext w; fs := f (fs w); log := log w |}).

Definition set_cola (q : list Update) (g : GestorChat) : GestorChat :=
  {| chat_id := chat_id g; cola_mensajes := q;
     ultima_actividad := ultima_actividad g; memoria := memoria g;
     activo := activo g |}.

Definition set_ultima_actividad (t : Q) (g : GestorChat) : GestorChat :=
  {| chat_id := chat_id g; cola_mensajes := cola_mensajes g;
     ultima_actividad := t; memoria := memoria g; activo := activo g |}.

Definition set_memoria (m : list pystr) (g : GestorChat) : GestorChat :=
  {| chat_id := chat_id g; cola_mensajes := cola_mensajes g;
     ultima_actividad := ultima_actividad g; memoria := m;
     activo := activo g |}.

Definition set_activo (b : bool) (g : GestorChat) : GestorChat :=
  {| chat_id := chat_id g; cola_mensajes := cola_mensajes g;
     ultima_actividad := ultima_actividad g; memoria := memoria g;
     activo := b |}.

(** [self.memoria.append(linea)]. *)
Definition memoria_append (linea : pystr) : M St unit :=
  on_self (fun g => set_memoria (deque_append MEMORIA_MAXLEN linea (memoria g)) g).

(** [f"chats/{chat_id}.txt"]. *)
Definition ruta_historial (cid : Z) : pystr :=
  py "chats/" ++ str_of_Z cid ++ py ".txt".

Definition cargar_historial : M St unit :=
  let! s := get_state in
  let ruta := ruta_historial (chat_id (self s)) in
  if path_exists (fs (world s)) ruta then
    match fs_lookup (fs_files (fs (world s))) ruta with
    | Some contents =>
      for_each (file_lines contents) (fun linea => memoria_append (strip linea))
    | None => raise (Exn (py "[Errno 21] Is a directory"))
    end
  else ret tt.

Definition guardar_historial : M St unit :=
  let! s := get_state in
  run! (if path_exists (fs (world s)) (py "chats") then ret tt
        else lift (run! emit (EMakedirs (py "chats")) in
                   on_fs (makedirs (py "chats")))) in
  let ruta := ruta_historial (chat_id (self s)) in
  let contents := join [LF] (memoria (self s)) in
  lift (run! emit (EWriteFile ruta contents) in
        on_fs (write_file ruta contents)).

(** The constructor, up to the start of the thread. *)
Definition GestorChat_init (cid : Z) : M (World W) GestorChat :=
  fun w =>
    match now w with
    | (Ok t, w1) =>
      let g := {| chat_id := cid; cola_mensajes := [];
                  ultima_actividad := t; memoria := []; activo := true |} in
      match cargar_historial {| self := g; world := w1 |} with
      | (Ok _, s) => (Ok (self s), world s)
      | (Raise e, s) => (Raise e, world s)
      end
    | (Raise e, w1) => (Raise e, w1)
    end.

Definition agregar_mensaje (update : Update) : M St unit :=
  run! on_self (fun g => set_cola (cola_mensajes g ++ [update]) g) in
  let! t := lift now in
  on_self (set_ultima_actividad t).

(** [update.message.<campo>]: an update without message has no such
    attribute. *)
Definition message_of (update : Update) : M St Message :=
  match message update with
  | Some m => ret m
  | None => raise (Exn (py "'NoneType' object has no attribute"))
  end.

Definition procesar_update (update : Update) : M St unit :=
  let! s0 := get_state in
  let cid := chat_id (self s0) in
  run! lift (print (py "[" ++ str_of_Z cid ++ py "] Procesando mensaje...")) in
  let! msg := message_of update in
  let! pregunta :=
    (if truthy_obj (audio msg) || truthy_obj (voice msg) then
       let fid := match audio msg with
                  | Some a => file_id a
                  | None => match voice msg with
                            | Some v => file_id v
                            | None => []
                            end
                  end in
       let! audio_bytes := lift (obt_audio fid) in
       let! transcripcion := lift (response_openweb_transcriptor audio_bytes) in
       ret (Some transcripcion)
     else if truthy_str (text msg) then ret (text msg)
     else ret None) in
  match pregunta with
  | Some pregunta =>
    let! s := get_state in
    let historial_str := join [LF] (memoria (self s)) in
    let! respuesta :=
      lift (response_gemini_consulta_documentos pregunta historial_str) in
    run! memoria_append (py "Usuario: " ++ pregunta) in
    run! memoria_append (py "Asistente: " ++ respuesta) in
    run! for_each (adecuar_respuesta respuesta)
           (fun parte => lift (call (ESendMessage cid parte)
                                    (sendMessage E cid parte))) in
    let! audio_resp := lift (response_openweb_lectura respuesta) in
    run! (match audio_resp with
          | Some (b :: bs) =>
            lift (call (ESendAudio cid (b :: bs)) (sendAudio E cid (b :: bs)))
          | _ => ret tt
          end) in
    lift (print (py "[" ++ str_of_Z cid ++ py "] Respuesta enviada."))
  | None => ret tt
  end.

Definition detener : M St unit :=
  run! on_self (set_activo false) in
  run! guardar_historial in
  let! s := get_state in
  lift (print (py "[" ++ str_of_Z (chat_id (self s))
               ++ py "] Hibernando por inactividad. Datos guardados.")).

(** *** The loop of [procesar_cola]

    One evaluation of the loop head, [while self.activo] followed by
    [self.cola_mensajes.get(timeout=1)], has three outcomes: the loop ends,
    the wait times out ([queue.Empty], [continue]), or an update is taken
    from the head of the queue. *)
Inductive Turno : Type :=
| Salir
| Esperar
| Tomado (update : Update).

Definition procesar_cola_get : M St Turno :=
  let! s := get_state in
  if activo (self s) then
    match cola_mensajes (self s) with
    | [] => ret Esperar
    | update :: resto =>
      run! on_self (set_cola resto) in
      ret (Tomado update)
    end
  else ret Salir.

(** The body of the loop for a taken update: the [try] / [except Exception]
    / [finally] statement. ([task_done] only decrements the counter read by
    [Queue.join], which the program never calls.) *)
Definition procesar_cola_cuerpo (update : Update) : M St unit :=
  try_finally
    (try_except (procesar_update update)
       (fun e =>
          let! s := get_state in
          lift (print (py "Error en chat " ++ str_of_Z (chat_id (self s))
                       ++ py ": " ++ exn_str e))))
    (let! t := lift now in
     on_self (set_ultima_actividad t)).

(** How a bounded run of the loop ended. *)
Inductive Salida : Type :=
| Terminado
| SinCombustible.

(** The loop run by one thread alone for at most [fuel] iterations. *)
Fixpoint procesar_cola (fuel : nat) : M St Salida :=
  match fuel with
  | 0 => ret SinCombustible
  | S fuel' =>
    let! turno := procesar_cola_get in
    match turno with
    | Salir => ret Terminado
    | Esperar => procesar_cola fuel'
    | Tomado update =>
      run! procesar_cola_cuerpo update in
      procesar_cola fuel'
    end
  end.

(** *** A worker and its thread, with the calls other threads make on it

    The instance is shared between its own thread, which runs
    [procesar_cola], and the threads that call [agregar_mensaje] (the polling
    loop) and [detener] (the cleaning thread). The thread of the worker is
    at the loop head, inside the body with the update it took, or finished.
    [procesados] is the sequence of updates passed to [procesar_update]. *)
Inductive PcHilo : Type :=
| EnCabeza
| EnCuerpo (update : Update)
| Fin.

Record Trabajador := {
  estado : St;
  pc : PcHilo;
  procesados : list Update;
}.

Inductive Accion : Type :=
| AgregarMensaje (update : Update)
| Detener
| PasoHilo.

(** A method call from outside; its result is dropped, the state is kept. *)
Definition llamar {A} (m : M St A) (t : Trabajador) : Trabajador :=
  {| estado := snd (m (estado t)); pc := pc t; procesados := procesados t |}.

Definition paso_hilo (t : Trabajador) : Trabajador :=
  match pc t with
  | EnCabeza =>
    match procesar_cola_get (estado t) with
    | (Ok (Tomado update), s) =>
      {| estado := s; pc := EnCuerpo update; procesados := procesados t |}
    | (Ok Esperar, s) =>
      {| estado := s; pc := EnCabeza; procesados := procesados t |}
    | (_, s) => {| estado := s; pc := Fin; procesados := procesados t |}
    end
  | EnCuerpo update =>
    match procesar_cola_cuerpo update (estado t) with
    | (Ok _, s) =>
      {| estado := s; pc := EnCabeza;
         procesados := procesados t ++ [update] |}
    | (Raise _, s) =>
      {| estado := s; pc := Fin; procesados := procesados t ++ [update] |}
    end
  | Fin => t
  end.

Definition paso (a : Accion) (t : Trabajador) : Trabajador :=
  match a with
  | AgregarMensaje update => llamar (agregar_mensaje update) t
  | Detener => llamar detener t
  | PasoHilo => paso_hilo t
  end.

(** Running a schedule, first action first. *)
Definition ejecutar (acciones : list Accion) (t : Trabajador) : Trabajador :=
  fold_left (fun t a => paso a t) acciones t.

(** The updates a schedule enqueues, in order. *)
Fixpoint encolados (acciones : list Accion) : list Update :=
  match acciones with
  | [] => []
  | AgregarMensaje update :: resto => update :: encolados resto
  | _ :: resto => encolados resto
  end.

(** The update the thread holds, if any. *)
Definition en_curso (t : Trabajador) : list Update :=
  match pc t with
  | EnCuerpo update => [update]
  | _ => []
  end.

End Program.

(* ===================================================================== *)
(** ** The registry [chats_activos] and the cleaning thread *)
(* ===================================================================== *)

Section Registro.

Context {W : Type} (E : Collaborators W).

(** What the threads share: the instances of [GestorChat] that exist (an
    instance is named by its address, its position in [heap]), the
    dictionary [chats_activos] from chat identifiers to instances, and the
    world. The dictionary is a finite map; its items are visited in the
    order of [map_to_list]. *)
Record Registro := {
  heap : list GestorChat;
  chats_activos : gmap Z nat;
  mundo : World W;
}.

(** Running a method on the instance at address [a]. *)
Definition con_gestor {A} (a : nat) (m : M (St (W:=W)) A) : M Registro A :=
  fun r =>
    match heap r !! a with
    | Some g =>
      let (res, s) := m {| self := g; world := mundo r |} in
      (res, {| heap := <[a := self s]> (heap r);
               chats_activos := chats_activos r;
               mundo := world s |})
    | None => (Raise (Exn (py "no such instance")), r)
    end.

Definition en_mundo {A} (m : M (World W) A) : M Registro A :=
  fun r =>
    let (res, w) := m (mundo r) in
    (res, {| heap := heap r; chats_activos := chats_activos r; mundo := w |}).

(** [ahora - gestor.ultima_actividad > TIEMPO_INACTIVIDAD_MAX and
    gestor.cola_mensajes.empty()]. *)
Definition inactivo (ahora : Q) (g : GestorChat) : bool :=
  negb (Qle_bool (ahora - ultima_actividad g) TIEMPO_INACTIVIDAD_MAX)
  && match cola_mensajes g with [] => true | _ => false end.

(** One iteration of the first loop of the cleaning thread, on the item
    [(chat_id, gestor)]; [eliminar] is the list built so far. *)
Definition revisar (ahora : Q) (item : Z * nat) (eliminar : list Z)
  : M Registro (list Z) :=
  let! r := get_state in
  match heap r !! item.2 with
  | Some g =>
    if inactivo ahora g then
      run! con_gestor item.2 detener in
      ret (eliminar ++ [item.1])
    else ret eliminar
  | None => raise (Exn (py "no such instance"))
  end.

Fixpoint revisar_todos (ahora : Q) (items : list (Z * nat)) (eliminar : list Z)
  : M Registro (list Z) :=
  match items with
  | [] => ret eliminar
  | item :: resto =>
    let! eliminar' := revisar ahora item eliminar in
    revisar_todos ahora resto eliminar'
  end.

(** [del chats_activos[chat_id]]. *)
Definition borrar (cid : Z) : M Registro unit :=
  let! r := get_state in
  match chats_activos r !! cid with
  | Some _ =>
    modify (fun r => {| heap := heap r;
                        chats_activos := delete cid (chats_activos r);
                        mundo := mundo r |})
  | None => raise (Exn (str_of_Z cid))
  end.

(** The block under [with lock_chats] of the cleaning thread. *)
Definition limpiar (ahora : Q) : M Registro (list Z) :=
  let! r := get_state in
  let! eliminar := revisar_todos ahora (map_to_list (chats_activos r)) [] in
  run! for_each eliminar borrar in
  ret eliminar.

Definition aviso_limpieza (eliminar : list Z) : M Registro unit :=
  match eliminar with
  | [] => ret tt
  | _ =>
    en_mundo (print (py "Limpieza: Se han eliminado "
                     ++ str_of_nat (length eliminar)
                     ++ py " chats inactivos de la memoria RAM."))
  end.

(** One turn of the [while True] loop of [monitor_inactividad], run without
    interference. *)
Definition monitor_ciclo : M Registro (list Z) :=
  run! en_mundo (emit (ESleep INTERVALO_LIMPIEZA)) in
  let! ahora := en_mundo (now E) in
  let! eliminar := limpiar ahora in
  run! aviso_limpieza eliminar in
  ret eliminar.

(** The block under [with lock_chats] of the polling loop, run without
    interference: look the chat up, create its instance if it is absent,
    and enqueue the update. *)
Definition despachar (cid : Z) (update : Update) : M Registro unit :=
  let! r := get_state in
  run! (match chats_activos r !! cid with
        | Some _ => ret tt
        | None =>
          run! en_mundo (print (py "[" ++ str_of_Z cid
                                ++ py "] Nueva sesión (o recuperada de disco).")) in
          let! g := en_mundo (GestorChat_init E cid) in
          modify (fun r => {| heap := heap r ++ [g];
                              chats_activos := <[cid := length (heap r)]>
                                                 (chats_activos r);
                              mundo := mundo r |})
        end) in
  let! r := get_state in
  match chats_activos r !! cid with
  | Some a => con_gestor a (agregar_mensaje E update)
  | None => raise (Exn (str_of_Z cid))
  end.

End Registro.

(* ===================================================================== *)
(** ** The threads of the program *)
(* ===================================================================== *)

Section Sistema.

Context {W : Type} (E : Collaborators W).

(** Where a thread running the body of the polling loop of [main] stands:
    outside the [with lock_chats] block, or inside it before the membership
    test, before the construction of the instance, before the store into the
    dictionary (the new instance is at address [a]), before the call of
    [agregar_mensaje], or before leaving the block. *)
Inductive PcMain : Type :=
| MLibre
| MComprobar (update : Update) (cid : Z)
| MCrear (update : Update) (cid : Z)
| MGuardar (update : Update) (cid : Z) (a : nat)
| MEncolar (update : Update) (cid : Z)
| MSoltar.

(** Where the cleaning thread stands: sleeping, waiting for the lock with
    the time it read, inside the first loop (items left to visit and the
    list [eliminar] so far), inside the second loop (identifiers left to
    delete), after the block, or dead (an exception left the function). *)
Inductive PcMonitor : Type :=
| RDurmiendo
| REsperaLock (ahora : Q)
| RRevisando (ahora : Q) (pendientes : list (Z * nat)) (eliminar : list Z)
| RBorrando (pendientes : list Z) (eliminar : list Z)
| RAviso (eliminar : list Z)
| RMuerto.

(** The threads that take [lock_chats]. *)
Inductive Hilo : Type :=
| HMain (t : nat)
| HMonitor.

Record Sistema := {
  registro : Registro (W:=W);
  lock_chats : option Hilo;
  pcs_main : gmap nat PcMain;
  pc_monitor : PcMonitor;
  pcs_hilos : list PcHilo;
}.

Definition pc_main (s : Sistema) (t : nat) : PcMain :=
  default MLibre (pcs_main s !! t).

Definition con_registro (r : Registro) (s : Sistema) : Sistema :=
  {| registro := r; lock_chats := lock_chats s; pcs_main := pcs_main s;
     pc_monitor := pc_monitor s; pcs_hilos := pcs_hilos s |}.

Definition con_lock (l : option Hilo) (s : Sistema) : Sistema :=
  {| registro := registro s; lock_chats := l; pcs_main := pcs_main s;
     pc_monitor := pc_monitor s; pcs_hilos := pcs_hilos s |}.

Definition con_pc_main (t : nat) (p : PcMain) (s : Sistema) : Sistema :=
  {| registro := registro s; lock_chats := lock_chats s;
     pcs_main := <[t := p]> (pcs_main s);
     pc_monitor := pc_monitor s; pcs_hilos := pcs_hilos s |}.

Definition con_pc_monitor (p : PcMonitor) (s : Sistema) : Sistema :=
  {| registro := registro s; lock_chats := lock_chats s;
     pcs_main := pcs_main s; pc_monitor := p; pcs_hilos := pcs_hilos s |}.

Definition con_pcs_hilos (l : list PcHilo) (s : Sistema) : Sistema :=
  {| registro := registro s; lock_chats := lock_chats s;
     pcs_main := pcs_main s; pc_monitor := pc_monitor s; pcs_hilos := l |}.

(** An exception inside the [with] block of the polling loop: the lock is
    released and the handler of [main] prints and sleeps one second. *)
Definition main_excepcion (t : nat) (e : exn) (r : Registro) (s : Sistema)
  : Sistema :=
  let r' := snd (en_mundo
                   (run! print (py "Error en polling principal: " ++ exn_str e) in
                    emit (ESleep 1)) r) in
  con_pc_main t MLibre (con_lock None (con_registro r' s)).

(** One step of polling thread [t]; [update] is the update it handles when
    it is outside the block. A thread that finds the lock taken waits. *)
Definition paso_main (t : nat) (update : Update) (s : Sistema) : Sistema :=
  match pc_main s t with
  | MLibre =>
    match message update with
    | None => s
    | Some m =>
      match lock_chats s with
      | None =>
        con_pc_main t (MComprobar update (id (chat m)))
                    (con_lock (Some (HMain t)) s)
      | Some _ => s
      end
    end
  | MComprobar u cid =>
    match chats_activos (registro s) !! cid with
    | None => con_pc_main t (MCrear u cid) s
    | Some _ => con_pc_main t (MEncolar u cid) s
    end
  | MCrear u cid =>
    match en_mundo
            (run! print (py "[" ++ str_of_Z cid
                         ++ py "] Nueva sesión (o recuperada de disco).") in
             GestorChat_init E cid) (registro s) with
    | (Ok g, r) =>
      let a := length (heap r) in
      let r' := {| heap := heap r ++ [g]; chats_activos := chats_activos r;
                   mundo := mundo r |} in
      con_pc_main t (MGuardar u cid a)
        (con_pcs_hilos (pcs_hilos s ++ [EnCabeza]) (con_registro r' s))
    | (Raise e, r) => main_excepcion t e r s
    end
  | MGuardar u cid a =>
    let r := registro s in
    let r' := {| heap := heap r;
                 chats_activos := <[cid := a]> (chats_activos r);
                 mundo := mundo r |} in
    con_pc_main t (MEncolar u cid) (con_registro r' s)
  | MEncolar u cid =>
    match chats_activos (registro s) !! cid with
    | Some a =>
      match con_gestor a (agregar_mensaje E u) (registro s) with
      | (Ok _, r) => con_pc_main t MSoltar (con_registro r s)
      | (Raise e, r) => main_excepcion t e r s
      end
    | None => main_excepcion t (Exn (str_of_Z cid)) (registro s) s
    end
  | MSoltar => con_pc_main t MLibre (con_lock None s)
  end.

(** One step of the cleaning thread. *)
Definition paso_monitor (s : Sistema) : Sistema :=
  match pc_monitor s with
  | RDurmiendo =>
    match (let! _ := en_mundo (emit (ESleep INTERVALO_LIMPIEZA)) in
           en_mundo (now E)) (registro s) with
    | (Ok ahora, r) => con_pc_monitor (REsperaLock ahora) (con_registro r s)
    | (Raise _, r) => con_pc_monitor RMuerto (con_registro r s)
    end
  | REsperaLock ahora =>
    match lock_chats s with
    | None =>
      con_pc_monitor
        (RRevisando ahora (map_to_list (chats_activos (registro s))) [])
        (con_lock (Some HMonitor) s)
    | Some _ => s
    end
  | RRevisando ahora [] eliminar =>
    con_pc_monitor (RBorrando eliminar eliminar) s
  | RRevisando ahora (item :: resto) eliminar =>
    match revisar ahora item eliminar (registro s) with
    | (Ok eliminar', r) =>
      con_pc_monitor (RRevisando ahora resto eliminar') (con_registro r s)
    | (Raise _, r) =>
      con_pc_monitor RMuerto (con_lock None (con_registro r s))
    end
  | RBorrando [] eliminar =>
    con_pc_monitor (RAviso eliminar) (con_lock None s)
  | RBorrando (cid :: resto) eliminar =>
    match borrar cid (registro s) with
    | (Ok _, r) => con_pc_monitor (RBorrando resto eliminar) (con_registro r s)
    | (Raise _, r) =>
      con_pc_monitor RMuerto (con_lock None (con_registro r s))
    end
  | RAviso eliminar =>
    con_pc_monitor RDurmiendo
      (con_registro (snd (aviso_limpieza eliminar (registro s))) s)
  | RMuerto => s
  end.

(** One step of the thread of the instance at address [a]. *)
Definition paso_trabajador (a : nat) (s : Sistema) : Sistema :=
  match heap (registro s) !! a, pcs_hilos s !! a with
  | Some g, Some p =>
    let t := paso_hilo E {| estado := {| self := g; world := mundo (registro s) |};
                            pc := p; procesados := [] |} in
    let r := {| heap := <[a := self (estado t)]> (heap (registro s));
                chats_activos := chats_activos (registro s);
                mundo := world (estado t) |} in
    con_pcs_hilos (<[a := pc t]> (pcs_hilos s)) (con_registro r s)
  | _, _ => s
  end.

(** The scheduler picks a thread at each step. *)
Inductive Etiqueta : Type :=
| LMain (t : nat) (update : Update)
| LMonitor
| LTrabajador (a : nat).

Definition paso_sistema (l : Etiqueta) (s : Sistema) : Sistema :=
  match l with
  | LMain t update => paso_main t update s
  | LMonitor => paso_monitor s
  | LTrabajador a => paso_trabajador a s
  end.

Definition ejecutar_sistema (plan : list Etiqueta) (s : Sistema) : Sistema :=
  fold_left (fun s l => paso_sistema l s) plan s.

(** The program at start: no instance, an empty dictionary, a free lock,
    every thread outside its block. *)
Definition sistema_inicial (w : World W) : Sistema :=
  {| registro := {| heap := []; chats_activos := ∅; mundo := w |};
     lock_chats := None; pcs_main := ∅; pc_monitor := RDurmiendo;
     pcs_hilos := [] |}.

End Sistema.

(* ===================================================================== *)
(** ** Observations on traces *)
(* ===================================================================== *)

(** The text messages sent, as [(chat_id, text)], oldest first. *)
Fixpoint mensajes_enviados (l : list Event) : list (Z * pystr) :=
  match l with
  | [] => []
  | ESendMessage cid texto :: l' => (cid, texto) :: mensajes_enviados l'
  | _ :: l' => mensajes_enviados l'
  end.

(** The calls to the generation model [gemini-2.5-flash], as the prompts
    they were given. *)
Fixpoint consultas_generacion (l : list Event) : list pystr :=
  match l with
  | [] => []
  | EGenerateContent model contents (Some _) :: l' =>
    contents :: consultas_generacion l'
  | _ :: l' => consultas_generacion l'
  end.

(** The files written, as [(ruta, contents)], oldest first. *)
Fixpoint ficheros_escritos (l : list Event) : list (pystr * pystr) :=
  match l with
  | [] => []
  | EWriteFile ruta contents :: l' => (ruta, contents) :: ficheros_escritos l'
  | _ :: l' => ficheros_escritos l'
  end.

(** [ceil(a / b)] on naturals. *)
Definition ceil_div (a b : nat) : nat := (a + b - 1) / b.

(* ===================================================================== *)
(** ** A concrete outside world, for running the program *)
(* ===================================================================== *)

Module Escenario.

(** The outside world is a clock (seconds since the epoch) that other
    actors advance; language detection answers ["es"], the generation model
    and the transcription service answer as scripted, speech synthesis
    fails, and the Telegram client accepts every call. *)
Definition colaboradores (generado transcrito : result pystr)
  : Collaborators Z :=
  {| BOT_TOKEN := py "TOKEN";
     BASE_URL := py "http://localhost:3000";
     FILESEARCHSTORE := py "fileSearchStores/docs";
     generate_content := fun model _ store w =>
       match store with
       | None => (Ok (py "es"), w)
       | Some _ => (generado, w)
       end;
     post_transcription := fun _ _ w => (transcrito, w);
     post_speech := fun _ _ _ w => (Raise (Exn (py "connection refused")), w);
     getFile := fun _ w => (Ok (py "voice/file_1.oga"), w);
     requests_get := fun _ w => (Ok [Byte.x4f; Byte.x67; Byte.x67; Byte.x53], w);
     sendMessage := fun _ _ w => (Ok tt, w);
     sendAudio := fun _ _ w => (Ok tt, w);
     time_time := fun w => (inject_Z w, w) |}.

Definition disco_vacio : FileSystem := {| fs_dirs := [py "chats"]; fs_files := [] |}.

Definition mundo_en (t : Z) (disco : FileSystem) : World Z :=
  {| ext := t; fs := disco; log := [] |}.

Definition gestor (cid : Z) (cola : list Update) (ultima : Q)
    (mem : list pystr) : GestorChat :=
  {| chat_id := cid; cola_mensajes := cola; ultima_actividad := ultima;
     memoria := mem; activo := true |}.

Definition mensaje_texto (n cid : Z) (texto : string) : Update :=
  {| update_id := n;
     message := Some {| chat := {| id := cid |}; text := Some (py texto);
                        audio := None; voice := None |} |}.

Definition mensaje_voz (n cid : Z) : Update :=
  {| update_id := n;
     message := Some {| chat := {| id := cid |}; text := None;
                        audio := None;
                        voice := Some {| file_id := py "AwACAgQ" |} |} |}.

(** An update whose message carries neither text nor audio (a sticker, a
    photo). *)
Definition mensaje_otro (n cid : Z) : Update :=
  {| update_id := n;
     message := Some {| chat := {| id := cid |}; text := None;
                        audio := None; voice := None |} |}.

(** Conversation 42, just created, with an empty history, at second 100. *)
Definition estado_42 : St (W:=Z) :=
  {| self := gestor 42 [] 0 []; world := mundo_en 100 disco_vacio |}.

(** The generation model answers "¡Hola!". *)
Definition colaboradores_hola : Collaborators Z :=
  colaboradores (Ok (py "¡Hola!")) (Ok []).

(** The generation model fails with a short message. *)
Definition colaboradores_error : Collaborators Z :=
  colaboradores (Raise (Exn (py "503 UNAVAILABLE"))) (Ok []).

(** The generation model fails with a message of 3951 characters (the body
    of an HTTP error, say), so that the apology, 50 characters long, and the
    message together have 4001. *)
Definition excepcion_larga : exn := Exn (repeat 120%N 3951).
Definition colaboradores_error_largo : Collaborators Z :=
  colaboradores (Raise excepcion_larga) (Ok []).

(** The transcription service is down; the generation model answers. *)
Definition colaboradores_sin_transcripcion : Collaborators Z :=
  colaboradores (Ok (py "No te he entendido."))
                (Raise (Exn (py "connection refused"))).

(** Conversation 42 after an exchange in which the model answered in two
    lines. *)
Definition estado_dos_lineas : St (W:=Z) :=
  {| self := gestor 42 [] 0
               [py "Usuario: hola"; py "Asistente: Uno." ++ [LF] ++ py "Dos."];
     world := mundo_en 100 disco_vacio |}.

(** Conversation 42 after a voice message that could not be transcribed. *)
Definition estado_voz_vacia : St (W:=Z) :=
  {| self := gestor 42 [] 0
               [py "Usuario: "; py "Asistente: No te he entendido."];
     world := mundo_en 100 disco_vacio |}.

(** The history of the instance that the next message of the chat creates,
    after [s] was stopped. *)
Definition historial_recuperado (s : St (W:=Z)) : option (list pystr) :=
  match GestorChat_init colaboradores_hola (chat_id (self s))
          (world (snd (detener s))) with
  | (Ok g, _) => Some (memoria g)
  | (Raise _, _) => None
  end.

(** A registry at second 1000 with three conversations: 42 has been idle
    for 301 seconds and has nothing pending; 7 has been idle as long but has
    an update in its queue; 9 was active 300 seconds ago. *)
Definition registro_ejemplo : Registro (W:=Z) :=
  {| heap := [ gestor 42 [] 699 [py "Usuario: hola"; py "Asistente: ¡Hola!"];
               gestor 7 [mensaje_texto 5 7 "sigues ahi"] 699 [];
               gestor 9 [] 700 [] ];
     chats_activos := <[42%Z := 0]> (<[7%Z := 1]> (<[9%Z := 2]> ∅));
     mundo := mundo_en 1000 disco_vacio |}.

End Escenario.

(* ===================================================================== *)
(** ** The operations of a worker *)
(* ===================================================================== *)

Section Operaciones.

Context {W : Type} (E : Collaborators W).

(** Every method of [GestorChat] that runs on an existing instance, and the
    two halves of an iteration of its loop. *)
Inductive Operacion : Type :=
| OpCargarHistorial
| OpGuardarHistorial
| OpAgregarMensaje (update : Update)
| OpProcesarCola (fuel : nat)
| OpProcesarColaGet
| OpProcesarColaCuerpo (update : Update)
| OpProcesarUpdate (update : Update)
| OpDetener.

(** The state an operation leaves, whether it returns or raises. *)
Definition aplicar (op : Operacion) (s : St (W:=W)) : St :=
  match op with
  | OpCargarHistorial => snd (cargar_historial s)
  | OpGuardarHistorial => snd (guardar_historial s)
  | OpAgregarMensaje update => snd (agregar_mensaje E update s)
  | OpProcesarCola fuel => snd (procesar_cola E fuel s)
  | OpProcesarColaGet => snd (procesar_cola_get s)
  | OpProcesarColaCuerpo update => snd (procesar_cola_cuerpo E update s)
  | OpProcesarUpdate update => snd (procesar_update E update s)
  | OpDetener => snd (detener s)
  end.

End Operaciones.

(* ===================================================================== *)
(** ** The two blocks of [procesar_update] *)
(* ===================================================================== *)

(** [audio.file_id if audio else voice.file_id], evaluated when one of the
    two is present. *)
Definition file_id_de (msg : Message) : pystr :=
  match audio msg with
  | Some a => file_id a
  | None => match voice msg with
            | Some v => file_id v
            | None => []
            end
  end.

(** The text [response_openweb_transcriptor] returns for an outcome of the
    request: the transcription, or [""] when the request raised. *)
Definition transcripcion_de (r : result pystr) : pystr :=
  match r with
  | Ok texto => texto
  | Raise _ => []
  end.

(** The reply [response_gemini_consulta_documentos] returns for an outcome
    of the call to the generation model: what the model generated, or the
    apology followed by the text of the exception. *)
Definition respuesta_de (r : result pystr) : pystr :=
  match r with
  | Ok texto => texto
  | Raise e => MENSAJE_ERROR ++ exn_str e
  end.

(** The two models and the prompt of the language detection. *)
Definition MODELO_IDIOMA : pystr := py "gemini-2.5-flash-lite".
Definition MODELO_RESPUESTA : pystr := py "gemini-2.5-flash".
Definition PROMPT_IDIOMA (mensaje : pystr) : pystr :=
  py "Detecta el idioma y devuelve SOLO el código ISO 639-1 (es, en, fr...): "
  ++ prefix_slice 50 mensaje.
Definition URL_TRANSCRIPCION {W} (E : Collaborators W) : pystr :=
  BASE_URL E ++ py "/api/v1/audio/transcriptions".

Section Bloques.

Context {W : Type} (E : Collaborators W).

(** The block under the comment "Obtener pregunta (Texto o Audio)": the
    value of [pregunta] after it, for the message of the update. *)
Definition obtener_pregunta (msg : Message) : M (St (W:=W)) (option pystr) :=
  if truthy_obj (audio msg) || truthy_obj (voice msg) then
    let fid := file_id_de msg in
    let! audio_bytes := lift (obt_audio E fid) in
    let! transcripcion := lift (response_openweb_transcriptor E audio_bytes) in
    ret (Some transcripcion)
  else if truthy_str (text msg) then ret (text msg)
  else ret None.

(** The block under [if pregunta != None], for the chat [cid]. *)
Definition responder (cid : Z) (pregunta : pystr) : M (St (W:=W)) unit :=
  let! s := get_state in
  let historial_str := join [LF] (memoria (self s)) in
  let! respuesta :=
    lift (response_gemini_consulta_documentos E pregunta historial_str) in
  run! memoria_append (py "Usuario: " ++ pregunta) in
  run! memoria_append (py "Asistente: " ++ respuesta) in
  run! for_each (adecuar_respuesta respuesta)
         (fun parte => lift (call (ESendMessage cid parte)
                                  (sendMessage E cid parte))) in
  let! audio_resp := lift (response_openweb_lectura E respuesta) in
  run! (match audio_resp with
        | Some (b :: bs) =>
          lift (call (ESendAudio cid (b :: bs)) (sendAudio E cid (b :: bs)))
        | _ => ret tt
        end) in
  lift (print (py "[" ++ str_of_Z cid ++ py "] Respuesta enviada.")).

(** The first line the method prints. *)
Definition AVISO_PROCESANDO (cid : Z) : pystr :=
  py "[" ++ str_of_Z cid ++ py "] Procesando mensaje...".

(** The state when the method has printed that line. *)
Definition tras_aviso (s : St (W:=W)) : St :=
  {| self := self s;
     world := {| ext := ext (world s); fs := fs (world s);
                 log := log (world s)
                        ++ [EPrint (AVISO_PROCESANDO (chat_id (self s)))] |} |}.

End Bloques.

(** The history after one exchange: the line of the user, then the line of
    the assistant, each appended to the bounded window. *)
Definition anotar (pregunta respuesta : pystr) (mem : list pystr) : list pystr :=
  deque_append MEMORIA_MAXLEN (py "Asistente: " ++ respuesta)
    (deque_append MEMORIA_MAXLEN (py "Usuario: " ++ pregunta) mem).

(* ===================================================================== *)
(** ** Well-formed registries *)
(* ===================================================================== *)

Section BienFormado.

Context {W : Type}.

(** Every entry of the dictionary names an instance that exists and whose
    [chat_id] is the key of the entry. *)
Definition entrada_valida (r : Registro (W:=W)) (item : Z * nat) : bool :=
  match heap r !! item.2 with
  | Some g => bool_decide (chat_id g = item.1)
  | None => false
  end.

Definition bien_formado (r : Registro (W:=W)) : bool :=
  forallb (entrada_valida r) (map_to_list (chats_activos r)).

(** Whether the first loop of the cleaning thread stops the instance of an
    item. *)
Definition debe_eliminar (ahora : Q) (r : Registro (W:=W)) (item : Z * nat)
  : bool :=
  match heap r !! item.2 with
  | Some g => inactivo ahora g
  | None => false
  end.

(** The identifiers among [items] whose instances the first loop stops, in
    the order of the visit. *)
Fixpoint candidatos (ahora : Q) (r : Registro (W:=W)) (items : list (Z * nat))
  : list Z :=
  match items with
  | [] => []
  | item :: resto =>
    if debe_eliminar ahora r item then item.1 :: candidatos ahora r resto
    else candidatos ahora r resto
  end.

(** The history files that stopping those instances writes. *)
Fixpoint guardados (ahora : Q) (r : Registro (W:=W)) (items : list (Z * nat))
  : list (pystr * pystr) :=
  match items with
  | [] => []
  | item :: resto =>
    match heap r !! item.2 with
    | Some g =>
      if inactivo ahora g then
        (ruta_historial (chat_id g), join [LF] (memoria g))
          :: guardados ahora r resto
      else guardados ahora r resto
    | None => guardados ahora r resto
    end
  end.

End BienFormado.

(* ===================================================================== *)
(** ** The invariant of the registry *)
(* ===================================================================== *)

(** What the invariant reads of an instance: its chat and whether it is
    live (its flag [activo] is up). *)
Definition resumen (heap : list GestorChat) : list (Z * bool) :=
  (fun g => (chat_id g, activo g)) <$> heap.

Section Invariante.

Context {W : Type}.

(** Whether a thread stands inside its [with lock_chats] block. *)
Definition dentro_main (p : PcMain) : bool :=
  match p with
  | MLibre => false
  | _ => true
  end.

Definition dentro_monitor (p : PcMonitor) : bool :=
  match p with
  | RRevisando _ _ _ | RBorrando _ _ => true
  | _ => false
  end.

(** The invariant, on what it reads of the state: the instances, the
    dictionary, the lock, and the program counters. *)
Record invariante_de (vista : list (Z * bool)) (chats : gmap Z nat)
    (lock : option Hilo) (pcm : nat -> PcMain) (mon : PcMonitor) : Prop := {
  (** Mutual exclusion: the threads inside a block are the holder of the
      lock, alone. *)
  inv_lock :
    match lock with
    | None => (forall t, pcm t = MLibre) /\ dentro_monitor mon = false
    | Some (HMain t) =>
      pcm t <> MLibre /\ (forall t', t' <> t -> pcm t' = MLibre)
      /\ dentro_monitor mon = false
    | Some HMonitor => (forall t, pcm t = MLibre) /\ dentro_monitor mon = true
    end;
  (** An entry of the dictionary names an instance of that chat. *)
  inv_reg :
    forall c a, chats !! c = Some a -> exists b, vista !! a = Some (c, b);
  (** A live instance is the one the dictionary has for its chat, or the one
      a polling thread has just built and is about to store. *)
  inv_live :
    forall a c, vista !! a = Some (c, true) ->
      chats !! c = Some a \/ exists t u, pcm t = MGuardar u c a;
  (** What a polling thread inside the block knows of the dictionary. *)
  inv_pc :
    forall t,
      match pcm t with
      | MCrear _ c => chats !! c = None
      | MGuardar _ c a =>
        chats !! c = None /\ exists b, vista !! a = Some (c, b)
      | MEncolar _ c => is_Some (chats !! c)
      | _ => True
      end;
  (** What the cleaning thread inside the block knows: the items it has
      still to visit are entries of the dictionary, and the instances it
      has marked for deletion are stopped. *)
  inv_mon :
    match mon with
    | RRevisando _ pendientes eliminar =>
      (forall c a, (c, a) ∈ pendientes -> chats !! c = Some a)
      /\ (forall c a, c ∈ eliminar -> chats !! c = Some a ->
            exists c', vista !! a = Some (c', false))
    | RBorrando pendientes _ =>
      forall c a, c ∈ pendientes -> chats !! c = Some a ->
        exists c', vista !! a = Some (c', false)
    | _ => True
    end;
}.

Definition invariante (s : Sistema (W:=W)) : Prop :=
  invariante_de (resumen (heap (registro s))) (chats_activos (registro s))
                (lock_chats s) (pc_main s) (pc_monitor s).

End Invariante.

(* ===================================================================== *)
(** ** Vocabulary of the proofs *)
(* ===================================================================== *)

(** [preserva P m]: running [m] from a state where [P] holds ends, by a
    return or by a raise, in a state where [P] holds. *)
Definition preserva {S A} (P : S -> Prop) (m : M S A) : Prop :=
  forall s, P s -> P (snd (m s)).

(** A line that survives a save and a load: it is not empty, it neither
    starts nor ends with white space, and it has no line break inside. *)
Definition linea_limpia (l : pystr) : bool :=
  match l with [] => false | c :: _ => negb (isspace c) end
  && match rev l with [] => false | c :: _ => negb (isspace c) end
  && forallb (fun c => negb (c =? LF)%N && negb (c =? CR)%N) l.

(** The history is within the bound of the window. *)
Definition memoria_en_cota (g : GestorChat) : Prop :=
  length (memoria g) <= MEMORIA_MAXLEN.

(** Events that are neither a sent message, nor a call to the generation
    model, nor a file written. *)
Definition silencioso (eventos : list Event) : Prop :=
  mensajes_enviados eventos = []
  /\ consultas_generacion eventos = []
  /\ ficheros_escritos eventos = [].

(** The program counters [pcm'] of the polling threads after thread [t]
    moves to [p] from the counters [pcm]. *)
Definition mueve (pcm : nat -> PcMain) (t : nat) (p : PcMain)
    (pcm' : nat -> PcMain) : Prop :=
  pcm' t = p /\ forall t', t' <> t -> pcm' t' = pcm t'.

Section Vocabulario.

Context {W : Type}.

(** The world after some calls: the outside has moved, the files are the
    same, the trace has grown by [eventos]. *)
Definition tras (w : World W) (x : W) (eventos : list Event) : World W :=
  {| ext := x; fs := fs w; log := log w ++ eventos |}.

(** The state of a method after some calls, with the instance [g]. *)
Definition estado_tras (s : St (W:=W)) (g : GestorChat) (x : W)
    (eventos : list Event) : St :=
  {| self := g; world := tras (world s) x eventos |}.

(** A computation that leaves the instance and the files as they are and
    adds only silent events to the trace. *)
Definition discreto {A} (m : M (St (W:=W)) A) : Prop :=
  forall s, exists x eventos,
    snd (m s) = estado_tras s (self s) x eventos /\ silencioso eventos.

(** The files and the writes recorded so far are [disco] and [escritos]. *)
Definition disco_intacto (disco : FileSystem) (escritos : list (pystr * pystr))
    (w : World W) : Prop :=
  fs w = disco /\ ficheros_escritos (log w) = escritos.

(** What a worker has received and not lost: the updates it has processed,
    the one its thread holds, and those waiting in the queue. *)
Definition recibidos (t : Trabajador (W:=W)) : list Update :=
  procesados t ++ en_curso t ++ cola_mensajes (self (estado t)).

End Vocabulario.
From Stdlib Require Import Numbers.DecimalZ Numbers.DecimalPos.

(* ===================================================================== *)
(** ** More observations on traces, and the literals of the replies *)
(* ===================================================================== *)

(** The audio messages sent, as [(chat_id, audio)], oldest first. *)
Fixpoint audios_enviados (l : list Event) : list (Z * pybytes) :=
  match l with
  | [] => []
  | ESendAudio cid audio :: l' => (cid, audio) :: audios_enviados l'
  | _ :: l' => audios_enviados l'
  end.

(** The lines printed, oldest first. *)
Fixpoint impresos (l : list Event) : list pystr :=
  match l with
  | [] => []
  | EPrint linea :: l' => linea :: impresos l'
  | _ :: l' => impresos l'
  end.

(** The chats that received something, a text or an audio, oldest first. *)
Fixpoint destinatarios (l : list Event) : list Z :=
  match l with
  | [] => []
  | ESendMessage cid _ :: l' => cid :: destinatarios l'
  | ESendAudio cid _ :: l' => cid :: destinatarios l'
  | _ :: l' => destinatarios l'
  end.

(** The last [n] items of a list, [l[-n:]] for [n > 0]. *)
Definition ultimas {A} (n : nat) (l : list A) : list A :=
  drop (length l - n) l.

(** The default of [voces.get(idioma, ...)] and the address of the speech
    service. *)
Definition VOZ_POR_DEFECTO : pystr := py "es-ES-AlvaroNeural".
Definition URL_LECTURA {W} (E : Collaborators W) : pystr :=
  BASE_URL E ++ py "/api/v1/audio/speech".

(** The voice [response_openweb_lectura] asks for, for a detected language. *)
Definition voz_de (idioma : pystr) : pystr :=
  dict_get_default voces idioma VOZ_POR_DEFECTO.

(** The language named in the prompt of the generation model. *)
Definition idioma_largo (idioma : pystr) : pystr :=
  dict_get_default voces_largo idioma (py "ESPAÑOL").

(** The language [detectar_idioma] returns for an outcome of its call to
    the model. *)
Definition idioma_de (r : result pystr) : pystr :=
  match r with
  | Ok texto => lower (strip texto)
  | Raise _ => py "es"
  end.

(** What [response_openweb_lectura] returns for an outcome of the request. *)
Definition audio_de (r : result pybytes) : option pybytes :=
  match r with
  | Ok audio => Some audio
  | Raise _ => None
  end.

(** The audio message that follows a synthesis: none when the request
    failed or returned no bytes ([if audio_resp]). *)
Definition audio_a_enviar (cid : Z) (audio_resp : option pybytes) : list Event :=
  match audio_resp with
  | Some (b :: bs) => [ESendAudio cid (b :: bs)]
  | _ => []
  end.

(** The last line [procesar_update] prints, and the line the loop of the
    worker prints for an exception. *)
Definition AVISO_ENVIADA (cid : Z) : pystr :=
  py "[" ++ str_of_Z cid ++ py "] Respuesta enviada.".
Definition AVISO_ERROR (cid : Z) (e : exn) : pystr :=
  py "Error en chat " ++ str_of_Z cid ++ py ": " ++ exn_str e.

(** The address of the file of an audio, as [obt_audio] builds it. *)
Definition URL_FICHERO {W} (E : Collaborators W) (file_path : pystr) : pystr :=
  py "https://api.telegram.org/file/bot" ++ BOT_TOKEN E ++ py "/" ++ file_path.

(** The line the cleaning thread prints after removing [n] chats. *)
Definition AVISO_LIMPIEZA (n : nat) : pystr :=
  py "Limpieza: Se han eliminado " ++ str_of_nat n
  ++ py " chats inactivos de la memoria RAM.".

(** The line the polling loop prints before creating the instance of a
    chat. *)
Definition AVISO_NUEVA_SESION (cid : Z) : pystr :=
  py "[" ++ str_of_Z cid ++ py "] Nueva sesión (o recuperada de disco).".

(** A new instance, as the assignments of [__init__] leave it. *)
Definition gestor_nuevo (cid : Z) (t : Q) (mem : list pystr) : GestorChat :=
  {| chat_id := cid; cola_mensajes := []; ultima_actividad := t;
     memoria := mem; activo := true |}.

(** The history after a sequence of exchanges [(pregunta, respuesta)]. *)
Definition anotar_todos (intercambios : list (pystr * pystr))
    (mem : list pystr) : list pystr :=
  fold_left (fun m '(q, r) => anotar q r m) intercambios mem.

(** The lines of a sequence of exchanges. *)
Definition transcripcion (intercambios : list (pystr * pystr)) : list pystr :=
  flat_map (fun '(q, r) => [py "Usuario: " ++ q; py "Asistente: " ++ r])
           intercambios.

(* ===================================================================== *)
(** ** The polling loop of [main] and its shutdown *)
(* ===================================================================== *)

(** [bot.getUpdates(offset=..., timeout=...)], the one method of the bot
    that only [main] calls. *)
Record Sondeo (W : Type) := {
  getUpdates : Z -> Z -> W -> result (list Update) * W;
}.
Arguments getUpdates {W} _ _ _ _.

Section Principal.

Context {W : Type} (E : Collaborators W) (B : Sondeo W).

(** What the polling loop works on: its local variable [offset] and what it
    shares with the other threads. *)
Record Principal := {
  offset : Z;
  compartido : Registro (W:=W);
}.

Definition en_registro {A} (m : M (Registro (W:=W)) A) : M Principal A :=
  fun p =>
    let (res, r) := m (compartido p) in
    (res, {| offset := offset p; compartido := r |}).

Definition set_offset (n : Z) : M Principal unit :=
  modify (fun p => {| offset := n; compartido := compartido p |}).

Definition bot_getUpdates (desde timeout : Z) : M (World W) (list Update) :=
  fun w =>
    let (res, x) := getUpdates B desde timeout (ext w) in
    (res, {| ext := x; fs := fs w; log := log w |}).

(** The body of [for update in updates]. *)
Definition atender (update : Update) : M Principal unit :=
  match message update with
  | None => set_offset (update_id update + 1)
  | Some m =>
    run! en_registro (despachar E (id (chat m)) update) in
    set_offset (update_id update + 1)
  end.

(** One turn of the [while True] loop of [main] with its handler of
    [Exception], run without interference. *)
Definition main_ciclo : M Principal unit :=
  try_except
    (let! p := get_state in
     let! updates := en_registro (en_mundo (bot_getUpdates (offset p) 10)) in
     for_each updates atender)
    (fun e =>
       en_registro
         (en_mundo (run! print (py "Error en polling principal: " ++ exn_str e) in
                    emit (ESleep 1)))).

(** The handler of [KeyboardInterrupt]: every instance of the dictionary is
    stopped, under the lock. *)
Definition cerrar : M (Registro (W:=W)) unit :=
  run! en_mundo (print (py "Cerrando...")) in
  let! r := get_state in
  for_each (map_to_list (chats_activos r)).*2
           (fun a => con_gestor a detener).

End Principal.

(** The value of [offset] when the updates [hechos] have been attended
    one after another, starting from [desde]. *)
Definition offset_tras (desde : Z) (hechos : list Update) : Z :=
  match last hechos with
  | Some u => (update_id u + 1)%Z
  | None => desde
  end.

(** Whether an update carries a message of chat [c]. *)
Definition es_para (c : Z) (u : Update) : bool :=
  match message u with
  | Some m => bool_decide (id (chat m) = c)
  | None => false
  end.

(** The updates of a batch that carry a message of chat [c], in order. *)
Definition para_chat (c : Z) (updates : list Update) : list Update :=
  List.filter (es_para c) updates.

(** The queue of the instance that the dictionary has for chat [c]; empty
    when it has none. *)
Definition cola_de {W} (r : Registro (W:=W)) (c : Z) : list Update :=
  match chats_activos r !! c with
  | Some a =>
    match heap r !! a with
    | Some g => cola_mensajes g
    | None => []
    end
  | None => []
  end.

(** What [guardar_historial] writes for an instance: the file and its
    contents. *)
Definition historial_de (g : GestorChat) : pystr * pystr :=
  (ruta_historial (chat_id g), join [LF] (memoria g)).

(** The files after a sequence of writes, first write first. *)
Definition tras_escrituras (files escrituras : list (pystr * pystr))
  : list (pystr * pystr) :=
  fold_left (fun fl p => fs_store fl p.1 p.2) escrituras files.

(** The histories of the instances at the addresses [dirs]. *)
Definition historiales (heap : list GestorChat) (dirs : list nat)
  : list (pystr * pystr) :=
  omap (fun a => historial_de <$> heap !! a) dirs.

(* ===================================================================== *)
(** ** More vocabulary of the proofs *)
(* ===================================================================== *)

(** Since the trace had the recipients [base], the chat [c] alone has
    received something. *)
Definition solo_al_chat {W} (c : Z) (base : list Z) (w : World W) : Prop :=
  exists nuevos,
    destinatarios (log w) = base ++ nuevos /\ Forall (eq c) nuevos.

(** The same of a worker, which is the worker of chat [c]. *)
Definition trabaja_para {W} (c : Z) (base : list Z) (s : St (W:=W)) : Prop :=
  chat_id (self s) = c /\ solo_al_chat c base (world s).

(** Since the files were [files0] and the trace had the writes [base], the
    files are what the writes recorded since then have made of them. *)
Definition escrituras_coherentes {W} (files0 base : list (pystr * pystr))
    (w : World W) : Prop :=
  exists nuevos,
    ficheros_escritos (log w) = base ++ nuevos
    /\ fs_files (fs w) = tras_escrituras files0 nuevos.

(** How many steps a polling thread has left inside its block, at most,
    and the same of the cleaning thread. *)
Definition pasos_restantes_main (p : PcMain) : nat :=
  match p with
  | MLibre => 0
  | MComprobar _ _ => 5
  | MCrear _ _ => 4
  | MGuardar _ _ _ => 3
  | MEncolar _ _ => 2
  | MSoltar => 1
  end.

Definition pasos_restantes_monitor (p : PcMonitor) : nat :=
  match p with
  | RRevisando _ pendientes eliminar =>
    2 * length pendientes + length eliminar + 2
  | RBorrando pendientes _ => length pendientes + 1
  | _ => 0
  end.

(** Every instance has its thread, and the thread of a live instance has
    not ended. [vista] is what [resumen] reads of the instances. *)
Definition hilos_en_orden (vista : list (Z * bool)) (pcs : list PcHilo) : Prop :=
  length pcs = length vista
  /\ forall a c, vista !! a = Some (c, true) -> pcs !! a <> Some Fin.

(* ===================================================================== *)
(** ** More concrete cases, for running the program *)
(* ===================================================================== *)

Module Casos.

(** The disk with the history of conversation 7. *)
Definition disco_con_7 : FileSystem :=
  {| fs_dirs := [py "chats"];
     fs_files := [(ruta_historial 7,
                   py "Usuario: hi" ++ [LF] ++ py "Asistente: Hello!")] |}.

(** Conversation 42 on that disk, after one exchange. *)
Definition estado_42_con_7 : St (W:=Z) :=
  {| self := Escenario.gestor 42 [] 0
               [py "Usuario: hola"; py "Asistente: ¡Hola!"];
     world := Escenario.mundo_en 100 disco_con_7 |}.

(** The Telegram client cannot give the file of an audio; everything else
    is as in [Escenario.colaboradores_hola]. *)
Definition colaboradores_sin_descarga : Collaborators Z :=
  {| BOT_TOKEN := py "TOKEN";
     BASE_URL := py "http://localhost:3000";
     FILESEARCHSTORE := py "fileSearchStores/docs";
     generate_content := generate_content Escenario.colaboradores_hola;
     post_transcription := post_transcription Escenario.colaboradores_hola;
     post_speech := post_speech Escenario.colaboradores_hola;
     getFile := fun _ w => (Raise (Exn (py "file is too big")), w);
     requests_get := requests_get Escenario.colaboradores_hola;
     sendMessage := sendMessage Escenario.colaboradores_hola;
     sendAudio := sendAudio Escenario.colaboradores_hola;
     time_time := time_time Escenario.colaboradores_hola |}.

(** A batch of three updates: one of chat 7, one without message, one of a
    chat that is not in memory. *)
Definition lote_ejemplo : list Update :=
  [ Escenario.mensaje_texto 5 7 "hola otra vez";
    {| update_id := 6; message := None |};
    Escenario.mensaje_texto 7 5 "hi" ].

Definition sondeo_ejemplo : Sondeo Z :=
  {| getUpdates := fun _ _ w => (Ok lote_ejemplo, w) |}.

(** The polling loop about to ask for the updates from 5 on, with the
    dictionary of [Escenario.registro_ejemplo]. *)
Definition principal_ejemplo : Principal (W:=Z) :=
  {| offset := 5; compartido := Escenario.registro_ejemplo |}.

(** Four exchanges. *)
Definition cuatro_intercambios : list (pystr * pystr) :=
  [ (py "uno", py "1"); (py "dos", py "2"); (py "tres", py "3");
    (py "cuatro", py "4") ].

End Casos.

(* ===================================================================== *)
(** * Properties *)
(* ===================================================================== *)

(** ** Invariants of computations *)

Section Preserva.

Context {S : Type} (P : S -> Prop).

Lemma preserva_ret {A} (a : A) : preserva P (ret a).
Proof. intros s Hs. exact Hs. Qed.

Lemma preserva_raise {A} (e : exn) : preserva P (raise (A:=A) e).
Proof. intros s Hs. exact Hs. Qed.

Lemma preserva_get_state : preserva P get_state.
Proof. intros s Hs. exact Hs. Qed.

Lemma preserva_modify (f : S -> S) :
  (forall s, P s -> P (f s)) -> preserva P (modify f).
Proof. intros Hf s Hs. apply Hf, Hs. Qed.

Lemma preserva_bind {A B} (m : M S A) (k : A -> M S B) :
  preserva P m -> (forall a, preserva P (k a)) -> preserva P (bind m k).
Proof.
  intros Hm Hk s Hs. unfold bind. specialize (Hm s Hs).
  destruct (m s) as [[a|e] s1]; simpl in *.
  - apply Hk, Hm.
  - exact Hm.
Qed.

Lemma preserva_try_except {A} (m : M S A) (h : exn -> M S A) :
  preserva P m -> (forall e, preserva P (h e)) -> preserva P (try_except m h).
Proof.
  intros Hm Hh s Hs. unfold try_except. specialize (Hm s Hs).
  destruct (m s) as [[a|e] s1]; simpl in *.
  - exact Hm.
  - apply Hh, Hm.
Qed.

Lemma preserva_try_finally {A} (m : M S A) (f : M S unit) :
  preserva P m -> preserva P f -> preserva P (try_finally m f).
Proof.
  intros Hm Hf s Hs. unfold try_finally. specialize (Hm s Hs).
  destruct (m s) as [r s1]; simpl in *. specialize (Hf s1 Hm).
  destruct (f s1) as [[u|e] s2]; simpl in *; exact Hf.
Qed.

Lemma preserva_for_each {A} (l : list A) (body : A -> M S unit) :
  (forall x, preserva P (body x)) -> preserva P (for_each l body).
Proof.
  intros Hbody. induction l as [|x l IH]; simpl.
  - apply preserva_ret.
  - apply preserva_bind; [apply Hbody|intros _; exact IH].
Qed.

End Preserva.

Section PreservaGestor.

Context {W : Type} (E : Collaborators W).

(** Computations on the world do not touch the instance. *)
Lemma preserva_lift_self {A} (P : GestorChat -> Prop) (m : M (World W) A) :
  preserva (fun s : St => P (self s)) (lift m).
Proof. intros s Hs. unfold lift. destruct (m (world s)); exact Hs. Qed.

(** Assignments to fields do not touch the world. *)
Lemma preserva_on_self_world (Q : World W -> Prop) f :
  preserva (fun s : St => Q (world s)) (on_self f).
Proof. intros s Hs. exact Hs. Qed.

Lemma preserva_on_self (P : GestorChat -> Prop) f :
  (forall g, P g -> P (f g)) ->
  preserva (fun s : St (W:=W) => P (self s)) (on_self f).
Proof. intros Hf s Hs. apply Hf, Hs. Qed.

Lemma preserva_lift_world {A} (Q : World W -> Prop) (m : M (World W) A) :
  preserva Q m -> preserva (fun s : St => Q (world s)) (lift m).
Proof.
  intros Hm s Hs. unfold lift. specialize (Hm (world s) Hs).
  destruct (m (world s)); exact Hm.
Qed.

End PreservaGestor.

(** Decomposing a goal [preserva P m] along the structure of [m]. *)
Ltac preserva_paso :=
  lazymatch goal with
  | |- preserva _ (ret _) => apply preserva_ret
  | |- preserva _ (raise _) => apply preserva_raise
  | |- preserva _ get_state => apply preserva_get_state
  | |- preserva _ (bind _ _) => apply preserva_bind; [|intros ?]
  | |- preserva _ (try_except _ _) => apply preserva_try_except; [|intros ?]
  | |- preserva _ (try_finally _ _) => apply preserva_try_finally
  | |- preserva _ (for_each _ _) => apply preserva_for_each; intros ?
  | |- preserva _ (match ?x with _ => _ end) => destruct x
  end.

Ltac preserva_estructura := repeat preserva_paso.

(** ** Chunking of replies ([adecuar_respuesta]) *)

Section Troceado.

Variable n : nat.
Hypothesis n_pos : 0 < n.

Lemma ceil_div_small m : m <= n -> ceil_div m n = (if m =? 0 then 0 else 1).
Proof.
  intros Hm. unfold ceil_div.
  destruct (Nat.eqb_spec m 0) as [->|Hne].
  - apply Nat.div_small. lia.
  - replace (m + n - 1) with ((m - 1) + 1 * n) by lia.
    rewrite Nat.div_add by lia. rewrite Nat.div_small by lia. reflexivity.
Qed.

Lemma ceil_div_step m : n < m -> ceil_div m n = S (ceil_div (m - n) n).
Proof.
  intros Hm. unfold ceil_div.
  replace (m + n - 1) with ((m - n + n - 1) + 1 * n) by lia.
  rewrite Nat.div_add by lia. lia.
Qed.

(** The indices [range] produces: [i], [i + n], ... below [stop]. *)
Lemma range_from_spec fuel i stop :
  stop - i <= fuel ->
  range_from fuel i stop n
  = map (fun k => i + k * n) (seq 0 (ceil_div (stop - i) n)).
Proof.
  revert i. induction fuel as [|fuel IH]; intros i Hfuel; simpl.
  - replace (stop - i) with 0 by lia.
    rewrite ceil_div_small by lia. reflexivity.
  - destruct (Nat.ltb_spec i stop) as [Hlt|Hge].
    + rewrite IH by lia.
      destruct (Nat.le_gt_cases (stop - i) n) as [Hle|Hgt].
      * rewrite (ceil_div_small (stop - i)) by lia.
        destruct (Nat.eqb_spec (stop - i) 0); [lia|].
        replace (stop - (i + n)) with 0 by lia.
        rewrite ceil_div_small by lia. simpl. f_equal. lia.
      * rewrite (ceil_div_step (stop - i)) by lia.
        replace (stop - i - n) with (stop - (i + n)) by lia.
        simpl. f_equal; [lia|].
        rewrite <- seq_shift, map_map. apply map_ext. intros k. lia.
    + replace (stop - i) with 0 by lia.
      rewrite ceil_div_small by lia. reflexivity.
Qed.

Lemma concat_slices {A} (r : list A) fuel i :
  length r - i <= fuel ->
  concat (map (fun j => slice j (j + n) r) (range_from fuel i (length r) n))
  = drop i r.
Proof.
  revert i. induction fuel as [|fuel IH]; intros i Hfuel; simpl.
  - symmetry. apply drop_ge. lia.
  - destruct (Nat.ltb_spec i (length r)) as [Hlt|Hge].
    + simpl. rewrite IH by lia. unfold slice.
      replace (i + n - i) with n by lia.
      rewrite <- drop_drop. apply take_drop.
    + simpl. symmetry. apply drop_ge. lia.
Qed.

End Troceado.

Lemma slice_length {A} (r : list A) i n : length (slice i (i + n) r) <= n.
Proof. unfold slice. rewrite length_take. lia. Qed.

Lemma LIMITE_TELEGRAM_pos : 0 < LIMITE_TELEGRAM.
Proof. apply Nat.ltb_lt. vm_compute. reflexivity. Qed.

Lemma adecuar_respuesta_largo (r : pystr) :
  LIMITE_TELEGRAM <= length r ->
  adecuar_respuesta r
  = map (fun k => slice (k * LIMITE_TELEGRAM)
                        (k * LIMITE_TELEGRAM + LIMITE_TELEGRAM) r)
        (seq 0 (ceil_div (length r) LIMITE_TELEGRAM)).
Proof.
  intros Hlen. unfold adecuar_respuesta.
  destruct (Nat.ltb_spec (length r) LIMITE_TELEGRAM) as [Hlt|_]; [lia|].
  unfold py_range.
  rewrite (range_from_spec LIMITE_TELEGRAM LIMITE_TELEGRAM_pos) by lia.
  rewrite Nat.sub_0_r, map_map. reflexivity.
Qed.

Lemma adecuar_respuesta_corto (r : pystr) :
  length r < LIMITE_TELEGRAM -> adecuar_respuesta r = [r].
Proof.
  intros Hlen. unfold adecuar_respuesta.
  destruct (Nat.ltb_spec (length r) LIMITE_TELEGRAM) as [_|Hge]; [reflexivity|lia].
Qed.

Lemma adecuar_respuesta_concat (r : pystr) : concat (adecuar_respuesta r) = r.
Proof.
  unfold adecuar_respuesta.
  destruct (Nat.ltb_spec (length r) LIMITE_TELEGRAM) as [Hlt|Hge].
  - simpl. apply app_nil_r.
  - unfold py_range.
    rewrite (concat_slices LIMITE_TELEGRAM LIMITE_TELEGRAM_pos) by lia.
    reflexivity.
Qed.

Lemma adecuar_respuesta_cota (r : pystr) :
  Forall (fun parte => length parte <= LIMITE_TELEGRAM) (adecuar_respuesta r).
Proof.
  unfold adecuar_respuesta.
  destruct (Nat.ltb_spec (length r) LIMITE_TELEGRAM) as [Hlt|Hge].
  - constructor; [lia|constructor].
  - apply List.Forall_forall. intros parte Hin.
    apply List.in_map_iff in Hin as (i & <- & _). apply slice_length.
Qed.

Lemma adecuar_respuesta_length (r : pystr) :
  length (adecuar_respuesta r) = Nat.max 1 (ceil_div (length r) LIMITE_TELEGRAM).
Proof.
  pose proof LIMITE_TELEGRAM_pos as Hpos.
  destruct (Nat.lt_ge_cases (length r) LIMITE_TELEGRAM) as [Hlt|Hge].
  - rewrite adecuar_respuesta_corto by assumption.
    rewrite (ceil_div_small LIMITE_TELEGRAM Hpos) by lia.
    destruct (length r =? 0); reflexivity.
  - rewrite adecuar_respuesta_largo by assumption.
    rewrite length_map, length_seq.
    destruct (Nat.le_gt_cases (length r) LIMITE_TELEGRAM).
    + rewrite (ceil_div_small LIMITE_TELEGRAM Hpos) by lia.
      destruct (Nat.eqb_spec (length r) 0); [lia|reflexivity].
    + rewrite (ceil_div_step LIMITE_TELEGRAM Hpos) by lia. lia.
Qed.

(** C5, as stated, fails on the empty reply: [adecuar_respuesta] returns the
    one chunk [""], while [ceil(0 / 4000)] is [0]. *)
Lemma adecuar_respuesta_vacia :
  adecuar_respuesta (py "") = [py ""]
  /\ length (adecuar_respuesta (py "")) = 1
  /\ ceil_div (length (py "")) LIMITE_TELEGRAM = 0.
Proof. vm_compute. auto. Qed.

(** C5 (amended): for a reply [r] of length [L], [adecuar_respuesta r] has
    [max 1 (ceil (L / 4000))] chunks, that is [ceil (L / 4000)] chunks for a
    non-empty reply and the single chunk [""] for the empty one; every chunk
    is at most 4000 long; the [k]-th chunk is [r[4000 k : 4000 k + 4000]], so
    the chunks are in order; and their concatenation is [r]. *)
Theorem adecuar_respuesta_correcta (r : pystr) :
  length (adecuar_respuesta r)
    = Nat.max 1 (ceil_div (length r) LIMITE_TELEGRAM)
  /\ (r <> [] ->
      length (adecuar_respuesta r) = ceil_div (length r) LIMITE_TELEGRAM)
  /\ Forall (fun parte => length parte <= LIMITE_TELEGRAM) (adecuar_respuesta r)
  /\ (forall k, k < length (adecuar_respuesta r) ->
        adecuar_respuesta r !! k
        = Some (slice (k * LIMITE_TELEGRAM)
                      (k * LIMITE_TELEGRAM + LIMITE_TELEGRAM) r))
  /\ concat (adecuar_respuesta r) = r.
Proof.
  pose proof LIMITE_TELEGRAM_pos as Hpos.
  split; [apply adecuar_respuesta_length|].
  split.
  { intros Hne. rewrite adecuar_respuesta_length.
    assert (0 < length r) by (destruct r; [congruence|simpl; lia]).
    assert (1 <= ceil_div (length r) LIMITE_TELEGRAM); [|lia].
    destruct (Nat.le_gt_cases (length r) LIMITE_TELEGRAM).
    - rewrite (ceil_div_small LIMITE_TELEGRAM Hpos) by lia.
      destruct (Nat.eqb_spec (length r) 0); lia.
    - rewrite (ceil_div_step LIMITE_TELEGRAM Hpos) by lia. lia. }
  split; [apply adecuar_respuesta_cota|].
  split; [|apply adecuar_respuesta_concat].
  intros k Hk.
  destruct (Nat.lt_ge_cases (length r) LIMITE_TELEGRAM) as [Hlt|Hge].
  - rewrite adecuar_respuesta_corto in * by assumption.
    simpl in Hk. assert (k = 0) as -> by lia. simpl.
    unfold slice. rewrite drop_0, Nat.sub_0_r, take_ge by lia. reflexivity.
  - rewrite adecuar_respuesta_largo in * by assumption.
    rewrite length_map, length_seq in Hk.
    rewrite list_lookup_fmap, lookup_seq_lt by assumption. reflexivity.
Qed.

(** ** What the methods do to the fields of the instance *)

Section Campos.

Context {W : Type} (E : Collaborators W).

(** A property of the instance that survives the three assignments the
    methods other than [detener] make: to the queue, to the time of last
    activity, and the bounded append to the history. *)
Variable P : GestorChat -> Prop.
Hypothesis P_cola : forall g q, P g -> P (set_cola q g).
Hypothesis P_ultima : forall g t, P g -> P (set_ultima_actividad t g).
Hypothesis P_memoria :
  forall g linea,
    P g -> P (set_memoria (deque_append MEMORIA_MAXLEN linea (memoria g)) g).

Local Abbreviation Ps := (fun s : St (W:=W) => P (self s)).

Ltac campos :=
  preserva_estructura;
  try lazymatch goal with
      | |- preserva _ (lift _) => apply preserva_lift_self
      | |- preserva _ (on_self _) => apply preserva_on_self; intros; auto
      end.

Lemma campos_memoria_append linea : preserva Ps (memoria_append linea).
Proof. unfold memoria_append. campos. Qed.

Lemma campos_cargar_historial : preserva Ps cargar_historial.
Proof. unfold cargar_historial. campos; apply campos_memoria_append. Qed.

Lemma campos_guardar_historial : preserva Ps guardar_historial.
Proof. unfold guardar_historial. campos. Qed.

Lemma campos_agregar_mensaje update : preserva Ps (agregar_mensaje E update).
Proof. unfold agregar_mensaje. campos. Qed.

Lemma campos_procesar_update update : preserva Ps (procesar_update E update).
Proof.
  unfold procesar_update, message_of. campos;
    apply campos_memoria_append.
Qed.

Lemma campos_procesar_cola_get : preserva Ps procesar_cola_get.
Proof. unfold procesar_cola_get. campos. Qed.

Lemma campos_procesar_cola_cuerpo update :
  preserva Ps (procesar_cola_cuerpo E update).
Proof.
  unfold procesar_cola_cuerpo. campos. apply campos_procesar_update.
Qed.

Lemma campos_procesar_cola fuel : preserva Ps (procesar_cola E fuel).
Proof.
  induction fuel as [|fuel IH]; simpl; campos;
    first [apply campos_procesar_cola_get
          | apply campos_procesar_cola_cuerpo
          | exact IH].
Qed.

Lemma campos_detener :
  (forall g, P g -> P (set_activo false g)) -> preserva Ps detener.
Proof.
  intros P_activo. unfold detener. campos. apply campos_guardar_historial.
Qed.

(** The thread of the worker only runs the two halves of the loop. *)
Lemma campos_paso_hilo t : Ps (estado t) -> Ps (estado (paso_hilo E t)).
Proof.
  intros Ht. unfold paso_hilo. destruct (pc t) as [|update|].
  - pose proof (campos_procesar_cola_get _ Ht) as H.
    destruct (procesar_cola_get (estado t)) as [[[]|e] s]; exact H.
  - pose proof (campos_procesar_cola_cuerpo update _ Ht) as H.
    destruct (procesar_cola_cuerpo E update (estado t)) as [[u|e] s]; exact H.
  - exact Ht.
Qed.

End Campos.

(** ** The bounded history window *)

Lemma deque_append_length {A} (n : nat) (x : A) (d : list A) :
  length d <= n -> length (deque_append n x d) <= n.
Proof.
  intros Hd. unfold deque_append.
  destruct (Nat.ltb_spec n (length (d ++ [x]))) as [Hlt|Hge].
  - destruct d as [|y d]; simpl in *; [lia|].
    rewrite length_app in *. simpl in *. lia.
  - exact Hge.
Qed.

Lemma deque_append_lleno {A} (n : nat) (x : A) (d : list A) :
  0 < n -> length d = n -> deque_append n x d = tail d ++ [x].
Proof.
  intros Hn Hd. unfold deque_append.
  destruct (Nat.ltb_spec n (length (d ++ [x]))) as [Hlt|Hge].
  - destruct d; [simpl in Hd; lia|reflexivity].
  - rewrite length_app in Hge. simpl in Hge. lia.
Qed.

Lemma deque_append_hueco {A} (n : nat) (x : A) (d : list A) :
  length d < n -> deque_append n x d = d ++ [x].
Proof.
  intros Hd. unfold deque_append.
  destruct (Nat.ltb_spec n (length (d ++ [x]))) as [Hlt|Hge].
  - rewrite length_app in Hlt. simpl in Hlt. lia.
  - reflexivity.
Qed.

Section Ventana.

Context {W : Type} (E : Collaborators W).

Lemma memoria_en_cota_init cid (w : World W) :
  match GestorChat_init E cid w with
  | (Ok g, _) => memoria_en_cota g
  | (Raise _, _) => True
  end.
Proof.
  unfold GestorChat_init. destruct (now E w) as [[t|e] w1]; [|exact I].
  match goal with
  | |- context [cargar_historial ?s0] =>
    pose proof (campos_cargar_historial memoria_en_cota
                  (fun g linea H => deque_append_length _ _ _ H) s0) as H;
    destruct (cargar_historial s0) as [[u|e] s]
  end; [|exact I].
  apply H. unfold memoria_en_cota. simpl. unfold MEMORIA_MAXLEN. lia.
Qed.

Lemma memoria_en_cota_aplicar op (s : St (W:=W)) :
  memoria_en_cota (self s) -> memoria_en_cota (self (aplicar E op s)).
Proof.
  assert (Hm : forall g linea, memoria_en_cota g ->
            memoria_en_cota
              (set_memoria (deque_append MEMORIA_MAXLEN linea (memoria g)) g))
    by (intros g linea H; apply deque_append_length, H).
  assert (Hc : forall g q, memoria_en_cota g -> memoria_en_cota (set_cola q g))
    by (intros g q H; exact H).
  assert (Hu : forall g t, memoria_en_cota g ->
            memoria_en_cota (set_ultima_actividad t g))
    by (intros g t H; exact H).
  destruct op; simpl.
  - apply (campos_cargar_historial memoria_en_cota Hm).
  - apply (campos_guardar_historial memoria_en_cota).
  - apply (campos_agregar_mensaje E memoria_en_cota Hc Hu).
  - apply (campos_procesar_cola E memoria_en_cota Hc Hu Hm).
  - apply (campos_procesar_cola_get memoria_en_cota Hc).
  - apply (campos_procesar_cola_cuerpo E memoria_en_cota Hu Hm).
  - apply (campos_procesar_update E memoria_en_cota Hm).
  - apply (campos_detener memoria_en_cota). intros g H; exact H.
Qed.

(** C4: the history of a new instance has at most 6 lines; every operation
    of the worker keeps it so; appending to a window of 6 lines removes
    exactly the oldest one and keeps the others in order, with the new line
    last; appending to a shorter window removes nothing. *)
Theorem memoria_ventana_deslizante :
  (forall cid (w : World W),
      match GestorChat_init E cid w with
      | (Ok g, _) => length (memoria g) <= 6
      | (Raise _, _) => True
      end)
  /\ (forall op (s : St (W:=W)),
        length (memoria (self s)) <= 6 ->
        length (memoria (self (aplicar E op s))) <= 6)
  /\ (forall (l1 l2 l3 l4 l5 l6 nueva : pystr),
        deque_append MEMORIA_MAXLEN nueva [l1; l2; l3; l4; l5; l6]
        = [l2; l3; l4; l5; l6; nueva])
  /\ (forall (ventana : list pystr) (nueva : pystr),
        length ventana = 6 ->
        deque_append MEMORIA_MAXLEN nueva ventana = tail ventana ++ [nueva])
  /\ (forall (ventana : list pystr) (nueva : pystr),
        length ventana < 6 ->
        deque_append MEMORIA_MAXLEN nueva ventana = ventana ++ [nueva]).
Proof.
  split; [exact memoria_en_cota_init|].
  split; [exact memoria_en_cota_aplicar|].
  split; [reflexivity|].
  split.
  - intros ventana nueva H. apply deque_append_lleno; [|exact H].
    unfold MEMORIA_MAXLEN. lia.
  - intros ventana nueva H. apply deque_append_hueco. exact H.
Qed.

End Ventana.

(** ** Running computations step by step *)

Section Pasos.

Context {S : Type}.

Lemma bind_ok {A B} (m : M S A) (k : A -> M S B) s a s1 :
  m s = (Ok a, s1) -> bind m k s = k a s1.
Proof. intros H. unfold bind. rewrite H. reflexivity. Qed.

Lemma bind_raise {A B} (m : M S A) (k : A -> M S B) s e s1 :
  m s = (Raise e, s1) -> bind m k s = (Raise e, s1).
Proof. intros H. unfold bind. rewrite H. reflexivity. Qed.

Lemma try_except_ok {A} (m : M S A) h s a s1 :
  m s = (Ok a, s1) -> try_except m h s = (Ok a, s1).
Proof. intros H. unfold try_except. rewrite H. reflexivity. Qed.

Lemma try_except_raise {A} (m : M S A) h s e s1 :
  m s = (Raise e, s1) -> try_except m h s = h e s1.
Proof. intros H. unfold try_except. rewrite H. reflexivity. Qed.

End Pasos.

Lemma mensajes_enviados_app l1 l2 :
  mensajes_enviados (l1 ++ l2) = mensajes_enviados l1 ++ mensajes_enviados l2.
Proof.
  induction l1 as [|e l1 IH]; simpl; [reflexivity|].
  destruct e; simpl; rewrite IH; reflexivity.
Qed.

Lemma consultas_generacion_app l1 l2 :
  consultas_generacion (l1 ++ l2)
  = consultas_generacion l1 ++ consultas_generacion l2.
Proof.
  induction l1 as [|e l1 IH]; simpl; [reflexivity|].
  destruct e as [| ? ? [?|] | | | | | | | | |]; simpl; rewrite IH; reflexivity.
Qed.

Lemma ficheros_escritos_app l1 l2 :
  ficheros_escritos (l1 ++ l2) = ficheros_escritos l1 ++ ficheros_escritos l2.
Proof.
  induction l1 as [|e l1 IH]; simpl; [reflexivity|].
  destruct e; simpl; rewrite IH; reflexivity.
Qed.

(** ** The functions that call the services *)

Section Servicios.

Context {W : Type} (E : Collaborators W).

Lemma tras_tras (w : World W) x1 ev1 x2 ev2 :
  tras (tras w x1 ev1) x2 ev2 = tras w x2 (ev1 ++ ev2).
Proof. unfold tras. simpl. rewrite <- app_assoc. reflexivity. Qed.

Lemma call_eq {A} (e : Event) (oracle : W -> result A * W) w :
  call e oracle w = (fst (oracle (ext w)), tras w (snd (oracle (ext w))) [e]).
Proof. unfold call. destruct (oracle (ext w)). reflexivity. Qed.

(** [detectar_idioma] never raises: it makes one call to the small model and
    falls back to ["es"]. *)
Lemma detectar_idioma_eq mensaje (w : World W) :
  exists idioma x,
    detectar_idioma E mensaje w
    = (Ok idioma,
       tras w x [EGenerateContent MODELO_IDIOMA (PROMPT_IDIOMA mensaje) None]).
Proof.
  unfold detectar_idioma, try_except, bind, client_generate_content.
  rewrite call_eq.
  destruct (generate_content E _ _ None (ext w)) as [[texto|e] x];
    simpl; eauto.
Qed.

(** [response_gemini_consulta_documentos] never raises. Its reply is
    determined by the outcome of the call to the generation model, made
    after the language detection with the prompt built from the detected
    language, the history and the query. *)
Lemma response_gemini_eq mensaje historial (w : World W) :
  exists idioma x1,
    detectar_idioma E mensaje w
    = (Ok idioma,
       tras w x1 [EGenerateContent MODELO_IDIOMA (PROMPT_IDIOMA mensaje) None])
    /\ let contents := prompt_completo idioma historial mensaje in
       let generado :=
         generate_content E MODELO_RESPUESTA contents
                          (Some (FILESEARCHSTORE E)) x1 in
       response_gemini_consulta_documentos E mensaje historial w
       = (Ok (respuesta_de (fst generado)),
          tras w (snd generado)
               [EGenerateContent MODELO_IDIOMA (PROMPT_IDIOMA mensaje) None;
                EGenerateContent MODELO_RESPUESTA contents
                                 (Some (FILESEARCHSTORE E))]).
Proof.
  destruct (detectar_idioma_eq mensaje w) as (idioma & x1 & Hdet).
  exists idioma, x1. split; [exact Hdet|].
  unfold response_gemini_consulta_documentos.
  rewrite (bind_ok _ _ _ _ _ Hdet).
  unfold try_except, client_generate_content. rewrite call_eq.
  change (ext (tras w x1 _)) with x1.
  change (py "gemini-2.5-flash") with MODELO_RESPUESTA.
  destruct (generate_content E MODELO_RESPUESTA _ _ x1) as [[texto|e] x2];
    simpl; unfold ret; rewrite ?tras_tras; reflexivity.
Qed.

(** [response_openweb_transcriptor] never raises: it returns what the
    service transcribed, or [""] when the request failed. *)
Lemma response_openweb_transcriptor_eq audio (w : World W) :
  let r := post_transcription E (URL_TRANSCRIPCION E) audio (ext w) in
  response_openweb_transcriptor E audio w
  = (Ok (transcripcion_de (fst r)),
     tras w (snd r) [EPostTranscription (URL_TRANSCRIPCION E) audio]).
Proof.
  unfold response_openweb_transcriptor, try_except. rewrite call_eq.
  unfold URL_TRANSCRIPCION. simpl.
  destruct (post_transcription E _ audio (ext w)) as [[texto|e] x];
    reflexivity.
Qed.

(** [response_openweb_lectura] never raises and sends no message. *)
Lemma response_openweb_lectura_eq mensaje (w : World W) :
  exists audio x eventos,
    response_openweb_lectura E mensaje w = (Ok audio, tras w x eventos)
    /\ mensajes_enviados eventos = []
    /\ consultas_generacion eventos = []
    /\ ficheros_escritos eventos = [].
Proof.
  destruct (detectar_idioma_eq mensaje w) as (idioma & x1 & Hdet).
  unfold response_openweb_lectura.
  rewrite (bind_ok _ _ _ _ _ Hdet).
  unfold try_except, bind. rewrite call_eq.
  change (ext (tras w x1 _)) with x1.
  destruct (post_speech E _ mensaje _ x1) as [[audio|e] x2];
    simpl; unfold ret; rewrite ?tras_tras;
    eexists _, _, _; (split; [reflexivity|]); simpl; auto.
Qed.

End Servicios.

(** ** [procesar_update] *)

Section ProcesarUpdate.

Context {W : Type} (E : Collaborators W).

(** The method is its two blocks in sequence, after the first print. *)
Lemma procesar_update_eq update :
  procesar_update E update
  = (let! s0 := get_state in
     run! lift (print (AVISO_PROCESANDO (chat_id (self s0)))) in
     let! msg := message_of update in
     let! pregunta := obtener_pregunta E msg in
     match pregunta with
     | Some pregunta => responder E (chat_id (self s0)) pregunta
     | None => ret tt
     end).
Proof. reflexivity. Qed.

Lemma procesar_update_con_mensaje update msg (s : St (W:=W)) :
  message update = Some msg ->
  procesar_update E update s
  = (let! pregunta := obtener_pregunta E msg in
     match pregunta with
     | Some pregunta => responder E (chat_id (self s)) pregunta
     | None => ret tt
     end) (tras_aviso s).
Proof.
  intros Hmsg. rewrite procesar_update_eq.
  unfold message_of. rewrite Hmsg. reflexivity.
Qed.

Lemma lift_eq {A} (m : M (World W) A) (s : St (W:=W)) r w :
  m (world s) = (r, w) -> lift m s = (r, {| self := self s; world := w |}).
Proof. intros H. unfold lift. rewrite H. reflexivity. Qed.

Lemma tras_nada (w : World W) : tras w (ext w) [] = w.
Proof. destruct w. unfold tras. simpl. rewrite app_nil_r. reflexivity. Qed.

(** The loop that sends the chunks: it sends them in order and stops at the
    first call that raises; it sends them all when it returns. *)
Lemma enviar_partes cid partes (s : St (W:=W)) :
  exists k x,
    snd (for_each partes
           (fun parte => lift (call (ESendMessage cid parte)
                                    (sendMessage E cid parte))) s)
    = estado_tras s (self s) x (map (ESendMessage cid) (take k partes))
    /\ k <= length partes
    /\ (partes <> [] -> 1 <= k)
    /\ (fst (for_each partes
               (fun parte => lift (call (ESendMessage cid parte)
                                        (sendMessage E cid parte))) s)
        = Ok tt -> k = length partes).
Proof.
  revert s. induction partes as [|parte resto IH]; intros s.
  - exists 0, (ext (world s)). simpl. unfold estado_tras.
    rewrite tras_nada. destruct s; simpl. repeat split; auto. congruence.
  - simpl. unfold bind.
    rewrite (lift_eq _ s _ _ (call_eq _ _ _)).
    destruct (sendMessage E cid parte (ext (world s))) as [[[]|e] x1]; simpl.
    + match goal with
      | |- context [for_each resto ?f ?s1] =>
        destruct (IH s1) as (k & x & Hs & Hk & _ & Hok)
      end.
      exists (Datatypes.S k), x. simpl in *. rewrite Hs. unfold estado_tras. simpl.
      rewrite tras_tras. split; [reflexivity|]. split; [lia|].
      split; [intros _; lia|].
      intros H. rewrite (Hok H). reflexivity.
    + exists 1, x1. simpl. rewrite ?take_0. unfold estado_tras. simpl.
      split; [reflexivity|]. split; [lia|]. split; [intros _; lia|].
      discriminate.
Qed.

Lemma mensajes_enviados_map cid (partes : list pystr) :
  mensajes_enviados (map (ESendMessage cid) partes) = map (pair cid) partes.
Proof. induction partes as [|p l IH]; simpl; [|rewrite IH]; reflexivity. Qed.

Lemma consultas_generacion_map cid (partes : list pystr) :
  consultas_generacion (map (ESendMessage cid) partes) = [].
Proof. induction partes as [|p l IH]; simpl; [|rewrite IH]; reflexivity. Qed.

Lemma ficheros_escritos_map cid (partes : list pystr) :
  ficheros_escritos (map (ESendMessage cid) partes) = [].
Proof. induction partes as [|p l IH]; simpl; [|rewrite IH]; reflexivity. Qed.

Lemma memoria_append_eq linea (s : St (W:=W)) :
  memoria_append linea s
  = (Ok tt,
     {| self := set_memoria
                  (deque_append MEMORIA_MAXLEN linea (memoria (self s)))
                  (self s);
        world := world s |}).
Proof. reflexivity. Qed.

End ProcesarUpdate.

Lemma silencioso_app ev1 ev2 :
  silencioso ev1 -> silencioso ev2 -> silencioso (ev1 ++ ev2).
Proof.
  intros (H1 & H2 & H3) (H4 & H5 & H6). unfold silencioso.
  rewrite mensajes_enviados_app, consultas_generacion_app,
    ficheros_escritos_app, H1, H2, H3, H4, H5, H6. auto.
Qed.

Section Discreto.

Context {W : Type} (E : Collaborators W).

Lemma estado_tras_tras (s : St (W:=W)) g1 x1 ev1 g2 x2 ev2 :
  estado_tras (estado_tras s g1 x1 ev1) g2 x2 ev2
  = estado_tras s g2 x2 (ev1 ++ ev2).
Proof. unfold estado_tras. simpl. rewrite tras_tras. reflexivity. Qed.

Lemma estado_tras_nada (s : St (W:=W)) :
  estado_tras s (self s) (ext (world s)) [] = s.
Proof. unfold estado_tras. rewrite tras_nada. destruct s. reflexivity. Qed.

Lemma discreto_ret {A} (a : A) : discreto (W:=W) (ret a).
Proof.
  intros s. exists (ext (world s)), []. simpl.
  rewrite estado_tras_nada. split; [reflexivity|]. repeat split.
Qed.

Lemma discreto_bind {A B} (m : M (St (W:=W)) A) (k : A -> M St B) :
  discreto m -> (forall a, discreto (k a)) -> discreto (bind m k).
Proof.
  intros Hm Hk s. destruct (Hm s) as (x1 & ev1 & Hs1 & Hsil1).
  unfold bind. destruct (m s) as [[a|e] s1]; simpl in Hs1; subst s1.
  - destruct (Hk a (estado_tras s (self s) x1 ev1)) as (x2 & ev2 & Hs2 & Hsil2).
    exists x2, (ev1 ++ ev2). rewrite Hs2. simpl.
    rewrite estado_tras_tras. split; [reflexivity|].
    apply silencioso_app; assumption.
  - exists x1, ev1. auto.
Qed.

Lemma discreto_call {A} (e : Event) (oracle : W -> result A * W) :
  silencioso [e] -> discreto (lift (call e oracle)).
Proof.
  intros He s. rewrite (lift_eq _ _ _ _ (call_eq _ _ _)).
  eexists _, [e]. split; [reflexivity|exact He].
Qed.

Lemma discreto_print linea : discreto (lift (W:=W) (print linea)).
Proof.
  intros s. exists (ext (world s)), [EPrint linea].
  split; [reflexivity|]. repeat split.
Qed.

Lemma discreto_lectura mensaje :
  discreto (lift (response_openweb_lectura E mensaje)).
Proof.
  intros s.
  destruct (response_openweb_lectura_eq E mensaje (world s))
    as (audio & x & ev & H & Hm & Hc & Hf).
  rewrite (lift_eq _ _ _ _ H). exists x, ev. split; [reflexivity|].
  repeat split; assumption.
Qed.

End Discreto.
Section Responder.

Context {W : Type} (E : Collaborators W).

(** What follows the sending of the chunks: the speech synthesis, the audio
    message and the last print. *)
Lemma responder_final_discreto cid r :
  discreto
    (let! audio_resp := lift (response_openweb_lectura E r) in
     run! (match audio_resp with
           | Some (b :: bs) =>
             lift (call (ESendAudio cid (b :: bs)) (sendAudio E cid (b :: bs)))
           | _ => ret tt
           end) in
     lift (W:=W) (print (py "[" ++ str_of_Z cid ++ py "] Respuesta enviada."))).
Proof.
  apply discreto_bind; [apply discreto_lectura|]. intros audio.
  apply discreto_bind; [|intros _; apply discreto_print].
  destruct audio as [[|b bs]|];
    first [apply discreto_ret | apply discreto_call; repeat split].
Qed.

Lemma responder_efecto cid q (s : St (W:=W)) :
  exists idioma x1,
    detectar_idioma E q (world s)
    = (Ok idioma,
       tras (world s) x1 [EGenerateContent MODELO_IDIOMA (PROMPT_IDIOMA q) None])
    /\ let contents := prompt_completo idioma (join [LF] (memoria (self s))) q in
       let generado :=
         generate_content E MODELO_RESPUESTA contents
                          (Some (FILESEARCHSTORE E)) x1 in
       let r := respuesta_de (fst generado) in
       exists k x eventos,
         snd (responder E cid q s)
         = estado_tras s (set_memoria (anotar q r (memoria (self s))) (self s))
                       x eventos
         /\ mensajes_enviados eventos
            = map (pair cid) (take k (adecuar_respuesta r))
         /\ consultas_generacion eventos = [contents]
         /\ ficheros_escritos eventos = []
         /\ 1 <= k <= length (adecuar_respuesta r)
         /\ (fst (responder E cid q s) = Ok tt ->
             k = length (adecuar_respuesta r)).
Proof.
  destruct (response_gemini_eq E q (join [LF] (memoria (self s))) (world s))
    as (idioma & x1 & Hdet & Hresp).
  exists idioma, x1. split; [exact Hdet|]. cbv zeta in *.
  set (contents := prompt_completo idioma (join [LF] (memoria (self s))) q) in *.
  set (generado := generate_content E MODELO_RESPUESTA contents
                     (Some (FILESEARCHSTORE E)) x1) in *.
  set (r := respuesta_de (fst generado)) in *.
  set (ev0 := [EGenerateContent MODELO_IDIOMA (PROMPT_IDIOMA q) None;
               EGenerateContent MODELO_RESPUESTA contents
                                (Some (FILESEARCHSTORE E))]) in *.
  set (g := set_memoria (anotar q r (memoria (self s))) (self s)).
  unfold responder.
  rewrite (bind_ok get_state _ s s s eq_refl).
  rewrite (bind_ok _ _ _ _ _ (lift_eq _ _ _ _ Hresp)).
  rewrite (bind_ok _ _ _ _ _ (memoria_append_eq _ _)).
  rewrite (bind_ok _ _ _ _ _ (memoria_append_eq _ _)).
  change {| self := _; world := _ |}
    with (estado_tras s g (snd generado) ev0).
  pose proof (responder_final_discreto cid r) as Hfinal.
  match goal with
  | |- context [bind (for_each ?partes ?f) ?cont ?s3] =>
    destruct (enviar_partes E cid partes s3) as (k & x & Hs & Hk & Hk1 & Hok);
    assert (1 <= k) by
      (apply Hk1; intros Hnil;
       pose proof (adecuar_respuesta_length r) as Hlen;
       rewrite Hnil in Hlen; simpl in Hlen; lia);
    destruct (for_each partes f s3) as [[[]|e] s4] eqn:Hfe
  end; cbn [fst snd] in *; subst s4;
    [rewrite (bind_ok _ _ _ _ _ Hfe)|rewrite (bind_raise _ _ _ _ _ Hfe)];
    rewrite estado_tras_tras in *.
  - specialize (Hok eq_refl). subst k.
    match goal with
    | |- context [snd (?m ?s5)] =>
      destruct (Hfinal s5) as (x5 & ev5 & Hs5 & Hm5 & Hc5 & Hf5)
    end.
    cbv zeta in Hs5. rewrite Hs5, estado_tras_tras.
    exists (length (adecuar_respuesta r)), x5, ((ev0 ++ map (ESendMessage cid) (take (length (adecuar_respuesta r)) (adecuar_respuesta r))) ++ ev5).
    split; [reflexivity|].
    rewrite !mensajes_enviados_app, !consultas_generacion_app,
      !ficheros_escritos_app, mensajes_enviados_map, consultas_generacion_map,
      ficheros_escritos_map, Hm5, Hc5, Hf5.
    simpl. rewrite !app_nil_r. repeat split; auto; try lia.
  - exists k, x, (ev0 ++ map (ESendMessage cid) (take k (adecuar_respuesta r))).
    split; [reflexivity|].
    rewrite !mensajes_enviados_app, !consultas_generacion_app,
      !ficheros_escritos_app, mensajes_enviados_map, consultas_generacion_map,
      ficheros_escritos_map.
    simpl. repeat split; auto; try lia; try discriminate.
Qed.

End Responder.

Section Bloque1.

Context {W : Type} (E : Collaborators W).

Lemma obt_audio_eq fid (w : World W) :
  exists x eventos,
    snd (obt_audio E fid w) = tras w x (EGetFile fid :: eventos)
    /\ silencioso eventos.
Proof.
  unfold obt_audio, bind. rewrite call_eq.
  destruct (getFile E fid (ext w)) as [[ruta|e] x1]; cbn [fst snd].
  - rewrite call_eq, tras_tras. eexists _, [_].
    split; [reflexivity|]. repeat split.
  - exists x1, []. split; [reflexivity|]. repeat split.
Qed.

(** The first block on a message that carries text and no audio. *)
Lemma obtener_pregunta_texto msg q (s : St (W:=W)) :
  audio msg = None -> voice msg = None -> text msg = Some q -> q <> [] ->
  obtener_pregunta E msg s = (Ok (Some q), s).
Proof.
  intros Ha Hv Ht Hq. unfold obtener_pregunta. rewrite Ha, Hv, Ht.
  destruct q; [congruence|reflexivity].
Qed.

(** The first block on a message that carries neither. *)
Lemma obtener_pregunta_nada msg (s : St (W:=W)) :
  audio msg = None -> voice msg = None -> truthy_str (text msg) = false ->
  obtener_pregunta E msg s = (Ok None, s).
Proof.
  intros Ha Hv Ht. unfold obtener_pregunta. rewrite Ha, Hv, Ht. reflexivity.
Qed.

(** The first block on a message that carries audio: the file is fetched
    and, if that succeeds, transcribed. *)
Lemma obtener_pregunta_audio msg (s : St (W:=W)) :
  truthy_obj (audio msg) || truthy_obj (voice msg) = true ->
  match obt_audio E (file_id_de msg) (world s) with
  | (Ok bytes, w1) =>
    let r := post_transcription E (URL_TRANSCRIPCION E) bytes (ext w1) in
    obtener_pregunta E msg s
    = (Ok (Some (transcripcion_de (fst r))),
       {| self := self s;
          world := tras w1 (snd r)
                     [EPostTranscription (URL_TRANSCRIPCION E) bytes] |})
  | (Raise e, w1) =>
    obtener_pregunta E msg s = (Raise e, {| self := self s; world := w1 |})
  end.
Proof.
  intros Haud. unfold obtener_pregunta. rewrite Haud. cbv zeta.
  destruct (obt_audio E (file_id_de msg) (world s)) as [[bytes|e] w1] eqn:Hobt.
  - rewrite (bind_ok _ _ _ _ _ (lift_eq _ _ _ _ Hobt)).
    rewrite (bind_ok _ _ _ _ _
               (lift_eq _ _ _ _ (response_openweb_transcriptor_eq E bytes _))).
    reflexivity.
  - rewrite (bind_raise _ _ _ _ _ (lift_eq _ _ _ _ Hobt)). reflexivity.
Qed.

End Bloque1.

Section Texto.

Context {W : Type} (E : Collaborators W).

Lemma anotar_vacia q r : anotar q r [] = [py "Usuario: " ++ q; py "Asistente: " ++ r].
Proof. reflexivity. Qed.

Lemma adecuar_respuesta_una (r : pystr) :
  length r <= LIMITE_TELEGRAM -> adecuar_respuesta r = [r].
Proof.
  intros Hlen. destruct (Nat.lt_ge_cases (length r) LIMITE_TELEGRAM) as [Hlt|Hge].
  - apply adecuar_respuesta_corto, Hlt.
  - pose proof (adecuar_respuesta_concat r) as Hc.
    pose proof (adecuar_respuesta_length r) as Hl.
    assert (length r = LIMITE_TELEGRAM) as Heq by lia.
    rewrite Heq in Hl.
    rewrite (ceil_div_small LIMITE_TELEGRAM LIMITE_TELEGRAM_pos) in Hl by lia.
    replace (LIMITE_TELEGRAM =? 0) with false in Hl by reflexivity.
    destruct (adecuar_respuesta r) as [|c [|c' l]]; simpl in Hl; try lia.
    simpl in Hc. rewrite app_nil_r in Hc. congruence.
Qed.

(** C7: processing an update that carries the text [q] (and no audio), when
    the generation model returns [r], leaves the history with two more
    lines, ["Usuario: " ++ q] and then ["Asistente: " ++ r], appended to the
    bounded window, and changes no other field; the chunks of [r] are sent
    to the chat in order (all of them when the method returns), and a reply
    of at most 4000 characters is sent as the one message [r]. From an
    empty history the history becomes exactly those two lines. *)
Theorem procesar_update_texto
    (s : St (W:=W)) update msg q idioma w1 r x2 :
  message update = Some msg ->
  audio msg = None -> voice msg = None -> text msg = Some q -> q <> [] ->
  detectar_idioma E q (world (tras_aviso s)) = (Ok idioma, w1) ->
  generate_content E MODELO_RESPUESTA
    (prompt_completo idioma (join [LF] (memoria (self s))) q)
    (Some (FILESEARCHSTORE E)) (ext w1) = (Ok r, x2) ->
  let s' := snd (procesar_update E update s) in
  let cid := chat_id (self s) in
  self s' = set_memoria
              (deque_append MEMORIA_MAXLEN (py "Asistente: " ++ r)
                 (deque_append MEMORIA_MAXLEN (py "Usuario: " ++ q)
                    (memoria (self s))))
              (self s)
  /\ (memoria (self s) = [] ->
      memoria (self s') = [py "Usuario: " ++ q; py "Asistente: " ++ r])
  /\ (exists k,
        1 <= k <= length (adecuar_respuesta r)
        /\ mensajes_enviados (log (world s'))
           = mensajes_enviados (log (world s))
             ++ map (pair cid) (take k (adecuar_respuesta r))
        /\ (fst (procesar_update E update s) = Ok tt ->
            k = length (adecuar_respuesta r)))
  /\ (length r <= LIMITE_TELEGRAM ->
      mensajes_enviados (log (world s'))
      = mensajes_enviados (log (world s)) ++ [(cid, r)]).
Proof.
  intros Hmsg Ha Hv Ht Hq Hdet Hgen s' cid.
  assert (Hrun : procesar_update E update s = responder E cid q (tras_aviso s)).
  { rewrite (procesar_update_con_mensaje E _ _ _ Hmsg).
    rewrite (bind_ok _ _ _ _ _ (obtener_pregunta_texto E _ _ _ Ha Hv Ht Hq)).
    reflexivity. }
  destruct (responder_efecto E cid q (tras_aviso s))
    as (idioma' & x1 & Hdet' & k & x & eventos & Hs & Hm & Hc & Hf & Hk & Hok).
  rewrite Hdet in Hdet'. injection Hdet' as <- ->.
  change (ext (tras _ x1 _)) with x1 in Hgen.
  change (memoria (self (tras_aviso s))) with (memoria (self s)) in *.
  rewrite Hgen in *. cbn [fst respuesta_de] in *.
  subst s'. rewrite Hrun, Hs.
  assert (Hsent :
            mensajes_enviados (log (world (estado_tras (tras_aviso s)
              (set_memoria (anotar q r (memoria (self s))) (self (tras_aviso s)))
              x eventos)))
            = mensajes_enviados (log (world s))
              ++ map (pair cid) (take k (adecuar_respuesta r))).
  { unfold estado_tras, tras, tras_aviso. cbn [world log].
    rewrite !mensajes_enviados_app, Hm. simpl. rewrite app_nil_r. reflexivity. }
  split; [reflexivity|].
  split; [intros Hnil; cbn [self memoria set_memoria]; rewrite Hnil; reflexivity|].
  split.
  - exists k. split; [exact Hk|]. split; [exact Hsent|].
    intros Hres. apply Hok. exact Hres.
  - intros Hlen. rewrite Hsent. rewrite (adecuar_respuesta_una r Hlen) in *.
    simpl in Hk. assert (k = 1) as -> by lia. reflexivity.
Qed.

End Texto.
Section Pregunta.

Context {W : Type} (E : Collaborators W).

Lemma discreto_raise {A} (e : exn) : discreto (W:=W) (raise (A:=A) e).
Proof.
  intros s. exists (ext (world s)), []. simpl.
  rewrite estado_tras_nada. split; [reflexivity|]. repeat split.
Qed.

(** The first block touches neither the instance nor the files, and sends
    no message. *)
Lemma obtener_pregunta_discreto msg : discreto (obtener_pregunta E msg).
Proof.
  unfold obtener_pregunta.
  destruct (truthy_obj (audio msg) || truthy_obj (voice msg)).
  - cbv zeta. apply discreto_bind.
    + intros s. destruct (obt_audio_eq E (file_id_de msg) (world s))
        as (x & ev & Hs & Hsil).
      exists x, (EGetFile (file_id_de msg) :: ev). unfold lift.
      destruct (obt_audio E (file_id_de msg) (world s)) as [r w1].
      simpl in *. subst w1. split; [reflexivity|].
      apply (silencioso_app [_] ev); [repeat split|exact Hsil].
    + intros bytes. apply discreto_bind; [|intros t; apply discreto_ret].
      intros s. rewrite (lift_eq _ _ _ _ (response_openweb_transcriptor_eq E bytes _)).
      eexists _, [_]. split; [reflexivity|]. repeat split.
  - destruct (truthy_str (text msg)); apply discreto_ret.
Qed.

Lemma procesar_update_con_pregunta (s : St (W:=W)) update msg q sq :
  message update = Some msg ->
  obtener_pregunta E msg (tras_aviso s) = (Ok (Some q), sq) ->
  procesar_update E update s = responder E (chat_id (self s)) q sq
  /\ exists x eventos,
       sq = estado_tras s (self s) x
              (EPrint (AVISO_PROCESANDO (chat_id (self s))) :: eventos)
       /\ silencioso eventos.
Proof.
  intros Hmsg Hq. split.
  - rewrite (procesar_update_con_mensaje E _ _ _ Hmsg).
    rewrite (bind_ok _ _ _ _ _ Hq). reflexivity.
  - destruct (obtener_pregunta_discreto msg (tras_aviso s))
      as (x & ev & Hs & Hsil).
    rewrite Hq in Hs. simpl in Hs. exists x, ev. split; [|exact Hsil].
    rewrite Hs. unfold estado_tras, tras, tras_aviso. simpl.
    rewrite <- app_assoc. reflexivity.
Qed.

(** The body of the loop never raises: [except Exception] takes what
    [procesar_update] raises, and the handlers only print and read the
    clock. *)
Lemma procesar_cola_cuerpo_ok update (s : St (W:=W)) :
  fst (procesar_cola_cuerpo E update s) = Ok tt.
Proof.
  unfold procesar_cola_cuerpo, try_finally, try_except.
  destruct (procesar_update E update s) as [[[]|e] s1].
  - unfold bind, lift, now. cbn [world].
    destruct (time_time E (ext (world s1))). reflexivity.
  - unfold bind at 1. cbn [get_state]. unfold lift at 1, print, emit, modify.
    cbn [fst snd world]. unfold bind, lift, now. cbn [world ext].
    destruct (time_time E _). reflexivity.
Qed.

(** What processing an update with query [q] does, given the reply [r] of
    [response_gemini_consulta_documentos]. *)
Lemma procesar_update_efecto (s : St (W:=W)) update msg q sq idioma w1 :
  message update = Some msg ->
  obtener_pregunta E msg (tras_aviso s) = (Ok (Some q), sq) ->
  detectar_idioma E q (world sq) = (Ok idioma, w1) ->
  let contents := prompt_completo idioma (join [LF] (memoria (self s))) q in
  let r := respuesta_de (fst (generate_content E MODELO_RESPUESTA contents
                                (Some (FILESEARCHSTORE E)) (ext w1))) in
  let s' := snd (procesar_update E update s) in
  let cid := chat_id (self s) in
  self s' = set_memoria (anotar q r (memoria (self s))) (self s)
  /\ fs (world s') = fs (world s)
  /\ consultas_generacion (log (world s'))
     = consultas_generacion (log (world s)) ++ [contents]
  /\ (exists k,
        1 <= k <= length (adecuar_respuesta r)
        /\ mensajes_enviados (log (world s'))
           = mensajes_enviados (log (world s))
             ++ map (pair cid) (take k (adecuar_respuesta r))
        /\ (fst (procesar_update E update s) = Ok tt ->
            k = length (adecuar_respuesta r)))
  /\ (length r <= LIMITE_TELEGRAM ->
      mensajes_enviados (log (world s'))
      = mensajes_enviados (log (world s)) ++ [(cid, r)]).
Proof.
  intros Hmsg Hq Hdet contents r s' cid.
  destruct (procesar_update_con_pregunta s update msg q sq Hmsg Hq)
    as (Hrun & x0 & ev0 & Hsq & Hm0 & Hc0 & Hf0).
  subst sq.
  destruct (responder_efecto E cid q
              (estado_tras s (self s) x0
                 (EPrint (AVISO_PROCESANDO (chat_id (self s))) :: ev0)))
    as (idioma' & x1 & Hdet' & k & x & eventos & Hs & Hm & Hc & Hf & Hk & Hok).
  rewrite Hdet in Hdet'. injection Hdet' as <- ->.
  change (ext (tras _ x1 _)) with x1 in *.
  change (self (estado_tras s (self s) x0 _)) with (self s) in *.
  fold contents in Hs, Hm, Hc, Hok, Hk. fold r in Hs, Hm, Hok, Hk.
  subst s' cid. rewrite Hrun. rewrite Hs. rewrite estado_tras_tras.
  unfold estado_tras, tras. cbn [self world log fs].
  assert (Hsent :
            mensajes_enviados
              (log (world s)
               ++ (EPrint (AVISO_PROCESANDO (chat_id (self s))) :: ev0)
               ++ eventos)
            = mensajes_enviados (log (world s))
              ++ map (pair (chat_id (self s))) (take k (adecuar_respuesta r))).
  { rewrite !mensajes_enviados_app, Hm. simpl. rewrite Hm0. reflexivity. }
  split; [reflexivity|]. split; [reflexivity|].
  split.
  { rewrite !consultas_generacion_app, Hc. simpl. rewrite Hc0. reflexivity. }
  split.
  - exists k. split; [exact Hk|]. split; [exact Hsent|].
    intros Hres. apply Hok. exact Hres.
  - intros Hlen. rewrite Hsent. rewrite (adecuar_respuesta_una r Hlen) in *.
    simpl in Hk. assert (k = 1) as -> by lia. reflexivity.
Qed.

End Pregunta.
Section ErrorYAudio.

Context {W : Type} (E : Collaborators W).

(** C6 (amended): when the call to the generation model raises [e] while an
    update with query [q] is processed, [response_gemini_consulta_documentos]
    returns the apology followed by the text of [e] instead of raising, and
    the body of the loop returns; the history receives ["Usuario: " ++ q]
    and then ["Asistente: "] followed by that error text; the error text is
    sent to the chat in chunks of at most 4000 characters, in order (all of
    them when the method returns), which is exactly one message, the whole
    error text, when it has at most 4000 characters. *)
Theorem procesar_update_error_generacion
    (s : St (W:=W)) update msg q sq idioma w1 e x2 :
  message update = Some msg ->
  obtener_pregunta E msg (tras_aviso s) = (Ok (Some q), sq) ->
  detectar_idioma E q (world sq) = (Ok idioma, w1) ->
  generate_content E MODELO_RESPUESTA
    (prompt_completo idioma (join [LF] (memoria (self s))) q)
    (Some (FILESEARCHSTORE E)) (ext w1) = (Raise e, x2) ->
  let disculpa := MENSAJE_ERROR ++ exn_str e in
  let s' := snd (procesar_update E update s) in
  let cid := chat_id (self s) in
  fst (response_gemini_consulta_documentos E q
         (join [LF] (memoria (self s))) (world sq)) = Ok disculpa
  /\ fst (procesar_cola_cuerpo E update s) = Ok tt
  /\ self s' = set_memoria
                 (deque_append MEMORIA_MAXLEN (py "Asistente: " ++ disculpa)
                    (deque_append MEMORIA_MAXLEN (py "Usuario: " ++ q)
                       (memoria (self s))))
                 (self s)
  /\ (exists k,
        1 <= k <= length (adecuar_respuesta disculpa)
        /\ mensajes_enviados (log (world s'))
           = mensajes_enviados (log (world s))
             ++ map (pair cid) (take k (adecuar_respuesta disculpa))
        /\ (fst (procesar_update E update s) = Ok tt ->
            k = length (adecuar_respuesta disculpa)))
  /\ (length disculpa <= LIMITE_TELEGRAM ->
      mensajes_enviados (log (world s'))
      = mensajes_enviados (log (world s)) ++ [(cid, disculpa)]).
Proof.
  intros Hmsg Hq Hdet Hgen disculpa s' cid.
  pose proof (procesar_update_efecto E s update msg q sq idioma w1 Hmsg Hq Hdet)
    as Hef.
  cbv zeta in Hef. rewrite Hgen in Hef. cbn [fst respuesta_de] in Hef.
  change (MENSAJE_ERROR ++ exn_str e) with disculpa in Hef.
  destruct Hef as (Hself & _ & _ & Hk & Hone).
  split.
  { destruct (response_gemini_eq E q (join [LF] (memoria (self s))) (world sq))
      as (idioma' & x1 & Hdet' & Hresp).
    rewrite Hdet in Hdet'. injection Hdet' as <- ->.
    cbv zeta in Hresp. change (ext (tras _ x1 _)) with x1 in Hgen.
    rewrite Hresp, Hgen. reflexivity. }
  split; [apply procesar_cola_cuerpo_ok|].
  split; [exact Hself|]. split; [exact Hk|exact Hone].
Qed.

Lemma lista_no_crece {A} (l : list A) (x : A) : l <> l ++ [x].
Proof.
  intros H. apply (f_equal length) in H. rewrite length_app in H.
  simpl in H. lia.
Qed.

(** An update whose query was obtained is not skipped: the generation model
    is called. *)
Lemma procesar_update_no_omite (s : St (W:=W)) update msg q sq :
  message update = Some msg ->
  obtener_pregunta E msg (tras_aviso s) = (Ok (Some q), sq) ->
  snd (procesar_update E update s) <> tras_aviso s.
Proof.
  intros Hmsg Hq Heq.
  destruct (detectar_idioma_eq E q (world sq)) as (idioma & x1 & Hdet).
  destruct (procesar_update_efecto E s update msg q sq idioma _ Hmsg Hq Hdet)
    as (_ & _ & Hc & _).
  rewrite Heq in Hc. unfold tras_aviso in Hc. cbn [world log] in Hc.
  rewrite consultas_generacion_app in Hc. simpl in Hc. rewrite app_nil_r in Hc.
  exact (lista_no_crece _ _ Hc).
Qed.

(** C10: for the message [msg] of an update, (a) if it carries audio, the
    file is fetched, and the transcription is the empty string (the service
    returned [""] or the request raised), then the update is not skipped:
    the generation model is called with the prompt built from the empty
    query, the history receives ["Usuario: "] and then the line of the
    assistant with the reply, and the chunks of the reply are sent (one
    message when the reply has at most 4000 characters); (b) a request to the
    transcription service that raises gives the transcription [""]; (c) the
    method returns having done nothing but its first print exactly when the
    message carries neither audio, nor voice, nor a non-empty text. *)
Theorem procesar_update_audio_vacio (s : St (W:=W)) update msg :
  message update = Some msg ->
  let s' := snd (procesar_update E update s) in
  let cid := chat_id (self s) in
  (forall bytes w1 idioma w2,
      truthy_obj (audio msg) || truthy_obj (voice msg) = true ->
      obt_audio E (file_id_de msg) (world (tras_aviso s)) = (Ok bytes, w1) ->
      let transcrito :=
        post_transcription E (URL_TRANSCRIPCION E) bytes (ext w1) in
      transcripcion_de (fst transcrito) = [] ->
      detectar_idioma E []
        (tras w1 (snd transcrito)
              [EPostTranscription (URL_TRANSCRIPCION E) bytes])
      = (Ok idioma, w2) ->
      let contents := prompt_completo idioma (join [LF] (memoria (self s))) [] in
      let r := respuesta_de
                 (fst (generate_content E MODELO_RESPUESTA contents
                         (Some (FILESEARCHSTORE E)) (ext w2))) in
      consultas_generacion (log (world s'))
      = consultas_generacion (log (world s)) ++ [contents]
      /\ self s' = set_memoria
                     (deque_append MEMORIA_MAXLEN (py "Asistente: " ++ r)
                        (deque_append MEMORIA_MAXLEN (py "Usuario: ")
                           (memoria (self s))))
                     (self s)
      /\ (exists k,
            1 <= k <= length (adecuar_respuesta r)
            /\ mensajes_enviados (log (world s'))
               = mensajes_enviados (log (world s))
                 ++ map (pair cid) (take k (adecuar_respuesta r))
            /\ (fst (procesar_update E update s) = Ok tt ->
                k = length (adecuar_respuesta r)))
      /\ (length r <= LIMITE_TELEGRAM ->
          mensajes_enviados (log (world s'))
          = mensajes_enviados (log (world s)) ++ [(cid, r)]))
  /\ (forall bytes (w : World W) e x,
        post_transcription E (URL_TRANSCRIPCION E) bytes (ext w) = (Raise e, x) ->
        fst (response_openweb_transcriptor E bytes w) = Ok [])
  /\ (procesar_update E update s = (Ok tt, tras_aviso s)
      <-> audio msg = None /\ voice msg = None
          /\ truthy_str (text msg) = false).
Proof.
  intros Hmsg s' cid. split; [|split].
  - intros bytes w1 idioma w2 Haud Hobt transcrito Htr Hdet contents r.
    pose proof (obtener_pregunta_audio E msg (tras_aviso s) Haud) as Hq.
    rewrite Hobt in Hq. cbv zeta in Hq. fold transcrito in Hq.
    rewrite Htr in Hq.
    destruct (procesar_update_efecto E s update msg [] _ idioma w2
                Hmsg Hq Hdet) as (Hself & _ & Hc & Hk & Hone).
    split; [exact Hc|]. split; [|split; [exact Hk|exact Hone]].
    subst s'. rewrite Hself. unfold anotar. rewrite app_nil_r. reflexivity.
  - intros bytes w e x Hpost.
    rewrite response_openweb_transcriptor_eq. cbv zeta. rewrite Hpost.
    reflexivity.
  - split.
    + intros Hrun.
      destruct (truthy_obj (audio msg) || truthy_obj (voice msg)) eqn:Haud.
      * exfalso.
        pose proof (obtener_pregunta_audio E msg (tras_aviso s) Haud) as Hq.
        destruct (obt_audio E (file_id_de msg) (world (tras_aviso s)))
          as [[bytes|e] w1].
        -- apply (procesar_update_no_omite s update msg _ _ Hmsg Hq).
           rewrite Hrun. reflexivity.
        -- rewrite (procesar_update_con_mensaje E _ _ _ Hmsg) in Hrun.
           rewrite (bind_raise _ _ _ _ _ Hq) in Hrun.
           discriminate Hrun.
      * destruct (audio msg) eqn:Ha, (voice msg) eqn:Hv; try discriminate Haud.
        split; [reflexivity|]. split; [reflexivity|].
        destruct (text msg) as [[|c q]|] eqn:Ht; try reflexivity.
        exfalso.
        apply (procesar_update_no_omite s update msg (c :: q) (tras_aviso s) Hmsg).
        -- apply obtener_pregunta_texto;
             [exact Ha|exact Hv|exact Ht|discriminate].
        -- rewrite Hrun. reflexivity.
    + intros (Ha & Hv & Ht).
      rewrite (procesar_update_con_mensaje E _ _ _ Hmsg).
      rewrite (bind_ok _ _ _ _ _ (obtener_pregunta_nada E _ _ Ha Hv Ht)).
      reflexivity.
Qed.

End ErrorYAudio.

(** ** The scenarios of the specification *)

Import Escenario.

(** C7, on the scenario of the specification: conversation 42 sends "hola"
    and the model generates "¡Hola!". *)
Lemma procesar_update_hola :
  memoria (self (snd (procesar_update colaboradores_hola
                        (mensaje_texto 1 42 "hola") estado_42)))
  = [py "Usuario: hola"; py "Asistente: ¡Hola!"]
  /\ mensajes_enviados
       (log (world (snd (procesar_update colaboradores_hola
                           (mensaje_texto 1 42 "hola") estado_42))))
     = [(42%Z, py "¡Hola!")].
Proof.
  destruct (procesar_update_texto colaboradores_hola estado_42
              (mensaje_texto 1 42 "hola") _ (py "hola") (py "es") _
              (py "¡Hola!") 100%Z eq_refl eq_refl eq_refl eq_refl
              ltac:(discriminate) eq_refl eq_refl)
    as (_ & Hmem & _ & Hsent).
  split.
  - exact (Hmem eq_refl).
  - apply Hsent. apply Nat.leb_le. vm_compute. reflexivity.
Defined.

(** C6 (amended), on a failure with a short message. *)
Lemma procesar_update_error_corto :
  fst (procesar_cola_cuerpo colaboradores_error
         (mensaje_texto 1 42 "hola") estado_42) = Ok tt
  /\ memoria (self (snd (procesar_update colaboradores_error
                           (mensaje_texto 1 42 "hola") estado_42)))
     = [py "Usuario: hola";
        py "Asistente: Lo siento, hubo un error procesando tu solicitud: 503 UNAVAILABLE"]
  /\ mensajes_enviados
       (log (world (snd (procesar_update colaboradores_error
                           (mensaje_texto 1 42 "hola") estado_42))))
     = [(42%Z,
         py "Lo siento, hubo un error procesando tu solicitud: 503 UNAVAILABLE")].
Proof.
  destruct (procesar_update_error_generacion colaboradores_error estado_42
              (mensaje_texto 1 42 "hola") _ (py "hola") _ (py "es") _
              (Exn (py "503 UNAVAILABLE")) 100%Z
              eq_refl eq_refl eq_refl eq_refl)
    as (_ & Hok & Hself & _ & Hsent).
  split; [exact Hok|]. split.
  - rewrite Hself. reflexivity.
  - apply Hsent. apply Nat.leb_le. vm_compute. reflexivity.
Defined.

(** C6, as stated, fails when the text of the exception is long: with an
    exception of 3951 characters the error text has 4001 and the chat
    receives two messages, of 4000 characters and of 1. *)
Lemma error_largo_dos_mensajes :
  fst (response_gemini_consulta_documentos colaboradores_error_largo
         (py "hola") [] (world (tras_aviso estado_42)))
  = Ok (MENSAJE_ERROR ++ exn_str excepcion_larga)
  /\ fst (procesar_update colaboradores_error_largo
            (mensaje_texto 1 42 "hola") estado_42) = Ok tt
  /\ map (fun m => length m.2)
       (mensajes_enviados
          (log (world (snd (procesar_update colaboradores_error_largo
                              (mensaje_texto 1 42 "hola") estado_42)))))
     = [4000; 1].
Proof. vm_compute. auto. Qed.

(** C10, on a voice message when the transcription service is down, and on
    a message that carries neither text nor audio. *)
Lemma procesar_update_voz_sin_transcripcion :
  memoria (self (snd (procesar_update colaboradores_sin_transcripcion
                        (mensaje_voz 1 42) estado_42)))
  = [py "Usuario: "; py "Asistente: No te he entendido."]
  /\ mensajes_enviados
       (log (world (snd (procesar_update colaboradores_sin_transcripcion
                           (mensaje_voz 1 42) estado_42))))
     = [(42%Z, py "No te he entendido.")]
  /\ procesar_update colaboradores_sin_transcripcion
       (mensaje_otro 2 42) estado_42
     = (Ok tt, tras_aviso estado_42).
Proof.
  destruct (procesar_update_audio_vacio colaboradores_sin_transcripcion
              estado_42 (mensaje_voz 1 42) _ eq_refl) as (Ha & _ & _).
  destruct (Ha _ _ (py "es") _ eq_refl eq_refl eq_refl eq_refl)
    as (_ & Hself & _ & Hsent).
  destruct (procesar_update_audio_vacio colaboradores_sin_transcripcion
              estado_42 (mensaje_otro 2 42) _ eq_refl) as (_ & _ & Hc).
  split; [rewrite Hself; reflexivity|].
  split.
  - apply Hsent. apply Nat.leb_le. vm_compute. reflexivity.
  - apply Hc. repeat split.
Defined.

(** ** [detener] and the history file *)

Section SinEscrituras.

Context {W : Type} (E : Collaborators W).

Lemma disco_intacto_call {A} disco escritos (e : Event)
    (oracle : W -> result A * W) :
  ficheros_escritos [e] = [] ->
  preserva (disco_intacto disco escritos) (call e oracle).
Proof.
  intros He w (Hfs & Hlog). rewrite call_eq. unfold disco_intacto, tras.
  cbn [snd fs log]. rewrite ficheros_escritos_app, He, app_nil_r. auto.
Qed.

Lemma disco_intacto_emit disco escritos (e : Event) :
  ficheros_escritos [e] = [] ->
  preserva (disco_intacto disco escritos) (emit (W:=W) e).
Proof.
  intros He w (Hfs & Hlog). unfold disco_intacto, emit, modify.
  cbn [snd fs log]. rewrite ficheros_escritos_app, He, app_nil_r. auto.
Qed.

Lemma disco_intacto_now disco escritos :
  preserva (disco_intacto disco escritos) (now E).
Proof.
  intros w H. unfold now. destruct (time_time E (ext w)). exact H.
Qed.

End SinEscrituras.

(** Decomposing a goal about a method down to the calls it makes. *)
Ltac sin_escrituras :=
  preserva_estructura;
  try lazymatch goal with
      | |- preserva _ (lift _) =>
        apply preserva_lift_world; preserva_estructura;
        try lazymatch goal with
            | |- preserva _ (call _ _) =>
              apply disco_intacto_call; reflexivity
            | |- preserva _ (emit _) =>
              apply disco_intacto_emit; reflexivity
            | |- preserva _ (now _) => apply disco_intacto_now
            end
      | |- preserva _ (on_self _) => apply preserva_on_self_world
      end.

Section Detener.

Context {W : Type} (E : Collaborators W).

Local Abbreviation intacto disco escritos :=
  (fun s : St (W:=W) => disco_intacto disco escritos (world s)).

Lemma procesar_update_sin_escrituras disco escritos update :
  preserva (intacto disco escritos) (procesar_update E update).
Proof.
  unfold procesar_update, message_of, memoria_append, obt_audio,
    response_openweb_transcriptor, response_gemini_consulta_documentos,
    response_openweb_lectura, detectar_idioma, client_generate_content, print.
  sin_escrituras.
Qed.

Lemma procesar_cola_get_sin_escrituras disco escritos :
  preserva (intacto disco escritos) (procesar_cola_get (W:=W)).
Proof. unfold procesar_cola_get. sin_escrituras. Qed.

Lemma procesar_cola_cuerpo_sin_escrituras disco escritos update :
  preserva (intacto disco escritos) (procesar_cola_cuerpo E update).
Proof.
  unfold procesar_cola_cuerpo, print. sin_escrituras.
  apply procesar_update_sin_escrituras.
Qed.

Lemma procesar_cola_sin_escrituras disco escritos fuel :
  preserva (intacto disco escritos) (procesar_cola E fuel).
Proof.
  induction fuel as [|fuel IH]; simpl; sin_escrituras;
    first [apply procesar_cola_get_sin_escrituras
          | apply procesar_cola_cuerpo_sin_escrituras
          | exact IH].
Qed.

Lemma agregar_mensaje_sin_escrituras disco escritos update :
  preserva (intacto disco escritos) (agregar_mensaje E update).
Proof. unfold agregar_mensaje. sin_escrituras. Qed.

Lemma fs_lookup_store files ruta contents :
  fs_lookup (fs_store files ruta contents) ruta = Some contents.
Proof.
  induction files as [|[p c] files IH]; simpl.
  - destruct (decide (ruta = ruta)); [reflexivity|congruence].
  - destruct (decide (p = ruta)) as [->|Hne]; simpl.
    + destruct (decide (ruta = ruta)); [reflexivity|congruence].
    + destruct (decide (p = ruta)); [congruence|exact IH].
Qed.

Lemma fs_lookup_store_otro files ruta ruta' contents :
  ruta <> ruta' ->
  fs_lookup (fs_store files ruta contents) ruta' = fs_lookup files ruta'.
Proof.
  intros Hne. induction files as [|[p c] files IH]; simpl.
  - destruct (decide (ruta = ruta')); [congruence|reflexivity].
  - destruct (decide (p = ruta)) as [->|Hp]; simpl.
    + destruct (decide (ruta = ruta')); [congruence|reflexivity].
    + destruct (decide (p = ruta')); [reflexivity|exact IH].
Qed.

(** [guardar_historial] always returns; it leaves the instance as it is and
    writes the lines of the history, joined by line feeds, to the file of
    the chat. *)
Lemma guardar_historial_eq (s : St (W:=W)) :
  exists eventos dirs,
    guardar_historial s
    = (Ok tt,
       {| self := self s;
          world :=
            {| ext := ext (world s);
               fs := {| fs_dirs := dirs;
                        fs_files :=
                          fs_store (fs_files (fs (world s)))
                                   (ruta_historial (chat_id (self s)))
                                   (join [LF] (memoria (self s))) |};
               log := log (world s) ++ eventos |} |})
    /\ ficheros_escritos eventos
       = [(ruta_historial (chat_id (self s)), join [LF] (memoria (self s)))].
Proof.
  unfold guardar_historial.
  rewrite (bind_ok get_state _ s s s eq_refl).
  destruct (path_exists (fs (world s)) (py "chats")).
  - exists [EWriteFile (ruta_historial (chat_id (self s)))
                       (join [LF] (memoria (self s)))].
    eexists. split; reflexivity.
  - exists [EMakedirs (py "chats");
            EWriteFile (ruta_historial (chat_id (self s)))
                       (join [LF] (memoria (self s)))].
    eexists. split; [|reflexivity].
    unfold bind, lift, emit, on_fs, modify, ret, write_file, makedirs.
    cbn [fst snd world self fs ext log fs_dirs fs_files].
    rewrite <- app_assoc. reflexivity.
Qed.

(** The loop of the worker writes no file. *)
Lemma procesar_cola_no_guarda fuel (s0 : St (W:=W)) :
  fs (world (snd (procesar_cola E fuel s0))) = fs (world s0)
  /\ ficheros_escritos (log (world (snd (procesar_cola E fuel s0))))
     = ficheros_escritos (log (world s0)).
Proof.
  apply (procesar_cola_sin_escrituras (fs (world s0))
           (ficheros_escritos (log (world s0))) fuel s0).
  split; reflexivity.
Qed.

Lemma paso_hilo_no_guarda (t : Trabajador (W:=W)) :
  fs (world (estado (paso_hilo E t))) = fs (world (estado t))
  /\ ficheros_escritos (log (world (estado (paso_hilo E t))))
     = ficheros_escritos (log (world (estado t))).
Proof.
  pose proof (procesar_cola_get_sin_escrituras (fs (world (estado t)))
                (ficheros_escritos (log (world (estado t)))) (estado t)
                (conj eq_refl eq_refl)) as Hget.
  unfold paso_hilo. destruct (pc t) as [|update|]; [| |split; reflexivity].
  - destruct (procesar_cola_get (estado t)) as [[[]|e] s1]; apply Hget.
  - pose proof (procesar_cola_cuerpo_sin_escrituras
                  (fs (world (estado t)))
                  (ficheros_escritos (log (world (estado t)))) update
                  (estado t) (conj eq_refl eq_refl)) as Hc.
    destruct (procesar_cola_cuerpo E update (estado t)) as [[[]|e] s1];
      apply Hc.
Qed.

(** What [detener] does: it returns, with the flag lowered and the history
    written to the file of the chat. *)
Lemma detener_efecto (s : St (W:=W)) :
  exists w,
    detener s
    = (Ok tt, {| self := set_activo false (self s); world := w |})
    /\ ext w = ext (world s)
    /\ fs_lookup (fs_files (fs w)) (ruta_historial (chat_id (self s)))
       = Some (join [LF] (memoria (self s)))
    /\ ficheros_escritos (log w)
       = ficheros_escritos (log (world s))
         ++ [(ruta_historial (chat_id (self s)),
              join [LF] (memoria (self s)))].
Proof.
  destruct (guardar_historial_eq
              {| self := set_activo false (self s); world := world s |})
    as (eventos & dirs & Hg & Hesc).
  unfold detener.
  rewrite (bind_ok (on_self (set_activo false)) _ s tt
             {| self := set_activo false (self s); world := world s |} eq_refl).
  rewrite (bind_ok _ _ _ _ _ Hg).
  rewrite (bind_ok get_state _ _ _ _ eq_refl).
  unfold lift, print, emit, modify. cbn [world self fst snd].
  eexists. split; [reflexivity|]. cbn [ext fs fs_files log].
  split; [reflexivity|]. split.
  - apply fs_lookup_store.
  - rewrite !ficheros_escritos_app, Hesc. simpl. rewrite app_nil_r.
    reflexivity.
Qed.

(** C9: [detener] returns; when it has returned the flag [activo] is false
    and no other field has changed, the file of the chat holds the history
    (its lines joined by line feeds), and exactly one write, that one, has
    been added to the trace. The assignment to the flag comes first: the
    rest of the method, the save and the print, runs from the state in which
    only the flag has changed. The thread of the worker never writes a
    file, whatever it does and for however long: the save is made by
    [detener] alone. *)
Theorem detener_guarda_historial (s : St (W:=W)) :
  let ruta := ruta_historial (chat_id (self s)) in
  let contenido := join [LF] (memoria (self s)) in
  let parado := {| self := set_activo false (self s); world := world s |} in
  fst (detener s) = Ok tt
  /\ self (snd (detener s)) = set_activo false (self s)
  /\ activo (self (snd (detener s))) = false
  /\ fs_lookup (fs_files (fs (world (snd (detener s))))) ruta = Some contenido
  /\ ficheros_escritos (log (world (snd (detener s))))
     = ficheros_escritos (log (world s)) ++ [(ruta, contenido)]
  /\ on_self (set_activo false) s = (Ok tt, parado)
  /\ detener s
     = (run! guardar_historial in
        let! s1 := get_state in
        lift (print (py "[" ++ str_of_Z (chat_id (self s1))
                     ++ py "] Hibernando por inactividad. Datos guardados.")))
         parado
  /\ (forall fuel (s0 : St (W:=W)),
        fs (world (snd (procesar_cola E fuel s0))) = fs (world s0)
        /\ ficheros_escritos (log (world (snd (procesar_cola E fuel s0))))
           = ficheros_escritos (log (world s0)))
  /\ (forall (t : Trabajador (W:=W)),
        fs (world (estado (paso_hilo E t))) = fs (world (estado t))
        /\ ficheros_escritos (log (world (estado (paso_hilo E t))))
           = ficheros_escritos (log (world (estado t)))).
Proof.
  intros ruta contenido parado.
  assert (Hrun : detener s
                 = (run! guardar_historial in
                    let! s1 := get_state in
                    lift (print (py "[" ++ str_of_Z (chat_id (self s1))
                                 ++ py "] Hibernando por inactividad. Datos guardados.")))
                     parado) by reflexivity.
  destruct (detener_efecto s) as (w & Hd & _ & Hfile & Hlog).
  rewrite Hd. cbn [fst snd self world].
  split; [reflexivity|]. split; [reflexivity|]. split; [reflexivity|].
  split; [exact Hfile|]. split; [exact Hlog|]. split; [reflexivity|].
  split; [rewrite <- Hd; exact Hrun|].
  split; [exact procesar_cola_no_guarda|exact paso_hilo_no_guarda].
Qed.

End Detener.

(** ** Saving and loading the history *)

(** C8 fails on the code. A reply of two lines is saved as two lines of the
    file and comes back as two entries of the history: the history
    ["Usuario: hola"; "Asistente: Uno.\nDos."] is recovered as
    ["Usuario: hola"; "Asistente: Uno."; "Dos."]. A line that ends in
    white space comes back without it: ["Usuario: "], the line of a voice
    message that could not be transcribed, is recovered as ["Usuario:"]. *)
Lemma historial_multilinea_no_se_recupera :
  memoria (self Escenario.estado_dos_lineas)
  = [py "Usuario: hola"; py "Asistente: Uno." ++ [LF] ++ py "Dos."]
  /\ Escenario.historial_recuperado Escenario.estado_dos_lineas
     = Some [py "Usuario: hola"; py "Asistente: Uno."; py "Dos."]
  /\ memoria (self Escenario.estado_voz_vacia)
     = [py "Usuario: "; py "Asistente: No te he entendido."]
  /\ Escenario.historial_recuperado Escenario.estado_voz_vacia
     = Some [py "Usuario:"; py "Asistente: No te he entendido."].
Proof. vm_compute. auto. Qed.

Section IdaYVuelta.

Context {W : Type} (E : Collaborators W).

Lemma universal_newlines_sin_cr (s : pystr) :
  forallb (fun c => negb (c =? CR)%N) s = true -> universal_newlines s = s.
Proof.
  induction s as [|c s IH]; [reflexivity|].
  cbn [forallb universal_newlines]. intros (Hc & Hs)%andb_true_iff.
  apply negb_true_iff in Hc. rewrite Hc, (IH Hs). reflexivity.
Qed.

Lemma lines_from_linea cur (l resto : pystr) :
  forallb (fun c => negb (c =? LF)%N) l = true ->
  lines_from cur (l ++ LF :: resto) = (cur ++ l ++ [LF]) :: lines_from [] resto.
Proof.
  revert cur. induction l as [|c l IH]; intros cur Hl.
  - reflexivity.
  - cbn [forallb] in Hl. apply andb_true_iff in Hl as (Hc & Hl).
    apply negb_true_iff in Hc. cbn [app lines_from]. rewrite Hc.
    rewrite (IH (cur ++ [c]) Hl), <- !app_assoc. reflexivity.
Qed.

Lemma lines_from_ultima cur (l : pystr) :
  forallb (fun c => negb (c =? LF)%N) l = true -> cur ++ l <> [] ->
  lines_from cur l = [cur ++ l].
Proof.
  revert cur. induction l as [|c l IH]; intros cur Hl Hne.
  - rewrite app_nil_r in *. destruct cur; [congruence|reflexivity].
  - cbn [forallb] in Hl. apply andb_true_iff in Hl as (Hc & Hl).
    apply negb_true_iff in Hc. cbn [lines_from]. rewrite Hc.
    rewrite (IH (cur ++ [c]) Hl), <- app_assoc; [reflexivity|].
    destruct cur; discriminate.
Qed.

Lemma linea_limpia_partes (l : pystr) :
  linea_limpia l = true ->
  l <> [] /\ lstrip l = l /\ lstrip (rev l) = rev l
  /\ forallb (fun c => negb (c =? LF)%N) l = true
  /\ forallb (fun c => negb (c =? CR)%N) l = true.
Proof.
  unfold linea_limpia. intros ((H1 & H2)%andb_true_iff & H3)%andb_true_iff.
  split; [destruct l; [discriminate H1|discriminate]|].
  split; [destruct l as [|c l]; [reflexivity|];
          cbn [lstrip]; apply negb_true_iff in H1; rewrite H1; reflexivity|].
  split; [destruct (rev l) as [|c l']; [reflexivity|];
          cbn [lstrip]; apply negb_true_iff in H2; rewrite H2; reflexivity|].
  split.
  - clear H1 H2. induction l as [|c l IH]; [reflexivity|].
    cbn [forallb] in *. apply andb_true_iff in H3 as (Hc & Hl).
    apply andb_true_iff in Hc as (Hc & _). rewrite Hc, (IH Hl). reflexivity.
  - clear H1 H2. induction l as [|c l IH]; [reflexivity|].
    cbn [forallb] in *. apply andb_true_iff in H3 as (Hc & Hl).
    apply andb_true_iff in Hc as (_ & Hc). rewrite Hc, (IH Hl). reflexivity.
Qed.

Lemma strip_limpia (l : pystr) : linea_limpia l = true -> strip l = l.
Proof.
  intros (_ & Hl & Hr & _)%linea_limpia_partes.
  unfold strip, rstrip. rewrite Hl, Hr. apply rev_involutive.
Qed.

Lemma strip_limpia_lf (l : pystr) :
  linea_limpia l = true -> strip (l ++ [LF]) = l.
Proof.
  intros (Hne & Hl & Hr & _)%linea_limpia_partes.
  assert (Hl' : lstrip (l ++ [LF]) = l ++ [LF]).
  { destruct l as [|c l]; [congruence|]. cbn [lstrip app] in *.
    destruct (isspace c); [|reflexivity].
    exfalso. apply (f_equal length) in Hl. cbn [length] in Hl.
    assert (Hlen : forall s, length (lstrip s) <= length s).
    { clear. induction s as [|d s IH]; [reflexivity|]. cbn [lstrip].
      destruct (isspace d); cbn [length]; lia. }
    specialize (Hlen l). lia. }
  unfold strip, rstrip. rewrite Hl', rev_app_distr. cbn [rev app lstrip].
  replace (isspace LF) with true by reflexivity.
  rewrite Hr. apply rev_involutive.
Qed.

(** The lines of a saved history, once stripped, are its lines. *)
Lemma file_lines_join (mem : list pystr) :
  forallb linea_limpia mem = true ->
  map strip (file_lines (join [LF] mem)) = mem.
Proof.
  intros Hmem. unfold file_lines.
  assert (Hcr : forallb (fun c => negb (c =? CR)%N) (join [LF] mem) = true).
  { induction mem as [|x [|y rest] IH]; [reflexivity| |].
    - cbn [forallb] in Hmem. apply andb_true_iff in Hmem as (Hx & _).
      apply linea_limpia_partes in Hx as (_ & _ & _ & _ & Hx). exact Hx.
    - cbn [forallb] in Hmem. apply andb_true_iff in Hmem as (Hx & Hrest).
      apply linea_limpia_partes in Hx as (_ & _ & _ & _ & Hx).
      change (join [LF] (x :: y :: rest))
        with (x ++ [LF] ++ join [LF] (y :: rest)).
      rewrite !forallb_app. apply andb_true_iff. split; [exact Hx|].
      apply andb_true_iff. split; [reflexivity|exact (IH Hrest)]. }
  rewrite (universal_newlines_sin_cr _ Hcr). clear Hcr.
  induction mem as [|x [|y rest] IH]; [reflexivity| |].
  - cbn [forallb] in Hmem. apply andb_true_iff in Hmem as (Hx & _).
    pose proof (linea_limpia_partes x Hx) as (Hne & _ & _ & Hlf & _).
    cbn [join]. rewrite (lines_from_ultima [] x Hlf) by exact Hne.
    cbn [map app]. rewrite (strip_limpia x Hx). reflexivity.
  - cbn [forallb] in Hmem. apply andb_true_iff in Hmem as (Hx & Hrest).
    pose proof (linea_limpia_partes x Hx) as (Hne & _ & _ & Hlf & _).
    change (join [LF] (x :: y :: rest))
      with (x ++ LF :: join [LF] (y :: rest)).
    rewrite (lines_from_linea [] x _ Hlf). cbn [map app].
    rewrite (strip_limpia_lf x Hx), (IH Hrest). reflexivity.
Qed.

(** Loading lines into a window that has room for them appends them. *)
Lemma cargar_lineas (lineas : list pystr) :
  forall s : St (W:=W),
    length (memoria (self s)) + length lineas <= MEMORIA_MAXLEN ->
    for_each lineas (fun linea => memoria_append (strip linea)) s
    = (Ok tt,
       {| self := set_memoria (memoria (self s) ++ map strip lineas) (self s);
          world := world s |}).
Proof.
  induction lineas as [|l lineas IH]; intros s Hlen.
  - cbn [for_each map]. rewrite app_nil_r. destruct s as [[] w]. reflexivity.
  - cbn [for_each]. rewrite (bind_ok _ _ _ _ _ (memoria_append_eq _ _)).
    rewrite IH.
    + cbn [self world memoria set_memoria].
      rewrite deque_append_hueco by (cbn [length] in Hlen; lia).
      cbn [map]. rewrite <- app_assoc. reflexivity.
    + cbn [self memoria set_memoria].
      rewrite deque_append_hueco by (cbn [length] in Hlen; lia).
      rewrite length_app. cbn [length] in *. lia.
Qed.

(** X1: a history of clean lines is recovered: the instance created for
    the chat after [detener] has the history that was saved. *)
Theorem historial_limpio_se_recupera (g : GestorChat) (w : World W) :
  forallb linea_limpia (memoria g) = true ->
  length (memoria g) <= MEMORIA_MAXLEN ->
  exists g' w',
    GestorChat_init E (chat_id g) (world (snd (detener {| self := g; world := w |})))
    = (Ok g', w')
    /\ memoria g' = memoria g
    /\ chat_id g' = chat_id g
    /\ activo g' = true.
Proof.
  intros Hlimpia Hlen.
  destruct (detener_efecto {| self := g; world := w |})
    as (w1 & Hdet & _ & Hfile & _).
  rewrite Hdet. cbn [snd world self] in *.
  unfold GestorChat_init, now.
  destruct (time_time E (ext w1)) as [t x].
  unfold cargar_historial.
  match goal with
  | |- context [bind get_state ?k ?s0] =>
    rewrite (bind_ok get_state k s0 s0 s0 eq_refl)
  end.
  cbn [self world chat_id fs].
  assert (Hex : path_exists (fs w1) (ruta_historial (chat_id g)) = true).
  { unfold path_exists. rewrite Hfile. apply orb_true_r. }
  rewrite Hex, Hfile.
  rewrite cargar_lineas.
  - cbn [self world memoria set_memoria app].
    rewrite (file_lines_join _ Hlimpia). eexists _, _.
    split; [reflexivity|]. auto.
  - cbn [self memoria length Nat.add].
    rewrite <- (length_map strip), (file_lines_join _ Hlimpia). exact Hlen.
Qed.

End IdaYVuelta.

(** The scenario of the specification: the history of the hola exchange is
    saved when conversation 42 is stopped and comes back when the next
    message creates the instance again. *)
Lemma historial_hola_se_recupera :
  exists g' w',
    GestorChat_init Escenario.colaboradores_hola 42
      (world (snd (detener
         {| self := Escenario.gestor 42 [] 0
                      [py "Usuario: hola"; py "Asistente: ¡Hola!"];
            world := Escenario.mundo_en 100 Escenario.disco_vacio |})))
    = (Ok g', w')
    /\ memoria g' = [py "Usuario: hola"; py "Asistente: ¡Hola!"]
    /\ chat_id g' = 42%Z
    /\ activo g' = true.
Proof.
  apply (historial_limpio_se_recupera Escenario.colaboradores_hola
           (Escenario.gestor 42 [] 0
              [py "Usuario: hola"; py "Asistente: ¡Hola!"])).
  - vm_compute. reflexivity.
  - apply Nat.leb_le. vm_compute. reflexivity.
Defined.

(** ** The queue of a worker *)

Section Cola.

Context {W : Type} (E : Collaborators W).

Lemma procesar_cola_get_eq (s : St (W:=W)) :
  procesar_cola_get s
  = if activo (self s) then
      match cola_mensajes (self s) with
      | [] => (Ok Esperar, s)
      | update :: resto =>
        (Ok (Tomado update),
         {| self := set_cola resto (self s); world := world s |})
      end
    else (Ok Salir, s).
Proof.
  unfold procesar_cola_get. rewrite (bind_ok get_state _ s s s eq_refl).
  destruct (activo (self s)); [|reflexivity].
  destruct (cola_mensajes (self s)); reflexivity.
Qed.

(** The body of the loop touches neither the queue nor the flag. *)
Lemma procesar_cola_cuerpo_cola update (s : St (W:=W)) :
  cola_mensajes (self (snd (procesar_cola_cuerpo E update s)))
  = cola_mensajes (self s)
  /\ activo (self (snd (procesar_cola_cuerpo E update s))) = activo (self s).
Proof.
  apply (campos_procesar_cola_cuerpo E
           (fun g => cola_mensajes g = cola_mensajes (self s)
                     /\ activo g = activo (self s))).
  - intros g t H. exact H.
  - intros g linea H. exact H.
  - split; reflexivity.
Qed.

Lemma agregar_mensaje_cola update (s : St (W:=W)) :
  cola_mensajes (self (snd (agregar_mensaje E update s)))
  = cola_mensajes (self s) ++ [update]
  /\ activo (self (snd (agregar_mensaje E update s))) = activo (self s).
Proof.
  unfold agregar_mensaje, bind, on_self, modify, lift, now.
  cbn [fst snd self world]. destruct (time_time E (ext (world s))).
  split; reflexivity.
Qed.

Lemma detener_cola (s : St (W:=W)) :
  cola_mensajes (self (snd (detener s))) = cola_mensajes (self s).
Proof.
  apply (campos_detener (fun g => cola_mensajes g = cola_mensajes (self s))).
  - intros g H. exact H.
  - reflexivity.
Qed.

Lemma paso_hilo_recibidos (t : Trabajador (W:=W)) :
  recibidos (paso_hilo E t) = recibidos t.
Proof.
  unfold recibidos, paso_hilo, en_curso. destruct (pc t) as [|update|] eqn:Hpc.
  - rewrite procesar_cola_get_eq. destruct (activo (self (estado t))).
    + destruct (cola_mensajes (self (estado t))) as [|u q] eqn:Hq;
        cbn [estado pc procesados self set_cola cola_mensajes];
        rewrite ?Hq; reflexivity.
    + cbn [estado pc procesados]. reflexivity.
  - destruct (procesar_cola_cuerpo_cola update (estado t)) as (Hq & _).
    destruct (procesar_cola_cuerpo E update (estado t)) as [[[]|e] s];
      cbn [estado pc procesados snd] in *; rewrite Hq, <- app_assoc;
      reflexivity.
  - rewrite Hpc. reflexivity.
Qed.

Lemma paso_recibidos (a : Accion) (t : Trabajador (W:=W)) :
  recibidos (paso E a t) = recibidos t ++ encolados [a].
Proof.
  destruct a as [update| |]; cbn [paso encolados].
  - unfold recibidos, llamar, en_curso. cbn [estado pc procesados].
    destruct (agregar_mensaje_cola update (estado t)) as (Hq & _).
    rewrite Hq, !app_assoc. reflexivity.
  - unfold recibidos, llamar, en_curso. cbn [estado pc procesados].
    rewrite detener_cola, app_nil_r. reflexivity.
  - rewrite paso_hilo_recibidos, app_nil_r. reflexivity.
Qed.

Lemma encolados_app l1 l2 : encolados (l1 ++ l2) = encolados l1 ++ encolados l2.
Proof.
  induction l1 as [|a l1 IH]; [reflexivity|].
  destruct a; simpl; rewrite IH; reflexivity.
Qed.

Lemma ejecutar_app l1 l2 (t : Trabajador (W:=W)) :
  ejecutar E (l1 ++ l2) t = ejecutar E l2 (ejecutar E l1 t).
Proof. unfold ejecutar. apply fold_left_app. Qed.

Lemma ejecutar_recibidos acciones (t : Trabajador (W:=W)) :
  recibidos (ejecutar E acciones t) = recibidos t ++ encolados acciones.
Proof.
  revert t. induction acciones as [|a acciones IH]; intros t.
  - simpl. rewrite app_nil_r. reflexivity.
  - change (ejecutar E (a :: acciones) t)
      with (ejecutar E acciones (paso E a t)).
    rewrite IH, paso_recibidos, <- app_assoc.
    change (a :: acciones) with ([a] ++ acciones).
    rewrite encolados_app. reflexivity.
Qed.

(** A running worker that is left alone empties its queue in order: two
    steps of its thread per update. *)
Lemma vaciar_cola (cola : list Update) :
  forall (t : Trabajador (W:=W)),
    pc t = EnCabeza ->
    activo (self (estado t)) = true ->
    cola_mensajes (self (estado t)) = cola ->
    let t' := ejecutar E (repeat PasoHilo (2 * length cola)) t in
    procesados t' = procesados t ++ cola
    /\ pc t' = EnCabeza
    /\ cola_mensajes (self (estado t')) = []
    /\ activo (self (estado t')) = true.
Proof.
  induction cola as [|u q IH]; intros t Hpc Hact Hcola.
  - simpl. rewrite app_nil_r. auto.
  - replace (2 * length (u :: q)) with (2 + 2 * length q) by (simpl; lia).
    cbn [repeat Nat.add].
    change (ejecutar E (PasoHilo :: PasoHilo :: ?l) t)
      with (ejecutar E l (paso_hilo E (paso_hilo E t))).
    set (t1 := paso_hilo E t).
    assert (H1 : pc t1 = EnCuerpo u /\ procesados t1 = procesados t
                 /\ cola_mensajes (self (estado t1)) = q
                 /\ activo (self (estado t1)) = true).
    { unfold t1, paso_hilo. rewrite Hpc, procesar_cola_get_eq, Hact, Hcola.
      cbn [estado pc procesados self set_cola cola_mensajes activo]. auto. }
    destruct H1 as (Hpc1 & Hp1 & Hq1 & Ha1).
    set (t2 := paso_hilo E t1).
    assert (H2 : pc t2 = EnCabeza /\ procesados t2 = procesados t ++ [u]
                 /\ cola_mensajes (self (estado t2)) = q
                 /\ activo (self (estado t2)) = true).
    { unfold t2, paso_hilo. rewrite Hpc1.
      destruct (procesar_cola_cuerpo_cola u (estado t1)) as (Hq2 & Ha2).
      pose proof (procesar_cola_cuerpo_ok E u (estado t1)) as Hok.
      destruct (procesar_cola_cuerpo E u (estado t1)) as [[[]|e] s];
        cbn [fst snd estado pc procesados] in *; [|discriminate Hok].
      rewrite Hq2, Ha2, Hp1. auto. }
    destruct H2 as (Hpc2 & Hp2 & Hq2 & Ha2).
    destruct (IH t2 Hpc2 Ha2 Hq2) as (Hp & Hpc' & Hq' & Ha').
    rewrite Hp, Hp2, <- app_assoc. auto.
Qed.

(** C2: whatever the other threads do to a worker (enqueue updates, stop
    it) and however the steps of its own thread are interleaved with them,
    the updates that its thread has passed to [procesar_update], followed
    by the one it holds (at most one) and by those still in the queue, are
    the updates enqueued, in the order of [agregar_mensaje]; so the updates
    are processed one at a time in that order. And a running worker
    processes every update of its queue, in order, within two steps of its
    thread per update. *)
Theorem cola_fifo (g : GestorChat) (w : World W) :
  let nuevo := {| estado := {| self := set_activo true (set_cola [] g);
                               world := w |};
                  pc := EnCabeza; procesados := [] |} in
  (forall acciones,
      let t := ejecutar E acciones nuevo in
      procesados t ++ en_curso t ++ cola_mensajes (self (estado t))
      = encolados acciones
      /\ length (en_curso t) <= 1)
  /\ (forall acciones (t0 : Trabajador (W:=W)),
        let t := ejecutar E acciones t0 in
        procesados t ++ en_curso t ++ cola_mensajes (self (estado t))
        = (procesados t0 ++ en_curso t0 ++ cola_mensajes (self (estado t0)))
          ++ encolados acciones)
  /\ (forall updates,
        let encolar := map AgregarMensaje updates in
        let vaciar := repeat PasoHilo (2 * length updates) in
        let t := ejecutar E (encolar ++ vaciar) nuevo in
        procesados t = updates
        /\ en_curso t = []
        /\ cola_mensajes (self (estado t)) = []).
Proof.
  intros nuevo. split; [|split].
  - intros acciones t. split.
    + exact (ejecutar_recibidos acciones nuevo).
    + unfold en_curso. destruct (pc t); simpl; lia.
  - intros acciones t0. exact (ejecutar_recibidos acciones t0).
  - intros updates encolar vaciar t.
    assert (Henc : forall us (t0 : Trabajador (W:=W)),
               let t1 := ejecutar E (map AgregarMensaje us) t0 in
               pc t1 = pc t0 /\ procesados t1 = procesados t0
               /\ activo (self (estado t1)) = activo (self (estado t0))
               /\ cola_mensajes (self (estado t1))
                  = cola_mensajes (self (estado t0)) ++ us).
    { induction us as [|u us IH]; intros t0.
      - simpl. rewrite app_nil_r. auto.
      - cbn [map].
        change (ejecutar E (AgregarMensaje u :: ?l) t0)
          with (ejecutar E l (llamar (agregar_mensaje E u) t0)).
        destruct (IH (llamar (agregar_mensaje E u) t0)) as (H1 & H2 & H3 & H4).
        destruct (agregar_mensaje_cola u (estado t0)) as (Hq & Ha).
        cbv zeta. rewrite H1, H2, H3, H4. unfold llamar.
        cbn [estado pc procesados]. rewrite Hq, Ha, <- app_assoc. auto. }
    subst t encolar vaciar.
    destruct (Henc updates nuevo) as (Hpc & Hp & Ha & Hq).
    rewrite ejecutar_app.
    destruct (vaciar_cola updates
                (ejecutar E (map AgregarMensaje updates) nuevo) Hpc Ha Hq)
      as (Hp' & Hpc' & Hq' & _).
    cbv zeta in Hp', Hpc', Hq'. rewrite Hp', Hp. unfold en_curso.
    rewrite Hpc'. auto.
Qed.

End Cola.

(** ** The cleaning thread *)

Section Limpieza.

Context {W : Type}.

Lemma con_gestor_detener (a : nat) (g : GestorChat) (r : Registro (W:=W)) :
  heap r !! a = Some g ->
  exists w,
    con_gestor a detener r
    = (Ok tt, {| heap := <[a := set_activo false g]> (heap r);
                 chats_activos := chats_activos r;
                 mundo := w |})
    /\ ficheros_escritos (log w)
       = ficheros_escritos (log (mundo r))
         ++ [(ruta_historial (chat_id g), join [LF] (memoria g))].
Proof.
  intros Hg. unfold con_gestor. rewrite Hg.
  destruct (detener_efecto {| self := g; world := mundo r |})
    as (w & Hd & _ & _ & Hlog).
  rewrite Hd. exists w. split; [reflexivity|exact Hlog].
Qed.

Lemma bool_decide_cons_ne {A} `{EqDecision A} (x y : A) (l : list A) :
  x <> y -> bool_decide (x ∈ y :: l) = bool_decide (x ∈ l).
Proof.
  intros Hne. apply bool_decide_ext. rewrite elem_of_cons.
  split; [intros [H|H]; [congruence|exact H]|auto].
Qed.

(** One iteration of the first loop. *)
Lemma revisar_efecto ahora c a eliminar (g : GestorChat) (r : Registro (W:=W)) :
  heap r !! a = Some g ->
  if inactivo ahora g then
    exists w,
      revisar ahora (c, a) eliminar r
      = (Ok (eliminar ++ [c]),
         {| heap := <[a := set_activo false g]> (heap r);
            chats_activos := chats_activos r;
            mundo := w |})
      /\ ficheros_escritos (log w)
         = ficheros_escritos (log (mundo r))
           ++ [(ruta_historial (chat_id g), join [LF] (memoria g))]
  else revisar ahora (c, a) eliminar r = (Ok eliminar, r).
Proof.
  intros Hg. unfold revisar. rewrite (bind_ok get_state _ r r r eq_refl).
  cbn [fst snd]. rewrite Hg. destruct (inactivo ahora g); [|reflexivity].
  destruct (con_gestor_detener a g r Hg) as (w & Hdet & Hlog).
  rewrite (bind_ok _ _ _ _ _ Hdet). exists w. split; [reflexivity|exact Hlog].
Qed.

(** The first loop, on a list of items whose addresses exist and are
    distinct: it deletes nothing, it returns the identifiers of the idle
    instances, and it has stopped exactly those instances. *)
Lemma revisar_todos_efecto ahora (items : list (Z * nat)) :
  forall (eliminar : list Z) (r : Registro (W:=W)),
    (forall item, item ∈ items -> is_Some (heap r !! item.2)) ->
    NoDup (items.*2) ->
    exists r1,
      revisar_todos ahora items eliminar r
      = (Ok (eliminar ++ candidatos ahora r items), r1)
      /\ chats_activos r1 = chats_activos r
      /\ (forall a,
             heap r1 !! a
             = match heap r !! a with
               | Some g =>
                 Some (if bool_decide (a ∈ items.*2) && inactivo ahora g
                       then set_activo false g else g)
               | None => None
               end)
      /\ ficheros_escritos (log (mundo r1))
         = ficheros_escritos (log (mundo r)) ++ guardados ahora r items.
Proof.
  induction items as [|[c a] resto IH]; intros eliminar r Hval Hnd.
  - exists r. simpl. rewrite !app_nil_r. split; [reflexivity|].
    split; [reflexivity|]. split; [|reflexivity].
    intros a. destruct (heap r !! a); reflexivity.
  - cbn [fmap list_fmap] in Hnd. apply NoDup_cons in Hnd as (Hnotin & Hnd).
    destruct (Hval (c, a)) as (g & Hg); [apply elem_of_cons; auto|].
    cbn [snd] in Hg.
    assert (Hrest : forall r2 : Registro (W:=W),
               (forall a', a' <> a -> heap r2 !! a' = heap r !! a') ->
               (forall item, item ∈ resto -> is_Some (heap r2 !! item.2))
               /\ candidatos ahora r2 resto = candidatos ahora r resto
               /\ guardados ahora r2 resto = guardados ahora r resto).
    { intros r2 Hsame.
      assert (Hne : forall item, item ∈ resto -> item.2 <> a).
      { intros item Hin Heq. apply Hnotin. rewrite <- Heq.
        apply list_elem_of_fmap. exists item. auto. }
      split; [|split].
      - intros item Hin. rewrite (Hsame (item.2)) by (apply Hne, Hin).
        apply Hval, elem_of_cons. auto.
      - clear IH Hnd Hnotin Hval. induction resto as [|item resto IHr];
          [reflexivity|].
        cbn [candidatos]. unfold debe_eliminar.
        rewrite (Hsame (item.2)) by (apply Hne, elem_of_cons; auto).
        rewrite IHr; [reflexivity|].
        intros i Hi. apply Hne, elem_of_cons. auto.
      - clear IH Hnd Hnotin Hval. induction resto as [|item resto IHr];
          [reflexivity|].
        cbn [guardados].
        rewrite (Hsame (item.2)) by (apply Hne, elem_of_cons; auto).
        rewrite IHr; [reflexivity|].
        intros i Hi. apply Hne, elem_of_cons. auto. }
    cbn [revisar_todos candidatos guardados]. unfold debe_eliminar.
    cbn [fst snd]. rewrite Hg.
    pose proof (revisar_efecto ahora c a eliminar g r Hg) as Hrev.
    destruct (inactivo ahora g) eqn:Hin.
    + destruct Hrev as (w & Hrev & Hlog).
      rewrite (bind_ok _ _ _ _ _ Hrev).
      match goal with
      | |- context [revisar_todos ahora resto _ ?r2] =>
        destruct (Hrest r2) as (Hval2 & Hcand & Hguard);
          [intros a' Hne; cbn [heap]; apply list_lookup_insert_ne; congruence|];
        destruct (IH (eliminar ++ [c]) r2 Hval2 Hnd)
          as (r1 & Hrun & Hchats & Hheap & Hlog1)
      end.
      rewrite Hcand in Hrun. rewrite Hguard in Hlog1.
      exists r1. rewrite Hrun, <- app_assoc.
      split; [reflexivity|]. split; [exact Hchats|]. split.
      * intros a'. rewrite Hheap. cbn [heap].
        destruct (decide (a' = a)) as [->|Hne].
        -- rewrite list_lookup_insert_eq by (eapply lookup_lt_Some, Hg).
           rewrite Hg, Hin.
           rewrite (bool_decide_eq_false_2 _ Hnotin).
           rewrite bool_decide_eq_true_2 by (apply elem_of_cons; auto).
           reflexivity.
        -- rewrite list_lookup_insert_ne by congruence.
           destruct (heap r !! a') as [g'|]; [|reflexivity].
           change (((c, a) :: resto).*2) with (a :: resto.*2).
           rewrite (bool_decide_cons_ne a' a (resto.*2) Hne). reflexivity.
      * rewrite Hlog1. cbn [mundo]. rewrite Hlog, <- app_assoc. reflexivity.
    + rewrite (bind_ok _ _ _ _ _ Hrev).
      destruct (Hrest r) as (Hval2 & _ & _); [reflexivity|].
      destruct (IH eliminar r Hval2 Hnd) as (r1 & Hrun & Hchats & Hheap & Hlog1).
      exists r1. split; [exact Hrun|]. split; [exact Hchats|].
      split; [|exact Hlog1].
      intros a'. rewrite Hheap.
      destruct (decide (a' = a)) as [->|Hne].
      * rewrite Hg, Hin, !andb_false_r. reflexivity.
      * destruct (heap r !! a') as [g'|]; [|reflexivity].
        change (((c, a) :: resto).*2) with (a :: resto.*2).
           rewrite (bool_decide_cons_ne a' a (resto.*2) Hne). reflexivity.
Qed.

(** The second loop, on distinct identifiers that are in the dictionary: it
    deletes them, and touches neither the instances nor the world. *)
Lemma borrar_todos (eliminar : list Z) :
  forall r : Registro (W:=W),
    NoDup eliminar ->
    (forall c, c ∈ eliminar -> is_Some (chats_activos r !! c)) ->
    exists r',
      for_each eliminar borrar r = (Ok tt, r')
      /\ heap r' = heap r
      /\ mundo r' = mundo r
      /\ (forall c,
             chats_activos r' !! c
             = if bool_decide (c ∈ eliminar) then None
               else chats_activos r !! c).
Proof.
  induction eliminar as [|c resto IH]; intros r Hnd Hin.
  - exists r. simpl. auto.
  - apply NoDup_cons in Hnd as (Hnotin & Hnd).
    destruct (Hin c) as (a & Ha); [apply elem_of_cons; auto|].
    cbn [for_each]. unfold borrar at 1.
    rewrite (bind_ok _ _ r tt
               {| heap := heap r; chats_activos := delete c (chats_activos r);
                  mundo := mundo r |}).
    2:{ rewrite (bind_ok get_state _ r r r eq_refl), Ha. reflexivity. }
    match goal with
    | |- context [for_each resto borrar ?r2] =>
      destruct (IH r2 Hnd) as (r' & Hrun & Hheap & Hmundo & Hchats)
    end.
    { intros c' Hc'. cbn [chats_activos]. rewrite lookup_delete_ne.
      - apply Hin, elem_of_cons. auto.
      - intros ->. exact (Hnotin Hc'). }
    exists r'. split; [exact Hrun|]. split; [exact Hheap|].
    split; [exact Hmundo|].
    intros c'. rewrite Hchats. cbn [chats_activos].
    destruct (decide (c' = c)) as [->|Hne].
    + rewrite lookup_delete_eq.
      rewrite (bool_decide_eq_true_2 (c ∈ c :: resto))
        by (apply elem_of_cons; auto).
      destruct (bool_decide (c ∈ resto)); reflexivity.
    + rewrite lookup_delete_ne by congruence.
      rewrite (bool_decide_cons_ne c' c resto Hne). reflexivity.
Qed.

End Limpieza.
Section Ciclo.

Context {W : Type}.

Lemma inactivo_iff ahora (g : GestorChat) :
  inactivo ahora g = true
  <-> (TIEMPO_INACTIVIDAD_MAX < ahora - ultima_actividad g)%Q
      /\ cola_mensajes g = [].
Proof.
  unfold inactivo. rewrite andb_true_iff, negb_true_iff.
  split.
  - intros (Ht & Hq). split.
    + apply Qnot_le_lt. intros Hle. apply Qle_bool_iff in Hle. congruence.
    + destruct (cola_mensajes g); [reflexivity|discriminate].
  - intros (Ht & Hq). split.
    + destruct (Qle_bool (ahora - ultima_actividad g) TIEMPO_INACTIVIDAD_MAX)
        eqn:Hle; [|reflexivity].
      apply Qle_bool_iff in Hle. exfalso. exact (Qlt_not_le _ _ Ht Hle).
    + rewrite Hq. reflexivity.
Qed.

Lemma bien_formado_entrada (r : Registro (W:=W)) c a :
  bien_formado r = true ->
  chats_activos r !! c = Some a ->
  exists g, heap r !! a = Some g /\ chat_id g = c.
Proof.
  intros Hwf Hc. unfold bien_formado in Hwf.
  rewrite forallb_forall in Hwf.
  assert (Hin : In (c, a) (map_to_list (chats_activos r)))
    by (apply list_elem_of_In, elem_of_map_to_list, Hc).
  specialize (Hwf (c, a) Hin). unfold entrada_valida in Hwf.
  cbn [fst snd] in Hwf.
  destruct (heap r !! a) as [g|]; [|discriminate Hwf].
  exists g. split; [reflexivity|]. apply bool_decide_eq_true in Hwf. exact Hwf.
Qed.

Lemma bien_formado_direcciones (r : Registro (W:=W)) :
  bien_formado r = true -> NoDup ((map_to_list (chats_activos r)).*2).
Proof.
  intros Hwf. apply NoDup_fmap_2_strong; [|apply NoDup_map_to_list].
  intros [c1 a1] [c2 a2] H1 H2 Heq. cbn [snd] in Heq. subst a2.
  apply elem_of_map_to_list in H1, H2.
  destruct (bien_formado_entrada r c1 a1 Hwf H1) as (g1 & Hg1 & Hc1).
  destruct (bien_formado_entrada r c2 a1 Hwf H2) as (g2 & Hg2 & Hc2).
  congruence.
Qed.

Lemma elem_of_candidatos ahora (r : Registro (W:=W)) items c :
  c ∈ candidatos ahora r items
  <-> exists a, (c, a) ∈ items /\ debe_eliminar ahora r (c, a) = true.
Proof.
  induction items as [|[c' a'] items IH]; cbn [candidatos].
  - split; [intros H; inversion H|intros (a & H & _); inversion H].
  - destruct (debe_eliminar ahora r (c', a')) eqn:Hd; cbn [fst].
    + rewrite elem_of_cons, IH. split.
      * intros [->|(a & Hin & Ha)].
        -- exists a'. split; [apply elem_of_cons; auto|exact Hd].
        -- exists a. split; [apply elem_of_cons; auto|exact Ha].
      * intros (a & Hin & Ha). apply elem_of_cons in Hin as [Heq|Hin].
        -- left. congruence.
        -- right. exists a. auto.
    + rewrite IH. split.
      * intros (a & Hin & Ha). exists a. split; [apply elem_of_cons; auto|exact Ha].
      * intros (a & Hin & Ha). apply elem_of_cons in Hin as [Heq|Hin].
        -- injection Heq as -> ->. congruence.
        -- exists a. auto.
Qed.

Lemma NoDup_candidatos ahora (r : Registro (W:=W)) items :
  NoDup (items.*1) -> NoDup (candidatos ahora r items).
Proof.
  induction items as [|[c a] items IH]; cbn [candidatos fmap list_fmap fst].
  - intros _. constructor.
  - intros (Hnotin & Hnd)%NoDup_cons.
    destruct (debe_eliminar ahora r (c, a)); [|apply IH, Hnd].
    apply NoDup_cons. split; [|apply IH, Hnd].
    intros (a' & Hin & _)%elem_of_candidatos. apply Hnotin.
    apply list_elem_of_fmap. exists (c, a'). auto.
Qed.

Lemma elem_of_guardados ahora (r : Registro (W:=W)) items c a g :
  (c, a) ∈ items -> heap r !! a = Some g -> inactivo ahora g = true ->
  (ruta_historial (chat_id g), join [LF] (memoria g)) ∈ guardados ahora r items.
Proof.
  intros Hin Hg Hi. induction items as [|[c' a'] items IH]; [inversion Hin|].
  cbn [guardados snd]. apply elem_of_cons in Hin as [Heq|Hin].
  - injection Heq as <- <-. rewrite Hg, Hi. apply elem_of_cons. auto.
  - specialize (IH Hin).
    destruct (heap r !! a') as [g'|]; [|exact IH].
    destruct (inactivo ahora g'); [apply elem_of_cons; auto|exact IH].
Qed.

(** C3: in a registry whose entries name existing instances, the block of
    the cleaning thread runs its two loops to the end. The first loop
    deletes nothing and stops (flag lowered, history saved) the instances
    to reap; the second loop deletes their entries and touches nothing
    else; so every reaped instance is stopped before its entry is deleted.
    An instance is reaped, that is stopped and removed from the dictionary,
    if and only if [ahora - ultima_actividad > 300] and its queue is empty
    at the time of the scan; any other instance, and so an instance that
    has been idle for long but has a pending update, is left as it is and
    stays in the dictionary. *)
Theorem limpiar_correcto ahora (r : Registro (W:=W)) :
  bien_formado r = true ->
  let items := map_to_list (chats_activos r) in
  let eliminar := candidatos ahora r items in
  exists r1 r',
    revisar_todos ahora items [] r = (Ok eliminar, r1)
    /\ for_each eliminar borrar r1 = (Ok tt, r')
    /\ limpiar ahora r = (Ok eliminar, r')
    /\ chats_activos r1 = chats_activos r
    /\ heap r' = heap r1
    /\ mundo r' = mundo r1
    /\ ficheros_escritos (log (mundo r'))
       = ficheros_escritos (log (mundo r)) ++ guardados ahora r items
    /\ forall c a g,
         chats_activos r !! c = Some a -> heap r !! a = Some g ->
         (inactivo ahora g = true
          <-> (TIEMPO_INACTIVIDAD_MAX < ahora - ultima_actividad g)%Q
              /\ cola_mensajes g = [])
         /\ (inactivo ahora g = true ->
             c ∈ eliminar
             /\ heap r1 !! a = Some (set_activo false g)
             /\ chats_activos r1 !! c = Some a
             /\ (ruta_historial c, join [LF] (memoria g))
                  ∈ guardados ahora r items
             /\ heap r' !! a = Some (set_activo false g)
             /\ chats_activos r' !! c = None)
         /\ (inactivo ahora g = false ->
             (c ∉ eliminar)
             /\ heap r' !! a = Some g
             /\ chats_activos r' !! c = Some a).
Proof.
  intros Hwf items eliminar.
  assert (Hval : forall item, item ∈ items -> is_Some (heap r !! item.2)).
  { intros [c a] Hin. apply elem_of_map_to_list in Hin.
    destruct (bien_formado_entrada r c a Hwf Hin) as (g & Hg & _).
    exists g. exact Hg. }
  destruct (revisar_todos_efecto ahora items [] r Hval
              (bien_formado_direcciones r Hwf))
    as (r1 & Hrun1 & Hchats1 & Hheap1 & Hlog1).
  cbn [app] in Hrun1. fold eliminar in Hrun1.
  destruct (borrar_todos eliminar r1) as (r' & Hrun2 & Hheap2 & Hmundo2 & Hchats2).
  { apply NoDup_candidatos, NoDup_fst_map_to_list. }
  { intros c (a & Hin & _)%elem_of_candidatos. rewrite Hchats1.
    exists a. apply elem_of_map_to_list, Hin. }
  exists r1, r'. split; [exact Hrun1|]. split; [exact Hrun2|].
  split.
  { unfold limpiar. rewrite (bind_ok get_state _ r r r eq_refl).
    fold items. rewrite (bind_ok _ _ _ _ _ Hrun1).
    rewrite (bind_ok _ _ _ _ _ Hrun2). reflexivity. }
  split; [exact Hchats1|]. split; [exact Hheap2|]. split; [exact Hmundo2|].
  split; [rewrite Hmundo2; exact Hlog1|].
  intros c a g Hc Hg.
  assert (Hin : (c, a) ∈ items) by (apply elem_of_map_to_list, Hc).
  assert (Ha : a ∈ items.*2)
    by (apply list_elem_of_fmap; exists (c, a); auto).
  assert (Hcid : chat_id g = c).
  { destruct (bien_formado_entrada r c a Hwf Hc) as (g' & Hg' & Hc').
    congruence. }
  pose proof (Hheap1 a) as Hh. rewrite Hg in Hh.
  rewrite (bool_decide_eq_true_2 _ Ha) in Hh. cbn [andb] in Hh.
  split; [apply inactivo_iff|]. split.
  - intros Hi. rewrite Hi in Hh.
    assert (Hel : c ∈ eliminar).
    { apply elem_of_candidatos. exists a. split; [exact Hin|].
      unfold debe_eliminar. cbn [snd]. rewrite Hg. exact Hi. }
    split; [exact Hel|]. split; [exact Hh|].
    split; [rewrite Hchats1; exact Hc|].
    split; [rewrite <- Hcid; exact (elem_of_guardados ahora r items c a g Hin Hg Hi)|].
    split; [rewrite Hheap2; exact Hh|].
    rewrite Hchats2, (bool_decide_eq_true_2 _ Hel). reflexivity.
  - intros Hi. rewrite Hi in Hh.
    assert (Hel : c ∉ eliminar).
    { intros (a' & Hin' & Hd)%elem_of_candidatos.
      apply elem_of_map_to_list in Hin'. rewrite Hc in Hin'.
      injection Hin' as <-. unfold debe_eliminar in Hd. cbn [snd] in Hd.
      rewrite Hg in Hd. congruence. }
    split; [exact Hel|]. split; [rewrite Hheap2; exact Hh|].
    rewrite Hchats2, (bool_decide_eq_false_2 _ Hel), Hchats1. exact Hc.
Qed.

End Ciclo.

Import Escenario.

(** C3 on a registry with three conversations at second 1000: 42, idle for
    301 seconds with an empty queue, is stopped and removed; 7, idle as long
    with an update pending, and 9, idle for exactly 300 seconds, stay. *)
Lemma limpiar_ejemplo :
  bien_formado registro_ejemplo = true
  /\ exists r',
       limpiar 1000 registro_ejemplo = (Ok [42%Z], r')
       /\ chats_activos r' !! 42%Z = None
       /\ activo <$> heap r' !! 0 = Some false
       /\ chats_activos r' !! 7%Z = Some 1
       /\ activo <$> heap r' !! 1 = Some true
       /\ chats_activos r' !! 9%Z = Some 2
       /\ activo <$> heap r' !! 2 = Some true.
Proof.
  split; [reflexivity|].
  destruct (limpiar_correcto 1000 registro_ejemplo eq_refl)
    as (r1 & r' & _ & _ & Hrun & _ & _ & _ & _ & Hcada).
  exists r'. split; [exact Hrun|].
  destruct (Hcada 42%Z 0 _ eq_refl eq_refl) as (_ & H42 & _).
  destruct (H42 eq_refl) as (_ & _ & _ & _ & Hh42 & Hc42).
  destruct (Hcada 7%Z 1 _ eq_refl eq_refl) as (_ & _ & H7).
  destruct (H7 eq_refl) as (_ & Hh7 & Hc7).
  destruct (Hcada 9%Z 2 _ eq_refl eq_refl) as (_ & _ & H9).
  destruct (H9 eq_refl) as (_ & Hh9 & Hc9).
  rewrite Hh42, Hh7, Hh9. repeat split; assumption.
Defined.

(** ** The invariant of the registry, step by step *)

Section PasosAbstractos.

Variables (vista : list (Z * bool)) (chats : gmap Z nat)
          (lock : option Hilo) (pcm : nat -> PcMain) (mon : PcMonitor).

Hypothesis Hinv : invariante_de vista chats lock pcm mon.

(** A polling thread inside its block holds the lock and is alone. *)
Lemma solo_main t :
  pcm t <> MLibre ->
  lock = Some (HMain t)
  /\ (forall t', t' <> t -> pcm t' = MLibre)
  /\ dentro_monitor mon = false.
Proof.
  intros Hpc. pose proof (inv_lock _ _ _ _ _ Hinv) as Hl.
  destruct lock as [[t0|]|].
  - destruct Hl as (H0 & Hothers & Hmon).
    destruct (decide (t = t0)) as [->|Hne]; [auto|].
    exfalso. apply Hpc, Hothers, Hne.
  - destruct Hl as (Hall & _). exfalso. apply Hpc, Hall.
  - destruct Hl as (Hall & _). exfalso. apply Hpc, Hall.
Qed.

(** The cleaning thread inside its block holds the lock and is alone. *)
Lemma solo_monitor :
  dentro_monitor mon = true ->
  lock = Some HMonitor /\ (forall t, pcm t = MLibre).
Proof.
  intros Hd. pose proof (inv_lock _ _ _ _ _ Hinv) as Hl.
  destruct lock as [[t0|]|].
  - destruct Hl as (_ & _ & Hmon). congruence.
  - destruct Hl as (Hall & _). auto.
  - destruct Hl as (_ & Hmon). congruence.
Qed.

Lemma inv_main_entra t u c pcm' :
  lock = None -> mueve pcm t (MComprobar u c) pcm' ->
  invariante_de vista chats (Some (HMain t)) pcm' mon.
Proof.
  intros Hlock (Ht & Hothers). subst lock.
  destruct (inv_lock _ _ _ _ _ Hinv) as (Hall & Hmon).
  constructor.
  - rewrite Ht. split; [discriminate|]. split; [|exact Hmon].
    intros t' Hne. rewrite Hothers by exact Hne. apply Hall.
  - apply (inv_reg _ _ _ _ _ Hinv).
  - intros a c0 Ha.
    destruct (inv_live _ _ _ _ _ Hinv a c0 Ha) as [H|(t0 & u0 & H)]; [auto|].
    rewrite Hall in H. discriminate H.
  - intros t0. destruct (decide (t0 = t)) as [->|Hne].
    + rewrite Ht. exact I.
    + rewrite Hothers, Hall by exact Hne. exact I.
  - apply (inv_mon _ _ _ _ _ Hinv).
Qed.

Lemma inv_main_comprueba t u c pcm' :
  pcm t = MComprobar u c ->
  mueve pcm t (match chats !! c with
           | None => MCrear u c
           | Some _ => MEncolar u c
           end) pcm' ->
  invariante_de vista chats lock pcm' mon.
Proof.
  intros Hpc (Ht & Hothers).
  destruct (solo_main t) as (-> & Hsolo & Hmon); [congruence|].
  constructor.
  - split; [|split; [|exact Hmon]].
    + rewrite Ht. destruct (chats !! c); discriminate.
    + intros t' Hne. rewrite Hothers by exact Hne. apply Hsolo, Hne.
  - apply (inv_reg _ _ _ _ _ Hinv).
  - intros a c0 Ha.
    destruct (inv_live _ _ _ _ _ Hinv a c0 Ha) as [H|(t0 & u0 & H)]; [auto|].
    destruct (decide (t0 = t)) as [->|Hne]; [congruence|].
    rewrite Hsolo in H by exact Hne. discriminate H.
  - intros t0. destruct (decide (t0 = t)) as [->|Hne].
    + rewrite Ht. destruct (chats !! c) eqn:Hc; [eauto|exact Hc].
    + rewrite Hothers, Hsolo by exact Hne. exact I.
  - apply (inv_mon _ _ _ _ _ Hinv).
Qed.

Lemma inv_main_crea t u c pcm' :
  pcm t = MCrear u c ->
  mueve pcm t (MGuardar u c (length vista)) pcm' ->
  invariante_de (vista ++ [(c, true)]) chats lock pcm' mon.
Proof.
  intros Hpc (Ht & Hothers).
  destruct (solo_main t) as (-> & Hsolo & Hmon); [congruence|].
  pose proof (inv_pc _ _ _ _ _ Hinv t) as Hc. rewrite Hpc in Hc.
  constructor.
  - split; [rewrite Ht; discriminate|]. split; [|exact Hmon].
    intros t' Hne. rewrite Hothers by exact Hne. apply Hsolo, Hne.
  - intros c0 a Ha. destruct (inv_reg _ _ _ _ _ Hinv c0 a Ha) as (b & Hb).
    exists b. rewrite lookup_app_l; [exact Hb|]. eapply lookup_lt_Some, Hb.
  - intros a c0 Ha.
    destruct (decide (a < length vista)) as [Hlt|Hge].
    + rewrite lookup_app_l in Ha by exact Hlt.
      destruct (inv_live _ _ _ _ _ Hinv a c0 Ha) as [H|(t0 & u0 & H)]; [auto|].
      destruct (decide (t0 = t)) as [->|Hne]; [congruence|].
      rewrite Hsolo in H by exact Hne. discriminate H.
    + rewrite lookup_app_r in Ha by lia.
      destruct (a - length vista) as [|n] eqn:Hn; [|destruct n; discriminate Ha].
      injection Ha as <-. right. exists t, u.
      rewrite Ht. f_equal. lia.
  - intros t0. destruct (decide (t0 = t)) as [->|Hne].
    + rewrite Ht. split; [exact Hc|]. exists true.
      rewrite lookup_app_r by lia. rewrite Nat.sub_diag. reflexivity.
    + rewrite Hothers, Hsolo by exact Hne. exact I.
  - destruct mon; try exact I; discriminate Hmon.
Qed.

Lemma inv_main_guarda t u c a pcm' :
  pcm t = MGuardar u c a ->
  mueve pcm t (MEncolar u c) pcm' ->
  invariante_de vista (<[c := a]> chats) lock pcm' mon.
Proof.
  intros Hpc (Ht & Hothers).
  destruct (solo_main t) as (-> & Hsolo & Hmon); [congruence|].
  pose proof (inv_pc _ _ _ _ _ Hinv t) as Hc. rewrite Hpc in Hc.
  destruct Hc as (Hnone & b & Hb).
  constructor.
  - split; [rewrite Ht; discriminate|]. split; [|exact Hmon].
    intros t' Hne. rewrite Hothers by exact Hne. apply Hsolo, Hne.
  - intros c0 a0 Ha. destruct (decide (c0 = c)) as [->|Hne].
    + rewrite lookup_insert_eq in Ha. injection Ha as <-. eauto.
    + rewrite lookup_insert_ne in Ha by congruence.
      apply (inv_reg _ _ _ _ _ Hinv c0 a0 Ha).
  - intros a0 c0 Ha. left.
    destruct (inv_live _ _ _ _ _ Hinv a0 c0 Ha) as [H|(t0 & u0 & H)].
    + rewrite lookup_insert_ne; [exact H|]. congruence.
    + destruct (decide (t0 = t)) as [->|Hne].
      * rewrite Hpc in H. injection H as _ <- <-. apply lookup_insert_eq.
      * rewrite Hsolo in H by exact Hne. discriminate H.
  - intros t0. destruct (decide (t0 = t)) as [->|Hne].
    + rewrite Ht. rewrite lookup_insert_eq. eauto.
    + rewrite Hothers, Hsolo by exact Hne. exact I.
  - destruct mon; try exact I; discriminate Hmon.
Qed.

(** A polling thread that is not between the construction and the store
    moves inside the block. *)
Lemma inv_main_avanza t p pcm' :
  pcm t <> MLibre -> (forall u c a, pcm t <> MGuardar u c a) ->
  p = MSoltar ->
  mueve pcm t p pcm' ->
  invariante_de vista chats lock pcm' mon.
Proof.
  intros Hpc Hng -> (Ht & Hothers).
  destruct (solo_main t Hpc) as (-> & Hsolo & Hmon).
  constructor.
  - split; [rewrite Ht; discriminate|]. split; [|exact Hmon].
    intros t' Hne. rewrite Hothers by exact Hne. apply Hsolo, Hne.
  - apply (inv_reg _ _ _ _ _ Hinv).
  - intros a c0 Ha.
    destruct (inv_live _ _ _ _ _ Hinv a c0 Ha) as [H|(t0 & u0 & H)]; [auto|].
    destruct (decide (t0 = t)) as [->|Hne]; [exfalso; exact (Hng _ _ _ H)|].
    rewrite Hsolo in H by exact Hne. discriminate H.
  - intros t0. destruct (decide (t0 = t)) as [->|Hne].
    + rewrite Ht. exact I.
    + rewrite Hothers, Hsolo by exact Hne. exact I.
  - destruct mon; try exact I; discriminate Hmon.
Qed.

(** A polling thread leaves the block, at its end or by an exception. *)
Lemma inv_main_sale t pcm' :
  pcm t <> MLibre -> (forall u c a, pcm t <> MGuardar u c a) ->
  mueve pcm t MLibre pcm' ->
  invariante_de vista chats None pcm' mon.
Proof.
  intros Hpc Hng (Ht & Hothers).
  destruct (solo_main t Hpc) as (-> & Hsolo & Hmon).
  assert (Hall : forall t0, pcm' t0 = MLibre).
  { intros t0. destruct (decide (t0 = t)) as [->|Hne]; [exact Ht|].
    rewrite Hothers by exact Hne. apply Hsolo, Hne. }
  constructor.
  - split; [exact Hall|exact Hmon].
  - apply (inv_reg _ _ _ _ _ Hinv).
  - intros a c0 Ha.
    destruct (inv_live _ _ _ _ _ Hinv a c0 Ha) as [H|(t0 & u0 & H)]; [auto|].
    destruct (decide (t0 = t)) as [->|Hne]; [exfalso; exact (Hng _ _ _ H)|].
    rewrite Hsolo in H by exact Hne. discriminate H.
  - intros t0. rewrite Hall. exact I.
  - destruct mon; try exact I; discriminate Hmon.
Qed.

(** The cleaning thread moves outside its block. *)
Lemma inv_monitor_fuera mon' :
  dentro_monitor mon = false -> dentro_monitor mon' = false ->
  invariante_de vista chats lock pcm mon'.
Proof.
  intros Hd Hd'. pose proof (inv_lock _ _ _ _ _ Hinv) as Hl.
  constructor.
  - destruct lock as [[t0|]|].
    + destruct Hl as (H1 & H2 & _). auto.
    + destruct Hl as (_ & Hm). congruence.
    + destruct Hl as (H1 & _). auto.
  - apply (inv_reg _ _ _ _ _ Hinv).
  - apply (inv_live _ _ _ _ _ Hinv).
  - apply (inv_pc _ _ _ _ _ Hinv).
  - destruct mon'; try exact I; discriminate Hd'.
Qed.

Lemma inv_monitor_entra ahora :
  lock = None ->
  invariante_de vista chats (Some HMonitor) pcm
                (RRevisando ahora (map_to_list chats) []).
Proof.
  intros ->. destruct (inv_lock _ _ _ _ _ Hinv) as (Hall & Hmon).
  constructor.
  - split; [exact Hall|reflexivity].
  - apply (inv_reg _ _ _ _ _ Hinv).
  - apply (inv_live _ _ _ _ _ Hinv).
  - apply (inv_pc _ _ _ _ _ Hinv).
  - split.
    + intros c a Hin. apply elem_of_map_to_list, Hin.
    + intros c a Hin. inversion Hin.
Qed.

Lemma inv_monitor_detiene ahora c a resto eliminar c' b :
  mon = RRevisando ahora ((c, a) :: resto) eliminar ->
  vista !! a = Some (c', b) ->
  invariante_de (<[a := (c', false)]> vista) chats lock pcm
                (RRevisando ahora resto (eliminar ++ [c])).
Proof.
  intros Hmon Ha.
  destruct solo_monitor as (-> & Hall); [rewrite Hmon; reflexivity|].
  pose proof (inv_mon _ _ _ _ _ Hinv) as Hm. rewrite Hmon in Hm.
  destruct Hm as (Hpend & Hel).
  assert (Hca : chats !! c = Some a) by (apply Hpend, elem_of_cons; auto).
  assert (Hlt : a < length vista) by (eapply lookup_lt_Some, Ha).
  assert (Hkeep : forall a0 c0 b0,
             vista !! a0 = Some (c0, b0) ->
             exists b1, <[a := (c', false)]> vista !! a0 = Some (c0, b1)
                        /\ (b1 = true -> b0 = true /\ a0 <> a)).
  { intros a0 c0 b0 H0. destruct (decide (a0 = a)) as [->|Hne].
    - rewrite list_lookup_insert_eq by exact Hlt. exists false.
      split; [congruence|discriminate].
    - rewrite list_lookup_insert_ne by congruence. exists b0. auto. }
  constructor.
  - split; [exact Hall|reflexivity].
  - intros c0 a0 H0. destruct (inv_reg _ _ _ _ _ Hinv c0 a0 H0) as (b0 & Hb0).
    destruct (Hkeep a0 c0 b0 Hb0) as (b1 & Hb1 & _). eauto.
  - intros a0 c0 H0. destruct (decide (a0 = a)) as [->|Hne].
    + rewrite list_lookup_insert_eq in H0 by exact Hlt. discriminate H0.
    + rewrite list_lookup_insert_ne in H0 by congruence.
      apply (inv_live _ _ _ _ _ Hinv a0 c0 H0).
  - intros t. rewrite Hall. exact I.
  - split.
    + intros c0 a0 Hin. apply Hpend, elem_of_cons. auto.
    + intros c0 a0 Hin H0. apply elem_of_app in Hin as [Hin|Hin].
      * destruct (Hel c0 a0 Hin H0) as (c1 & H1).
        destruct (decide (a0 = a)) as [->|Hne].
        -- rewrite list_lookup_insert_eq by exact Hlt. eauto.
        -- rewrite list_lookup_insert_ne by congruence. eauto.
      * apply elem_of_cons in Hin as [->|Hin]; [|inversion Hin].
        assert (a0 = a) as -> by congruence.
        rewrite list_lookup_insert_eq by exact Hlt. eauto.
Qed.

Lemma inv_monitor_pasa ahora item resto eliminar :
  mon = RRevisando ahora (item :: resto) eliminar ->
  invariante_de vista chats lock pcm (RRevisando ahora resto eliminar).
Proof.
  intros Hmon.
  destruct solo_monitor as (-> & Hall); [rewrite Hmon; reflexivity|].
  pose proof (inv_mon _ _ _ _ _ Hinv) as Hm. rewrite Hmon in Hm.
  destruct Hm as (Hpend & Hel).
  constructor.
  - split; [exact Hall|reflexivity].
  - apply (inv_reg _ _ _ _ _ Hinv).
  - apply (inv_live _ _ _ _ _ Hinv).
  - apply (inv_pc _ _ _ _ _ Hinv).
  - split; [|exact Hel].
    intros c a Hin. apply Hpend, elem_of_cons. auto.
Qed.

Lemma inv_monitor_revisado ahora eliminar :
  mon = RRevisando ahora [] eliminar ->
  invariante_de vista chats lock pcm (RBorrando eliminar eliminar).
Proof.
  intros Hmon.
  destruct solo_monitor as (-> & Hall); [rewrite Hmon; reflexivity|].
  pose proof (inv_mon _ _ _ _ _ Hinv) as Hm. rewrite Hmon in Hm.
  destruct Hm as (_ & Hel).
  constructor.
  - split; [exact Hall|reflexivity].
  - apply (inv_reg _ _ _ _ _ Hinv).
  - apply (inv_live _ _ _ _ _ Hinv).
  - apply (inv_pc _ _ _ _ _ Hinv).
  - exact Hel.
Qed.

Lemma inv_monitor_borra c resto eliminar :
  mon = RBorrando (c :: resto) eliminar ->
  invariante_de vista (delete c chats) lock pcm (RBorrando resto eliminar).
Proof.
  intros Hmon.
  destruct solo_monitor as (-> & Hall); [rewrite Hmon; reflexivity|].
  pose proof (inv_mon _ _ _ _ _ Hinv) as Hm. rewrite Hmon in Hm.
  constructor.
  - split; [exact Hall|reflexivity].
  - intros c0 a0 H0. apply lookup_delete_Some in H0 as (_ & H0).
    apply (inv_reg _ _ _ _ _ Hinv c0 a0 H0).
  - intros a0 c0 H0. left.
    destruct (inv_live _ _ _ _ _ Hinv a0 c0 H0) as [H|(t0 & u0 & H)].
    + rewrite lookup_delete_ne; [exact H|].
      intros <-. destruct (Hm c a0) as (c1 & H1); [apply elem_of_cons; auto|exact H|].
      congruence.
    + rewrite Hall in H. discriminate H.
  - intros t. rewrite Hall. exact I.
  - intros c0 a0 Hin H0. apply lookup_delete_Some in H0 as (_ & H0).
    apply (Hm c0 a0); [apply elem_of_cons; auto|exact H0].
Qed.

(** The cleaning thread leaves its block, at its end or by an exception. *)
Lemma inv_monitor_sale mon' :
  dentro_monitor mon = true -> dentro_monitor mon' = false ->
  invariante_de vista chats None pcm mon'.
Proof.
  intros Hd Hd'. destruct (solo_monitor Hd) as (-> & Hall).
  constructor.
  - split; [exact Hall|exact Hd'].
  - apply (inv_reg _ _ _ _ _ Hinv).
  - apply (inv_live _ _ _ _ _ Hinv).
  - apply (inv_pc _ _ _ _ _ Hinv).
  - destruct mon'; try exact I; discriminate Hd'.
Qed.

(** At most one live instance per chat. *)
Lemma inv_un_vivo a1 a2 c :
  vista !! a1 = Some (c, true) -> vista !! a2 = Some (c, true) -> a1 = a2.
Proof.
  intros H1 H2.
  destruct (inv_live _ _ _ _ _ Hinv a1 c H1) as [R1|(t1 & u1 & P1)];
    destruct (inv_live _ _ _ _ _ Hinv a2 c H2) as [R2|(t2 & u2 & P2)].
  - congruence.
  - pose proof (inv_pc _ _ _ _ _ Hinv t2) as Hp. rewrite P2 in Hp.
    destruct Hp as (Hnone & _). congruence.
  - pose proof (inv_pc _ _ _ _ _ Hinv t1) as Hp. rewrite P1 in Hp.
    destruct Hp as (Hnone & _). congruence.
  - destruct (solo_main t1) as (_ & Hsolo & _); [congruence|].
    destruct (decide (t2 = t1)) as [->|Hne]; [congruence|].
    rewrite Hsolo in P2 by exact Hne. discriminate P2.
Qed.

End PasosAbstractos.
Section PasosConcretos.

Context {W : Type} (E : Collaborators W).

Lemma resumen_lookup (heap : list GestorChat) a :
  resumen heap !! a = (fun g => (chat_id g, activo g)) <$> heap !! a.
Proof. unfold resumen. apply list_lookup_fmap. Qed.

Lemma resumen_insert (heap : list GestorChat) a g :
  resumen (<[a := g]> heap) = <[a := (chat_id g, activo g)]> (resumen heap).
Proof. unfold resumen. rewrite list_fmap_insert. reflexivity. Qed.

Lemma resumen_insert_mismo (heap : list GestorChat) a g g' :
  heap !! a = Some g -> chat_id g' = chat_id g -> activo g' = activo g ->
  resumen (<[a := g']> heap) = resumen heap.
Proof.
  intros Hg Hc Ha. rewrite resumen_insert. apply list_insert_id.
  rewrite resumen_lookup, Hg, Hc, Ha. reflexivity.
Qed.

(** A method that keeps the chat and the flag of the instance, called on
    the instance at address [a], changes nothing of what the invariant
    reads. *)
Lemma con_gestor_resumen {A} (m : M (St (W:=W)) A) a (r : Registro (W:=W)) :
  (forall c b, preserva (fun s => chat_id (self s) = c /\ activo (self s) = b) m) ->
  chats_activos (snd (con_gestor a m r)) = chats_activos r
  /\ resumen (heap (snd (con_gestor a m r))) = resumen (heap r).
Proof.
  intros Hm. unfold con_gestor. destruct (heap r !! a) as [g|] eqn:Hg.
  - specialize (Hm (chat_id g) (activo g) {| self := g; world := mundo r |}
                   (conj eq_refl eq_refl)).
    destruct (m {| self := g; world := mundo r |}) as [res s].
    cbn [snd heap chats_activos] in *. destruct Hm as (Hc & Ha).
    split; [reflexivity|]. apply (resumen_insert_mismo _ _ g); assumption.
  - split; reflexivity.
Qed.

Lemma agregar_mensaje_mismo update c b :
  preserva (fun s : St (W:=W) => chat_id (self s) = c /\ activo (self s) = b)
           (agregar_mensaje E update).
Proof.
  apply (campos_agregar_mensaje E (fun g => chat_id g = c /\ activo g = b));
    intros; assumption.
Qed.

Lemma en_mundo_registro {A} (m : M (World W) A) (r : Registro (W:=W)) :
  heap (snd (en_mundo m r)) = heap r
  /\ chats_activos (snd (en_mundo m r)) = chats_activos r.
Proof. unfold en_mundo. destruct (m (mundo r)). split; reflexivity. Qed.

(** The constructor builds a live instance of the chat it is given. *)
Lemma GestorChat_init_campos cid (w : World W) :
  match GestorChat_init E cid w with
  | (Ok g, _) => chat_id g = cid /\ activo g = true
  | (Raise _, _) => True
  end.
Proof.
  unfold GestorChat_init. destruct (now E w) as [[t|e] w1]; [|exact I].
  match goal with
  | |- context [cargar_historial ?s0] =>
    pose proof (campos_cargar_historial
                  (fun g => chat_id g = cid /\ activo g = true)
                  (fun g linea H => H) s0 (conj eq_refl eq_refl)) as H;
    destruct (cargar_historial s0) as [[u|e] s]
  end; [exact H|exact I].
Qed.

Lemma revisar_sin_instancia ahora item eliminar (r : Registro (W:=W)) :
  heap r !! item.2 = None ->
  snd (revisar ahora item eliminar r) = r
  /\ exists e, fst (revisar ahora item eliminar r) = Raise e.
Proof.
  intros Hg. unfold revisar. rewrite (bind_ok get_state _ r r r eq_refl).
  rewrite Hg. split; [reflexivity|]. eexists. reflexivity.
Qed.

Lemma borrar_efecto cid (r : Registro (W:=W)) :
  match borrar cid r with
  | (Ok _, r') =>
    heap r' = heap r /\ chats_activos r' = delete cid (chats_activos r)
  | (Raise _, r') => r' = r
  end.
Proof.
  unfold borrar. rewrite (bind_ok get_state _ r r r eq_refl).
  destruct (chats_activos r !! cid); [split|]; reflexivity.
Qed.

(** The program counters of the polling threads after one of them moves. *)
Lemma pc_main_mueve t p (s s' : Sistema (W:=W)) :
  pcs_main s' = <[t := p]> (pcs_main s) ->
  mueve (pc_main s) t p (pc_main s').
Proof.
  intros Hpcs. unfold mueve, pc_main. rewrite Hpcs. split.
  - rewrite lookup_insert_eq. reflexivity.
  - intros t' Hne. rewrite lookup_insert_ne by congruence. reflexivity.
Qed.

Lemma invariante_inicial (w : World W) : invariante (sistema_inicial w).
Proof.
  constructor; cbn.
  - split; [|reflexivity]. intros t. unfold pc_main. cbn.
    rewrite lookup_empty. reflexivity.
  - intros c a H. rewrite lookup_empty in H. discriminate H.
  - intros a c H. discriminate H.
  - intros t. unfold pc_main. cbn. rewrite lookup_empty. exact I.
  - exact I.
Qed.

Lemma invariante_paso_main t update (s : Sistema (W:=W)) :
  invariante s -> invariante (paso_main E t update s).
Proof.
  intros Hinv. unfold paso_main.
  destruct (pc_main s t) as [|u cid|u cid|u cid a|u cid|] eqn:Hpc.
  - (* outside the block *)
    destruct (message update) as [m|]; [|exact Hinv].
    destruct (lock_chats s) eqn:Hlock; [exact Hinv|].
    unfold invariante in *. rewrite Hlock in Hinv.
    apply (inv_main_entra _ _ _ _ _ Hinv t update (id (chat m)));
      [reflexivity|apply pc_main_mueve; reflexivity].
  - (* the membership test *)
    assert (H : invariante
                  (con_pc_main t
                     (match chats_activos (registro s) !! cid with
                      | None => MCrear u cid
                      | Some _ => MEncolar u cid
                      end) s)).
    { apply (inv_main_comprueba _ _ _ _ _ Hinv t u cid); [exact Hpc|].
      apply pc_main_mueve; reflexivity. }
    destruct (chats_activos (registro s) !! cid); exact H.
  - (* the construction *)
    match goal with
    | |- context [en_mundo ?m (registro s)] =>
      pose proof (en_mundo_registro m (registro s)) as (Hheap & Hchats);
      assert (Hinit : match en_mundo m (registro s) with
                      | (Ok g, _) => chat_id g = cid /\ activo g = true
                      | (Raise _, _) => True
                      end);
      [|destruct (en_mundo m (registro s)) as [[g|e] r]]
    end.
    { unfold en_mundo, bind, print, emit, modify. cbn [fst snd].
      match goal with
      | |- context [GestorChat_init E cid ?w0] =>
        pose proof (GestorChat_init_campos cid w0) as Hi;
        destruct (GestorChat_init E cid w0) as [[g|e] w1]
      end; [exact Hi|exact I]. }
    + cbn [snd] in Hheap, Hchats. destruct Hinit as (Hc & Ha).
      unfold invariante.
      cbn [registro lock_chats pc_monitor con_pc_main con_pcs_hilos
           con_registro heap chats_activos].
      unfold resumen. rewrite fmap_app. cbn [fmap list_fmap].
      rewrite Hc, Ha, Hheap, Hchats.
      replace (length (heap (registro s)))
        with (length (resumen (heap (registro s))))
        by (unfold resumen; apply length_fmap).
      apply (inv_main_crea _ _ _ _ _ Hinv t u cid); [exact Hpc|].
      apply pc_main_mueve; reflexivity.
    + cbn [snd] in Hheap, Hchats. unfold main_excepcion.
      match goal with
      | |- context [en_mundo ?m r] =>
        pose proof (en_mundo_registro m r) as (Hheap' & Hchats')
      end.
      unfold invariante.
      cbn [registro lock_chats pc_monitor con_pc_main con_lock con_registro].
      rewrite Hheap', Hchats', Hheap, Hchats.
      apply (inv_main_sale _ _ _ _ _ Hinv t); [congruence|congruence|].
      apply pc_main_mueve; reflexivity.
  - (* the store into the dictionary *)
    unfold invariante.
    cbn [registro lock_chats pc_monitor con_pc_main con_registro heap
         chats_activos].
    apply (inv_main_guarda _ _ _ _ _ Hinv t u cid a); [exact Hpc|].
    apply pc_main_mueve; reflexivity.
  - (* the call of agregar_mensaje *)
    destruct (chats_activos (registro s) !! cid) as [a|].
    + pose proof (con_gestor_resumen (agregar_mensaje E u) a (registro s)
                    (agregar_mensaje_mismo u)) as (Hchats & Hres).
      destruct (con_gestor a (agregar_mensaje E u) (registro s)) as [[[]|e] r];
        cbn [snd] in Hchats, Hres.
      * unfold invariante.
        cbn [registro lock_chats pc_monitor con_pc_main con_registro].
        rewrite Hchats, Hres.
        apply (inv_main_avanza _ _ _ _ _ Hinv t MSoltar);
          [congruence|congruence|reflexivity|].
        apply pc_main_mueve; reflexivity.
      * unfold main_excepcion.
        match goal with
        | |- context [en_mundo ?m r] =>
          pose proof (en_mundo_registro m r) as (Hheap' & Hchats')
        end.
        unfold invariante.
        cbn [registro lock_chats pc_monitor con_pc_main con_lock con_registro].
        rewrite Hheap', Hchats', Hchats, Hres.
        apply (inv_main_sale _ _ _ _ _ Hinv t); [congruence|congruence|].
        apply pc_main_mueve; reflexivity.
    + unfold main_excepcion.
      match goal with
      | |- context [en_mundo ?m (registro s)] =>
        pose proof (en_mundo_registro m (registro s)) as (Hheap' & Hchats')
      end.
      unfold invariante.
      cbn [registro lock_chats pc_monitor con_pc_main con_lock con_registro].
      rewrite Hheap', Hchats'.
      apply (inv_main_sale _ _ _ _ _ Hinv t); [congruence|congruence|].
      apply pc_main_mueve; reflexivity.
  - (* the end of the block *)
    unfold invariante.
    cbn [registro lock_chats pc_monitor con_pc_main con_lock].
    apply (inv_main_sale _ _ _ _ _ Hinv t); [congruence|congruence|].
    apply pc_main_mueve; reflexivity.
Qed.

End PasosConcretos.
Section PasosConcretos2.

Context {W : Type} (E : Collaborators W).

Lemma invariante_paso_monitor (s : Sistema (W:=W)) :
  invariante s -> invariante (paso_monitor E s).
Proof.
  intros Hinv. unfold paso_monitor.
  destruct (pc_monitor s) as [|ahora|ahora [|[c a] resto] eliminar
                              |[|c resto] eliminar|eliminar|] eqn:Hmon.
  - (* sleeping *)
    assert (Hreg : forall r0 : Registro (W:=W),
               heap (snd ((let! _ := en_mundo (emit (ESleep INTERVALO_LIMPIEZA)) in
                           en_mundo (now E)) r0)) = heap r0
               /\ chats_activos
                    (snd ((let! _ := en_mundo (emit (ESleep INTERVALO_LIMPIEZA)) in
                           en_mundo (now E)) r0)) = chats_activos r0).
    { intros r0. unfold bind, en_mundo, emit, modify, now. cbn [fst snd mundo ext].
      destruct (time_time E (ext (mundo r0))). split; reflexivity. }
    destruct (Hreg (registro s)) as (Hheap & Hchats).
    destruct ((let! _ := en_mundo (emit (ESleep INTERVALO_LIMPIEZA)) in
               en_mundo (now E)) (registro s)) as [[ahora|e] r];
      cbn [snd] in Hheap, Hchats; unfold invariante;
      cbn [registro lock_chats pc_monitor pc_main con_pc_monitor con_registro];
      rewrite Hheap, Hchats;
      (apply (inv_monitor_fuera _ _ _ _ _ Hinv);
       [rewrite Hmon; reflexivity|reflexivity]).
  - (* waiting for the lock *)
    destruct (lock_chats s) eqn:Hlock; [exact Hinv|].
    unfold invariante in *. rewrite Hlock in Hinv.
    exact (inv_monitor_entra _ _ _ _ _ Hinv ahora eq_refl).
  - (* the first loop is over *)
    exact (inv_monitor_revisado _ _ _ _ _ Hinv ahora eliminar Hmon).
  - (* one iteration of the first loop *)
    destruct (heap (registro s) !! a) as [g|] eqn:Hg.
    + pose proof (revisar_efecto ahora c a eliminar g (registro s) Hg) as Hrev.
      destruct (inactivo ahora g).
      * destruct Hrev as (w & Hrev & _). rewrite Hrev.
        unfold invariante.
        cbn [registro lock_chats pc_monitor pc_main con_pc_monitor con_registro
             heap chats_activos].
        rewrite resumen_insert. cbn [chat_id activo set_activo].
        apply (inv_monitor_detiene _ _ _ _ _ Hinv ahora c a resto eliminar
                 (chat_id g) (activo g)); [exact Hmon|].
        rewrite resumen_lookup, Hg. reflexivity.
      * rewrite Hrev.
        exact (inv_monitor_pasa _ _ _ _ _ Hinv ahora (c, a) resto eliminar Hmon).
    + destruct (revisar_sin_instancia ahora (c, a) eliminar (registro s) Hg)
        as (Hr & e & He).
      destruct (revisar ahora (c, a) eliminar (registro s)) as [[el|e'] r];
        cbn [fst snd] in Hr, He; [discriminate He|]. subst r.
      apply (inv_monitor_sale _ _ _ _ _ Hinv);
        [rewrite Hmon; reflexivity|reflexivity].
  - (* the second loop is over *)
    apply (inv_monitor_sale _ _ _ _ _ Hinv);
      [rewrite Hmon; reflexivity|reflexivity].
  - (* one iteration of the second loop *)
    pose proof (borrar_efecto c (registro s)) as Hb.
    destruct (borrar c (registro s)) as [[[]|e] r].
    + destruct Hb as (Hheap & Hchats). unfold invariante.
      cbn [registro lock_chats pc_monitor pc_main con_pc_monitor con_registro].
      rewrite Hheap, Hchats.
      exact (inv_monitor_borra _ _ _ _ _ Hinv c resto eliminar Hmon).
    + subst r.
      apply (inv_monitor_sale _ _ _ _ _ Hinv);
        [rewrite Hmon; reflexivity|reflexivity].
  - (* the notice *)
    assert (Hreg : heap (snd (aviso_limpieza eliminar (registro s)))
                   = heap (registro s)
                   /\ chats_activos (snd (aviso_limpieza eliminar (registro s)))
                      = chats_activos (registro s)).
    { unfold aviso_limpieza. destruct eliminar; [split; reflexivity|].
      apply en_mundo_registro. }
    destruct Hreg as (Hheap & Hchats). unfold invariante.
    cbn [registro lock_chats pc_monitor pc_main con_pc_monitor con_registro].
    rewrite Hheap, Hchats.
    apply (inv_monitor_fuera _ _ _ _ _ Hinv);
      [rewrite Hmon; reflexivity|reflexivity].
  - exact Hinv.
Qed.

Lemma invariante_paso_trabajador a (s : Sistema (W:=W)) :
  invariante s -> invariante (paso_trabajador E a s).
Proof.
  intros Hinv. unfold paso_trabajador.
  destruct (heap (registro s) !! a) as [g|] eqn:Hg; [|exact Hinv].
  destruct (pcs_hilos s !! a) as [p|]; [|exact Hinv].
  match goal with
  | |- context [paso_hilo E ?t0] =>
    pose proof (campos_paso_hilo E
                  (fun g' => chat_id g' = chat_id g /\ activo g' = activo g)
                  (fun g0 q H => H) (fun g0 t H => H) (fun g0 l H => H)
                  t0 (conj eq_refl eq_refl)) as (Hc & Ha)
  end.
  unfold invariante.
  cbn [registro lock_chats pc_monitor pc_main con_pcs_hilos con_registro
       heap chats_activos].
  rewrite (resumen_insert_mismo _ _ g _ Hg Hc Ha). exact Hinv.
Qed.

Lemma invariante_paso l (s : Sistema (W:=W)) :
  invariante s -> invariante (paso_sistema E l s).
Proof.
  destruct l as [t update| |a]; cbn [paso_sistema].
  - apply invariante_paso_main.
  - apply invariante_paso_monitor.
  - apply invariante_paso_trabajador.
Qed.

Lemma invariante_ejecutar plan (s : Sistema (W:=W)) :
  invariante s -> invariante (ejecutar_sistema E plan s).
Proof.
  revert s. induction plan as [|l plan IH]; intros s Hinv; [exact Hinv|].
  apply (IH (paso_sistema E l s)), invariante_paso, Hinv.
Qed.

End PasosConcretos2.
Section UnGestor.

Context {W : Type} (E : Collaborators W).

Lemma invariante_bien_formado (s : Sistema (W:=W)) :
  invariante s -> bien_formado (registro s) = true.
Proof.
  intros Hinv. unfold bien_formado. apply forallb_forall.
  intros [c a] Hin. apply list_elem_of_In, elem_of_map_to_list in Hin.
  destruct (inv_reg _ _ _ _ _ Hinv c a Hin) as (b & Hb).
  rewrite resumen_lookup in Hb. unfold entrada_valida. cbn [fst snd].
  destruct (heap (registro s) !! a) as [g|]; [|discriminate Hb].
  injection Hb as Hc _. apply bool_decide_eq_true_2, Hc.
Qed.

(** C1: in every state that the threads of the program can reach, however
    their steps are interleaved (any number of polling threads, the
    cleaning thread, the threads of the workers), two live instances of the
    same chat are the same instance; every entry of the dictionary names an
    instance of its chat; a live instance is the one the dictionary has for
    its chat, or the one that the holder of the lock has just built and is
    about to store; and the blocks under [with lock_chats] exclude each
    other: a thread inside one holds the lock, and no other thread, polling
    or cleaning, is inside one. *)
Theorem un_gestor_por_chat (w : World W) (plan : list Etiqueta) :
  let s := ejecutar_sistema E plan (sistema_inicial w) in
  let r := registro s in
  (forall a1 a2 g1 g2,
      heap r !! a1 = Some g1 -> heap r !! a2 = Some g2 ->
      chat_id g1 = chat_id g2 -> activo g1 = true -> activo g2 = true ->
      a1 = a2)
  /\ (forall c a, chats_activos r !! c = Some a ->
        exists g, heap r !! a = Some g /\ chat_id g = c)
  /\ bien_formado r = true
  /\ (forall a g, heap r !! a = Some g -> activo g = true ->
        chats_activos r !! chat_id g = Some a
        \/ exists t u, pc_main s t = MGuardar u (chat_id g) a)
  /\ (forall t1 t2, pc_main s t1 <> MLibre -> pc_main s t2 <> MLibre -> t1 = t2)
  /\ (forall t, pc_main s t <> MLibre ->
        lock_chats s = Some (HMain t)
        /\ dentro_monitor (pc_monitor s) = false)
  /\ (dentro_monitor (pc_monitor s) = true ->
      lock_chats s = Some HMonitor /\ forall t, pc_main s t = MLibre).
Proof.
  intros s r. subst r.
  assert (Hinv : invariante s)
    by (apply invariante_ejecutar, invariante_inicial).
  assert (Hvista : forall a g, heap (registro s) !! a = Some g ->
             resumen (heap (registro s)) !! a = Some (chat_id g, activo g)).
  { intros a g Hg. rewrite resumen_lookup, Hg. reflexivity. }
  split; [|split; [|split; [|split; [|split; [|split]]]]].
  - intros a1 a2 g1 g2 H1 H2 Hc Ha1 Ha2.
    apply (inv_un_vivo _ _ _ _ _ Hinv a1 a2 (chat_id g1)).
    + rewrite (Hvista _ _ H1), Ha1. reflexivity.
    + rewrite (Hvista _ _ H2), Ha2, Hc. reflexivity.
  - intros c a Hca. destruct (inv_reg _ _ _ _ _ Hinv c a Hca) as (b & Hb).
    rewrite resumen_lookup in Hb.
    destruct (heap (registro s) !! a) as [g|] eqn:Hg; [|discriminate Hb].
    exists g. split; [reflexivity|]. injection Hb as Hc _. exact Hc.
  - apply invariante_bien_formado, Hinv.
  - intros a g Hg Ha.
    apply (inv_live _ _ _ _ _ Hinv a (chat_id g)).
    rewrite (Hvista _ _ Hg), Ha. reflexivity.
  - intros t1 t2 H1 H2.
    destruct (solo_main _ _ _ _ _ Hinv t1 H1) as (_ & Hsolo & _).
    destruct (decide (t2 = t1)) as [->|Hne]; [reflexivity|].
    exfalso. apply H2, Hsolo, Hne.
  - intros t Ht. destruct (solo_main _ _ _ _ _ Hinv t Ht) as (Hl & _ & Hm).
    auto.
  - intros Hd. exact (solo_monitor _ _ _ _ _ Hinv Hd).
Qed.

End UnGestor.

(** Two polling threads receive the first two messages of conversation 42
    at once. Thread 1 takes the lock; thread 2 finds it taken and waits;
    when thread 1 has left, thread 2 finds the instance that thread 1
    created. One instance exists, and its queue holds both updates in the
    order of the lock. *)
Example dos_primeros_contactos :
  let u1 := Escenario.mensaje_texto 1 42 "hola" in
  let u2 := Escenario.mensaje_texto 2 42 "estas ahi" in
  let s := ejecutar_sistema Escenario.colaboradores_hola
             [LMain 1 u1; LMain 2 u2; LMain 1 u1; LMain 2 u2; LMain 1 u1;
              LMain 1 u1; LMain 1 u1; LMain 1 u1;
              LMain 2 u2; LMain 2 u2; LMain 2 u2; LMain 2 u2]
             (sistema_inicial (Escenario.mundo_en 100 Escenario.disco_vacio)) in
  map chat_id (heap (registro s)) = [42%Z]
  /\ map cola_mensajes (heap (registro s)) = [[u1; u2]]
  /\ chats_activos (registro s) !! 42%Z = Some 0
  /\ lock_chats s = None.
Proof. vm_compute. auto. Qed.

(* ===================================================================== *)
(** * More properties of the code *)
(* ===================================================================== *)

(** ** The chunks of a reply, one by one *)

Lemma tail_drop {A} (l : list A) : tail l = drop 1 l.
Proof. destruct l; reflexivity. Qed.

Lemma ultimas_todo {A} (n : nat) (l : list A) : length l <= n -> ultimas n l = l.
Proof. intros H. unfold ultimas. replace (length l - n) with 0 by lia. reflexivity. Qed.

Lemma ultimas_length {A} (n : nat) (l : list A) :
  length (ultimas n l) = Nat.min n (length l).
Proof. unfold ultimas. rewrite length_drop. lia. Qed.

(** Appending to a bounded deque one item after another keeps the last
    [n] items of everything. *)
Lemma deque_append_ultimas {A} (n : nat) (xs : list A) :
  forall d : list A,
    length d <= n ->
    fold_left (fun d x => deque_append n x d) xs d = ultimas n (d ++ xs).
Proof.
  induction xs as [|x xs IH]; intros d Hd.
  - rewrite app_nil_r. symmetry. apply ultimas_todo, Hd.
  - cbn [fold_left]. rewrite IH by (apply deque_append_length, Hd).
    unfold deque_append, ultimas.
    destruct (Nat.ltb_spec n (length (d ++ [x]))) as [Hlt|Hge].
    + rewrite length_app in Hlt. cbn [length] in Hlt.
      rewrite tail_drop.
      replace (drop 1 (d ++ [x]) ++ xs) with (drop 1 ((d ++ [x]) ++ xs))
        by (destruct d; reflexivity).
      rewrite drop_drop, <- app_assoc. cbn [app]. f_equal.
      rewrite length_drop, !length_app. cbn [length]. lia.
    + rewrite <- app_assoc. reflexivity.
Qed.

Section Trozos.

Variable n : nat.
Hypothesis n_pos : 0 < n.

Lemma ceil_div_lt m i : i < ceil_div m n <-> i * n < m.
Proof.
  unfold ceil_div. split.
  - intros H. pose proof (Nat.Div0.mul_div_le (m + n - 1) n). nia.
  - intros H. apply (Nat.div_le_lower_bound (m + n - 1) n (S i)); [lia|nia].
Qed.

End Trozos.

Lemma adecuar_respuesta_indices (r : pystr) :
  adecuar_respuesta r
  = if length r =? 0 then [r]
    else map (fun k => slice (k * LIMITE_TELEGRAM) (k * LIMITE_TELEGRAM + LIMITE_TELEGRAM) r)
             (seq 0 (ceil_div (length r) LIMITE_TELEGRAM)).
Proof.
  pose proof LIMITE_TELEGRAM_pos as Hpos.
  unfold adecuar_respuesta.
  destruct (Nat.ltb_spec (length r) LIMITE_TELEGRAM) as [Hlt|Hge].
  - destruct (Nat.eqb_spec (length r) 0) as [H0|H0]; [reflexivity|].
    rewrite (ceil_div_small _ Hpos). 2:{ apply Nat.lt_le_incl, Hlt. }
    destruct (Nat.eqb_spec (length r) 0); [lia|].
    cbn [seq map]. unfold slice.
    rewrite Nat.mul_0_l, Nat.add_0_l, Nat.sub_0_r. cbn [drop].
    rewrite take_ge by (apply Nat.lt_le_incl, Hlt). reflexivity.
  - destruct (Nat.eqb_spec (length r) 0) as [H0|H0]; [lia|].
    unfold py_range. rewrite (range_from_spec _ Hpos) by lia.
    rewrite Nat.sub_0_r, map_map. reflexivity.
Qed.

Lemma slice_trozo_length {A} (r : list A) i m :
  length (slice i (i + m) r) = Nat.min m (length r - i).
Proof. unfold slice. rewrite length_take, length_drop. lia. Qed.

(** X2: for a reply that is not empty, the chunk at position [i] is the
    slice [r[4000 i : 4000 i + 4000]] when [4000 i < len(r)], and there is
    no chunk at any other position; no chunk is empty, so no empty message
    is sent; and every chunk but the last has exactly 4000 characters. *)
Theorem adecuar_respuesta_trozos (r : pystr) :
  r <> [] ->
  (forall i,
      adecuar_respuesta r !! i
      = if i * LIMITE_TELEGRAM <? length r
        then Some (slice (i * LIMITE_TELEGRAM)
                         (i * LIMITE_TELEGRAM + LIMITE_TELEGRAM) r)
        else None)
  /\ Forall (fun trozo => trozo <> []) (adecuar_respuesta r)
  /\ (forall i trozo,
        adecuar_respuesta r !! i = Some trozo ->
        S i < length (adecuar_respuesta r) ->
        length trozo = LIMITE_TELEGRAM).
Proof.
  intros Hr. pose proof LIMITE_TELEGRAM_pos as Hpos.
  assert (Hlen : length r <> 0) by (destruct r; [congruence|discriminate]).
  assert (Hi : forall i,
             adecuar_respuesta r !! i
             = if i * LIMITE_TELEGRAM <? length r
               then Some (slice (i * LIMITE_TELEGRAM)
                                (i * LIMITE_TELEGRAM + LIMITE_TELEGRAM) r)
               else None).
  { intros i. rewrite adecuar_respuesta_indices.
    destruct (Nat.eqb_spec (length r) 0) as [H0|_]; [contradiction|].
    rewrite list_lookup_fmap.
    destruct (Nat.ltb_spec (i * LIMITE_TELEGRAM) (length r)) as [Hlt|Hge].
    - rewrite lookup_seq_lt by (apply (ceil_div_lt _ Hpos), Hlt). reflexivity.
    - rewrite lookup_seq_ge; [reflexivity|].
      destruct (Nat.le_gt_cases (ceil_div (length r) LIMITE_TELEGRAM) i)
        as [H|H]; [exact H|].
      apply (ceil_div_lt _ Hpos) in H. lia. }
  split; [exact Hi|]. split.
  - apply Forall_lookup. intros i trozo Ht. rewrite Hi in Ht.
    destruct (Nat.ltb_spec (i * LIMITE_TELEGRAM) (length r)) as [Hlt|Hge];
      [|discriminate Ht].
    injection Ht as <-. intros Hnil. apply (f_equal length) in Hnil.
    rewrite slice_trozo_length in Hnil. cbn [length] in Hnil. lia.
  - intros i trozo Ht Hsig.
    apply lookup_lt_is_Some_2 in Hsig. destruct Hsig as (sig & Hsig).
    rewrite Hi in Ht, Hsig.
    destruct (Nat.ltb_spec (i * LIMITE_TELEGRAM) (length r)) as [Hlt|Hge];
      [|discriminate Ht].
    destruct (Nat.ltb_spec (S i * LIMITE_TELEGRAM) (length r)) as [Hlt'|Hge'];
      [|discriminate Hsig].
    injection Ht as <-. rewrite slice_trozo_length. lia.
Qed.

(** ** The history of a new instance and of a conversation *)

Section Constructor.

Context {W : Type} (E : Collaborators W).

(** The loop of [cargar_historial]: the stripped lines go through the
    bounded window one after another. *)
Lemma cargar_lineas_ventana (lineas : list pystr) :
  forall s : St (W:=W),
    for_each lineas (fun linea => memoria_append (strip linea)) s
    = (Ok tt,
       {| self := set_memoria
                    (fold_left (fun d x => deque_append MEMORIA_MAXLEN x d)
                               (map strip lineas) (memoria (self s)))
                    (self s);
          world := world s |}).
Proof.
  induction lineas as [|l lineas IH]; intros s.
  - destruct s as [[] w]. reflexivity.
  - cbn [for_each]. rewrite (bind_ok _ _ _ _ _ (memoria_append_eq _ _)).
    rewrite IH. reflexivity.
Qed.

(** The constructor on a chat that has a history file. *)
Lemma GestorChat_init_con_fichero (cid : Z) (w : World W) contents :
  fs_lookup (fs_files (fs w)) (ruta_historial cid) = Some contents ->
  let reloj := time_time E (ext w) in
  GestorChat_init E cid w
  = (Ok (gestor_nuevo cid (fst reloj)
           (ultimas MEMORIA_MAXLEN (map strip (file_lines contents)))),
     {| ext := snd reloj; fs := fs w; log := log w |}).
Proof.
  intros Hfile reloj. subst reloj.
  unfold GestorChat_init, now. destruct (time_time E (ext w)) as [t x].
  cbn [fst snd]. unfold cargar_historial.
  match goal with
  | |- context [bind get_state ?k ?s0] =>
    rewrite (bind_ok get_state k s0 s0 s0 eq_refl)
  end.
  cbn [self world chat_id fs]. unfold path_exists. rewrite Hfile.
  rewrite orb_true_r, cargar_lineas_ventana.
  cbn [self world memoria set_memoria].
  rewrite deque_append_ultimas by (cbn [length]; lia). reflexivity.
Qed.

(** X3: the constructor reads the clock once and records nothing in the
    trace and writes no file. When the file of the chat exists the new
    instance has an empty queue, the time read as time of last activity,
    its flag up, and as history the last 6 lines of the file, each one
    stripped; when there is neither a file nor a directory of that name the
    history is empty; when the path is a directory the constructor raises. *)
Theorem GestorChat_init_efecto (cid : Z) (w : World W) :
  let ruta := ruta_historial cid in
  let reloj := time_time E (ext w) in
  let w1 := {| ext := snd reloj; fs := fs w; log := log w |} in
  match fs_lookup (fs_files (fs w)) ruta with
  | Some contents =>
    GestorChat_init E cid w
    = (Ok (gestor_nuevo cid (fst reloj)
             (ultimas MEMORIA_MAXLEN (map strip (file_lines contents)))),
       w1)
  | None =>
    if bool_decide (ruta ∈ fs_dirs (fs w))
    then exists e, GestorChat_init E cid w = (Raise e, w1)
    else GestorChat_init E cid w = (Ok (gestor_nuevo cid (fst reloj) []), w1)
  end.
Proof.
  intros ruta reloj w1. subst reloj w1.
  destruct (fs_lookup (fs_files (fs w)) ruta) as [contents|] eqn:Hfile.
  - apply GestorChat_init_con_fichero, Hfile.
  - unfold GestorChat_init, now. destruct (time_time E (ext w)) as [t x].
    cbn [fst snd]. unfold cargar_historial.
    match goal with
    | |- context [bind get_state ?k ?s0] =>
      rewrite (bind_ok get_state k s0 s0 s0 eq_refl)
    end.
    cbn [self world chat_id fs]. unfold path_exists. fold ruta.
    rewrite Hfile, orb_false_r.
    destruct (bool_decide (ruta ∈ fs_dirs (fs w))).
    + eexists. reflexivity.
    + reflexivity.
Qed.

End Constructor.

Lemma anotar_todos_lineas intercambios :
  forall mem,
    anotar_todos intercambios mem
    = fold_left (fun d x => deque_append MEMORIA_MAXLEN x d)
                (transcripcion intercambios) mem.
Proof.
  induction intercambios as [|[q r] resto IH]; intros mem; [reflexivity|].
  unfold anotar_todos, transcripcion in *. cbn [fold_left flat_map].
  rewrite IH. reflexivity.
Qed.

Lemma transcripcion_length intercambios :
  length (transcripcion intercambios) = 2 * length intercambios.
Proof.
  induction intercambios as [|[q r] resto IH]; [reflexivity|].
  unfold transcripcion in *. cbn [flat_map length app]. rewrite IH. lia.
Qed.


(** ** The names of the history files *)

Lemma decode_ascii (s : string) :
  Forall (fun a => (N_of_ascii a <? 128)%N = true) (list_ascii_of_string s) ->
  py s = map N_of_ascii (list_ascii_of_string s).
Proof.
  unfold py. induction s as [|a s IH]; intros H; [reflexivity|].
  cbn [list_ascii_of_string] in H. apply Forall_cons in H as (Ha & Hs).
  cbn [Utf8.decode list_ascii_of_string map]. rewrite Ha, (IH Hs). reflexivity.
Qed.

Lemma string_of_uint_ascii (d : Decimal.uint) :
  Forall (fun a => (N_of_ascii a <? 128)%N = true)
         (list_ascii_of_string (NilEmpty.string_of_uint d)).
Proof.
  induction d; cbn [NilEmpty.string_of_uint list_ascii_of_string];
    [constructor|..]; (constructor; [reflexivity|assumption]).
Qed.

Lemma string_of_int_ascii (z : Z) :
  Forall (fun a => (N_of_ascii a <? 128)%N = true)
         (list_ascii_of_string (NilZero.string_of_int (Z.to_int z))).
Proof.
  assert (Hu : forall d,
             Forall (fun a => (N_of_ascii a <? 128)%N = true)
                    (list_ascii_of_string (NilZero.string_of_uint d))).
  { intros d. destruct d; try apply string_of_uint_ascii.
    repeat constructor. }
  destruct z; cbn [Z.to_int NilZero.string_of_int]; try apply Hu.
  cbn [list_ascii_of_string]. constructor; [reflexivity|apply Hu].
Qed.

(** [str(n)] tells integers apart. *)
Lemma str_of_Z_inj (z1 z2 : Z) : str_of_Z z1 = str_of_Z z2 -> z1 = z2.
Proof.
  unfold str_of_Z. rewrite !decode_ascii by apply string_of_int_ascii.
  intros H. apply to_int_inj.
  assert (Hno : forall z, Z.to_int z <> Decimal.Pos Decimal.Nil
                          /\ Z.to_int z <> Decimal.Neg Decimal.Nil).
  { intros [|p|p]; cbn [Z.to_int]; split; try discriminate;
      intros [= Hp]; exact (Unsigned.to_uint_nonnil p Hp). }
  assert (Hs : NilZero.string_of_int (Z.to_int z1)
               = NilZero.string_of_int (Z.to_int z2)).
  { rewrite <- (string_of_list_ascii_of_string
                  (NilZero.string_of_int (Z.to_int z1))),
      <- (string_of_list_ascii_of_string
            (NilZero.string_of_int (Z.to_int z2))).
    f_equal. revert H.
    generalize (list_ascii_of_string (NilZero.string_of_int (Z.to_int z1))),
      (list_ascii_of_string (NilZero.string_of_int (Z.to_int z2))).
    intros l1. induction l1 as [|a l1 IH]; intros [|b l2] Hl;
      try discriminate Hl; [reflexivity|].
    cbn [map] in Hl. injection Hl as Hab Hl.
    rewrite <- (ascii_N_embedding a), <- (ascii_N_embedding b), Hab.
    f_equal. apply IH, Hl. }
  destruct (Hno z1) as (H1 & H1'), (Hno z2) as (H2 & H2').
  pose proof (NilZero.isi _ H1 H1') as E1.
  pose proof (NilZero.isi _ H2 H2') as E2.
  rewrite Hs in E1. rewrite E1 in E2. injection E2 as E2. exact E2.
Qed.

(** Two chats never share a history file. *)
Lemma ruta_historial_inj (c1 c2 : Z) :
  ruta_historial c1 = ruta_historial c2 -> c1 = c2.
Proof.
  unfold ruta_historial. intros H.
  apply app_inv_head in H. apply app_inv_tail in H.
  apply str_of_Z_inj, H.
Qed.

Section Ajeno.

Context {W : Type} (E : Collaborators W).

Lemma cargar_historial_sin_escrituras disco escritos :
  preserva (fun s : St (W:=W) => disco_intacto disco escritos (world s))
           cargar_historial.
Proof. unfold cargar_historial, memoria_append. sin_escrituras. Qed.

(** The files after [detener]: those there were, with the file of the chat
    created or replaced. *)
Lemma detener_ficheros (s : St (W:=W)) :
  fs_files (fs (world (snd (detener s))))
  = fs_store (fs_files (fs (world s))) (ruta_historial (chat_id (self s)))
             (join [LF] (memoria (self s))).
Proof.
  destruct (guardar_historial_eq
              {| self := set_activo false (self s); world := world s |})
    as (eventos & dirs & Hg & _).
  unfold detener.
  rewrite (bind_ok (on_self (set_activo false)) _ s tt
             {| self := set_activo false (self s); world := world s |} eq_refl).
  rewrite (bind_ok _ _ _ _ _ Hg).
  rewrite (bind_ok get_state _ _ _ _ eq_refl).
  reflexivity.
Qed.

(** X5: no operation of the worker of a chat, whatever the collaborators
    answer, changes the history file of another chat: the names of the
    files of two chats differ, and [guardar_historial] writes the file of
    its own chat only. *)
Theorem historial_ajeno_intacto op (s : St (W:=W)) (c : Z) :
  c <> chat_id (self s) ->
  fs_lookup (fs_files (fs (world (aplicar E op s)))) (ruta_historial c)
  = fs_lookup (fs_files (fs (world s))) (ruta_historial c).
Proof.
  intros Hc.
  assert (Hruta : ruta_historial (chat_id (self s)) <> ruta_historial c)
    by (intros H; apply Hc; symmetry; apply ruta_historial_inj, H).
  assert (Hint : disco_intacto (fs (world s))
                   (ficheros_escritos (log (world s))) (world s))
    by (split; reflexivity).
  destruct op; cbn [aplicar].
  - destruct (cargar_historial_sin_escrituras _ _ s Hint) as (-> & _).
    reflexivity.
  - destruct (guardar_historial_eq s) as (eventos & dirs & -> & _).
    cbn [snd world fs fs_files]. apply fs_lookup_store_otro, Hruta.
  - destruct (agregar_mensaje_sin_escrituras E _ _ update s Hint) as (-> & _).
    reflexivity.
  - destruct (procesar_cola_sin_escrituras E _ _ fuel s Hint) as (-> & _).
    reflexivity.
  - destruct (procesar_cola_get_sin_escrituras _ _ s Hint) as (-> & _).
    reflexivity.
  - destruct (procesar_cola_cuerpo_sin_escrituras E _ _ update s Hint)
      as (-> & _).
    reflexivity.
  - destruct (procesar_update_sin_escrituras E _ _ update s Hint) as (-> & _).
    reflexivity.
  - rewrite detener_ficheros. apply fs_lookup_store_otro, Hruta.
Qed.

End Ajeno.

(** ** Saving the history: the directory, and saving twice *)

Section Guardar.

Context {W : Type}.

Lemma fs_store_idem files ruta contents :
  fs_store (fs_store files ruta contents) ruta contents
  = fs_store files ruta contents.
Proof.
  induction files as [|[p c] files IH]; cbn [fs_store].
  - destruct (decide (ruta = ruta)); [reflexivity|congruence].
  - destruct (decide (p = ruta)) as [->|Hne]; cbn [fs_store].
    + destruct (decide (ruta = ruta)); [reflexivity|congruence].
    + destruct (decide (p = ruta)); [congruence|]. rewrite IH. reflexivity.
Qed.

Lemma ruta_historial_no_chats cid : ruta_historial cid <> py "chats".
Proof.
  intros H. apply (f_equal length) in H. unfold ruta_historial in H.
  rewrite !length_app in H.
  replace (length (py "chats/")) with 6 in H by (vm_compute; reflexivity).
  replace (length (py "chats")) with 5 in H by (vm_compute; reflexivity).
  lia.
Qed.

Lemma guardar_historial_valor (s : St (W:=W)) :
  let hay := path_exists (fs (world s)) (py "chats") in
  let ruta := ruta_historial (chat_id (self s)) in
  let contenido := join [LF] (memoria (self s)) in
  guardar_historial s
  = (Ok tt,
     {| self := self s;
        world :=
          {| ext := ext (world s);
             fs := {| fs_dirs := if hay then fs_dirs (fs (world s))
                                 else fs_dirs (fs (world s)) ++ [py "chats"];
                      fs_files := fs_store (fs_files (fs (world s)))
                                           ruta contenido |};
             log := log (world s)
                    ++ (if hay then [] else [EMakedirs (py "chats")])
                    ++ [EWriteFile ruta contenido] |} |}).
Proof.
  cbv zeta. unfold guardar_historial.
  rewrite (bind_ok get_state _ s s s eq_refl).
  destruct (path_exists (fs (world s)) (py "chats")).
  - reflexivity.
  - unfold bind, lift, emit, on_fs, modify, ret, write_file, makedirs.
    cbn [fst snd world self fs ext log fs_dirs fs_files app].
    rewrite <- app_assoc. reflexivity.
Qed.

(** X6: [guardar_historial], whose writes are taken to succeed, returns
    and leaves the instance as it is; it creates the directory ["chats"] exactly when nothing of that
    name exists, before writing; it replaces the contents of the file of
    the chat with the lines of the history joined by line feeds; after it
    ["chats"] exists; and saving a second time changes neither the files
    nor the directories. *)
Theorem guardar_historial_directorio (s : St (W:=W)) :
  let hay := path_exists (fs (world s)) (py "chats") in
  let ruta := ruta_historial (chat_id (self s)) in
  let contenido := join [LF] (memoria (self s)) in
  let s' := snd (guardar_historial s) in
  guardar_historial s
  = (Ok tt,
     {| self := self s;
        world :=
          {| ext := ext (world s);
             fs := {| fs_dirs := if hay then fs_dirs (fs (world s))
                                 else fs_dirs (fs (world s)) ++ [py "chats"];
                      fs_files := fs_store (fs_files (fs (world s)))
                                           ruta contenido |};
             log := log (world s)
                    ++ (if hay then [] else [EMakedirs (py "chats")])
                    ++ [EWriteFile ruta contenido] |} |})
  /\ path_exists (fs (world s')) (py "chats") = true
  /\ fs (world (snd (guardar_historial s'))) = fs (world s').
Proof.
  cbv zeta. pose proof (guardar_historial_valor s) as Hv. cbv zeta in Hv.
  split; [exact Hv|].
  assert (Hhay : path_exists (fs (world (snd (guardar_historial s))))
                   (py "chats") = true).
  { rewrite Hv. cbn [snd world fs]. unfold path_exists at 1.
    cbn [fs_dirs fs_files].
    rewrite (fs_lookup_store_otro _ _ _ _ (ruta_historial_no_chats _)).
    destruct (path_exists (fs (world s)) (py "chats")) eqn:Hhay.
    - exact Hhay.
    - apply orb_true_iff. left. apply bool_decide_eq_true_2.
      apply elem_of_app. right. apply elem_of_cons. auto. }
  split; [exact Hhay|].
  pose proof (guardar_historial_valor (snd (guardar_historial s))) as Hv2.
  cbv zeta in Hv2. rewrite Hhay in Hv2. rewrite Hv2. cbn [snd world fs].
  rewrite Hv. cbn [snd world fs self fs_dirs fs_files].
  rewrite fs_store_idem. reflexivity.
Qed.

End Guardar.

(** ** The functions that call the services: failures and defaults *)

Section Defectos.

Context {W : Type} (E : Collaborators W).

Lemma detectar_idioma_valor mensaje (w : World W) :
  let r := generate_content E MODELO_IDIOMA (PROMPT_IDIOMA mensaje) None (ext w) in
  detectar_idioma E mensaje w
  = (Ok (idioma_de (fst r)),
     tras w (snd r) [EGenerateContent MODELO_IDIOMA (PROMPT_IDIOMA mensaje) None]).
Proof.
  intros r. subst r. unfold MODELO_IDIOMA, PROMPT_IDIOMA.
  unfold detectar_idioma, try_except, bind, client_generate_content.
  rewrite call_eq.
  destruct (generate_content E _ _ None (ext w)) as [[texto|e] x]; reflexivity.
Qed.

Lemma PROMPT_IDIOMA_length mensaje :
  length (PROMPT_IDIOMA mensaje) = 71 + Nat.min 50 (length mensaje).
Proof.
  unfold PROMPT_IDIOMA, prefix_slice. rewrite length_app, length_take.
  f_equal; vm_compute; reflexivity.
Qed.


End Defectos.

(** The entry of a table at a position is one of its values. *)
Ltac en_posicion i := apply (list_elem_of_lookup_2 _ i); reflexivity.

Lemma voz_de_tabla idioma :
  voz_de idioma ∈ voces.*2
  /\ (idioma ∉ voces.*1 -> voz_de idioma = VOZ_POR_DEFECTO).
Proof.
  unfold voz_de, VOZ_POR_DEFECTO, voces. cbn [dict_get_default].
  destruct (decide (py "es" = idioma)) as [<-|_];
    [split; [en_posicion 0|reflexivity]|].
  destruct (decide (py "en" = idioma)) as [<-|_];
    [split; [en_posicion 1|intros H; exfalso; apply H; en_posicion 1]|].
  destruct (decide (py "fr" = idioma)) as [<-|_];
    [split; [en_posicion 2|intros H; exfalso; apply H; en_posicion 2]|].
  destruct (decide (py "de" = idioma)) as [<-|_];
    [split; [en_posicion 3|intros H; exfalso; apply H; en_posicion 3]|].
  destruct (decide (py "it" = idioma)) as [<-|_];
    [split; [en_posicion 4|intros H; exfalso; apply H; en_posicion 4]|].
  split; [en_posicion 0|reflexivity].
Qed.

Lemma idioma_largo_tabla idioma :
  idioma_largo idioma ∈ voces_largo.*2
  /\ (idioma ∉ voces_largo.*1 -> idioma_largo idioma = py "ESPAÑOL").
Proof.
  unfold idioma_largo, voces_largo. cbn [dict_get_default].
  destruct (decide (py "es" = idioma)) as [<-|_];
    [split; [en_posicion 0|reflexivity]|].
  destruct (decide (py "en" = idioma)) as [<-|_];
    [split; [en_posicion 1|intros H; exfalso; apply H; en_posicion 1]|].
  destruct (decide (py "fr" = idioma)) as [<-|_];
    [split; [en_posicion 2|intros H; exfalso; apply H; en_posicion 2]|].
  destruct (decide (py "de" = idioma)) as [<-|_];
    [split; [en_posicion 3|intros H; exfalso; apply H; en_posicion 3]|].
  destruct (decide (py "it" = idioma)) as [<-|_];
    [split; [en_posicion 4|intros H; exfalso; apply H; en_posicion 4]|].
  split; [en_posicion 0|reflexivity].
Qed.

Section Valores.

Context {W : Type} (E : Collaborators W).

Lemma voz_de_es : voz_de (py "es") = VOZ_POR_DEFECTO.
Proof. vm_compute. reflexivity. Qed.

Lemma idioma_largo_es : idioma_largo (py "es") = py "ESPAÑOL".
Proof. vm_compute. reflexivity. Qed.

Lemma response_openweb_lectura_valor mensaje (w : World W) :
  let deteccion :=
    generate_content E MODELO_IDIOMA (PROMPT_IDIOMA mensaje) None (ext w) in
  let voz := voz_de (idioma_de (fst deteccion)) in
  let peticion := post_speech E (URL_LECTURA E) mensaje voz (snd deteccion) in
  response_openweb_lectura E mensaje w
  = (Ok (audio_de (fst peticion)),
     tras w (snd peticion)
          [EGenerateContent MODELO_IDIOMA (PROMPT_IDIOMA mensaje) None;
           EPostSpeech (URL_LECTURA E) mensaje voz]).
Proof.
  cbv zeta. unfold response_openweb_lectura.
  rewrite (bind_ok _ _ _ _ _ (detectar_idioma_valor E mensaje w)).
  unfold URL_LECTURA, voz_de, VOZ_POR_DEFECTO, try_except, bind.
  rewrite call_eq. cbn [ext tras].
  destruct (post_speech E _ mensaje _ _) as [[audio|e] x2];
    cbn [fst snd audio_de]; unfold ret, tras; cbn [fs log ext];
    rewrite <- app_assoc; reflexivity.
Qed.

Lemma response_gemini_valor mensaje historial (w : World W) :
  let deteccion :=
    generate_content E MODELO_IDIOMA (PROMPT_IDIOMA mensaje) None (ext w) in
  let contents :=
    prompt_completo (idioma_de (fst deteccion)) historial mensaje in
  let generado :=
    generate_content E MODELO_RESPUESTA contents (Some (FILESEARCHSTORE E))
                     (snd deteccion) in
  response_gemini_consulta_documentos E mensaje historial w
  = (Ok (respuesta_de (fst generado)),
     tras w (snd generado)
          [EGenerateContent MODELO_IDIOMA (PROMPT_IDIOMA mensaje) None;
           EGenerateContent MODELO_RESPUESTA contents
                            (Some (FILESEARCHSTORE E))]).
Proof.
  cbv zeta. unfold response_gemini_consulta_documentos.
  rewrite (bind_ok _ _ _ _ _ (detectar_idioma_valor E mensaje w)).
  unfold MODELO_RESPUESTA, try_except, client_generate_content.
  rewrite call_eq. cbn [ext tras].
  destruct (generate_content E (py "gemini-2.5-flash") _ _ _) as [[texto|e] x2];
    cbn [fst snd respuesta_de]; unfold ret, tras; cbn [fs log ext];
    rewrite <- app_assoc; reflexivity.
Qed.

(** X9: [response_openweb_lectura] never raises: after the language
    detection it makes one request for the whole message, and returns the
    audio, or [None] when the request raises. The voice asked for is always
    one of the five of [voces]; it is the Spanish voice when the detected
    code is not in the table, and when the detection itself failed. *)
Theorem response_openweb_lectura_voz mensaje (w : World W) :
  let deteccion :=
    generate_content E MODELO_IDIOMA (PROMPT_IDIOMA mensaje) None (ext w) in
  let idioma := idioma_de (fst deteccion) in
  let peticion :=
    post_speech E (URL_LECTURA E) mensaje (voz_de idioma) (snd deteccion) in
  response_openweb_lectura E mensaje w
  = (Ok (audio_de (fst peticion)),
     tras w (snd peticion)
          [EGenerateContent MODELO_IDIOMA (PROMPT_IDIOMA mensaje) None;
           EPostSpeech (URL_LECTURA E) mensaje (voz_de idioma)])
  /\ voz_de idioma ∈ voces.*2
  /\ (idioma ∉ voces.*1 -> voz_de idioma = VOZ_POR_DEFECTO)
  /\ (forall e, fst deteccion = Raise e -> voz_de idioma = VOZ_POR_DEFECTO).
Proof.
  intros deteccion idioma peticion.
  split; [apply response_openweb_lectura_valor|].
  split; [apply voz_de_tabla|]. split; [apply voz_de_tabla|].
  intros e He. subst idioma. rewrite He. apply voz_de_es.
Qed.

(** X8: [response_gemini_consulta_documentos] never raises: after the
    language detection it makes one call to gemini-2.5-flash with the File
    Search store, and returns what the model generated, or the apology
    followed by the text of the exception. The language named in the prompt
    is always one of the five of [voces_largo]; when the detected code is
    not in the table, and when the detection itself failed, the prompt is
    the one for Spanish. *)
Theorem response_gemini_idioma mensaje historial (w : World W) :
  let deteccion :=
    generate_content E MODELO_IDIOMA (PROMPT_IDIOMA mensaje) None (ext w) in
  let idioma := idioma_de (fst deteccion) in
  let contents := prompt_completo idioma historial mensaje in
  let generado :=
    generate_content E MODELO_RESPUESTA contents (Some (FILESEARCHSTORE E))
                     (snd deteccion) in
  response_gemini_consulta_documentos E mensaje historial w
  = (Ok (respuesta_de (fst generado)),
     tras w (snd generado)
          [EGenerateContent MODELO_IDIOMA (PROMPT_IDIOMA mensaje) None;
           EGenerateContent MODELO_RESPUESTA contents
                            (Some (FILESEARCHSTORE E))])
  /\ idioma_largo idioma ∈ voces_largo.*2
  /\ (idioma ∉ voces_largo.*1 ->
      contents = prompt_completo (py "es") historial mensaje)
  /\ (forall e, fst deteccion = Raise e ->
      contents = prompt_completo (py "es") historial mensaje).
Proof.
  intros deteccion idioma contents generado.
  split; [apply response_gemini_valor|].
  split; [apply idioma_largo_tabla|]. split.
  - intros Hno. destruct (idioma_largo_tabla idioma) as (_ & Hd).
    specialize (Hd Hno). pose proof idioma_largo_es as Hes.
    subst contents. unfold prompt_completo. unfold idioma_largo in Hd, Hes.
    rewrite Hd, Hes. reflexivity.
  - intros e He. subst contents idioma. rewrite He. reflexivity.
Qed.

End Valores.

(** ** [procesar_update], effect by effect *)

Section Traza.

Context {W : Type} (E : Collaborators W).

(** The second block of [procesar_update] when it runs to its end: what it
    does, in order. *)
Lemma responder_traza cid q (s : St (W:=W)) :
  fst (responder E cid q s) = Ok tt ->
  let deteccion :=
    generate_content E MODELO_IDIOMA (PROMPT_IDIOMA q) None (ext (world s)) in
  let contents :=
    prompt_completo (idioma_de (fst deteccion))
                    (join [LF] (memoria (self s))) q in
  let generado :=
    generate_content E MODELO_RESPUESTA contents (Some (FILESEARCHSTORE E))
                     (snd deteccion) in
  let r := respuesta_de (fst generado) in
  exists x3 x,
    let deteccion' :=
      generate_content E MODELO_IDIOMA (PROMPT_IDIOMA r) None x3 in
    let voz := voz_de (idioma_de (fst deteccion')) in
    let peticion := post_speech E (URL_LECTURA E) r voz (snd deteccion') in
    snd (responder E cid q s)
    = estado_tras s (set_memoria (anotar q r (memoria (self s))) (self s)) x
        ([EGenerateContent MODELO_IDIOMA (PROMPT_IDIOMA q) None;
          EGenerateContent MODELO_RESPUESTA contents (Some (FILESEARCHSTORE E))]
         ++ map (ESendMessage cid) (adecuar_respuesta r)
         ++ [EGenerateContent MODELO_IDIOMA (PROMPT_IDIOMA r) None;
             EPostSpeech (URL_LECTURA E) r voz]
         ++ audio_a_enviar cid (audio_de (fst peticion))
         ++ [EPrint (AVISO_ENVIADA cid)]).
Proof.
  intros Hok. cbv zeta.
  set (deteccion := generate_content E MODELO_IDIOMA (PROMPT_IDIOMA q) None
                      (ext (world s))) in *.
  set (contents := prompt_completo (idioma_de (fst deteccion))
                     (join [LF] (memoria (self s))) q) in *.
  set (generado := generate_content E MODELO_RESPUESTA contents
                     (Some (FILESEARCHSTORE E)) (snd deteccion)) in *.
  set (r := respuesta_de (fst generado)) in *.
  pose proof (response_gemini_valor E q (join [LF] (memoria (self s))) (world s))
    as Hresp.
  cbv zeta in Hresp. fold deteccion contents generado r in Hresp.
  unfold responder in *.
  rewrite (bind_ok get_state _ s s s eq_refl) in *.
  rewrite (bind_ok _ _ _ _ _ (lift_eq _ _ _ _ Hresp)) in *.
  rewrite (bind_ok _ _ _ _ _ (memoria_append_eq _ _)) in *.
  rewrite (bind_ok _ _ _ _ _ (memoria_append_eq _ _)) in *.
  cbn [self world memoria set_memoria] in *.
  match type of Hok with
  | context [bind (for_each ?partes ?f) ?cont ?s3] =>
    destruct (enviar_partes E cid partes s3) as (k & x3 & Hs & Hk & _ & Hk');
    destruct (for_each partes f s3) as [[[]|e] s4] eqn:Hfe
  end; cbn [fst snd] in Hs, Hk'; subst s4;
    [rewrite (bind_ok _ _ _ _ _ Hfe) in *
    |rewrite (bind_raise _ _ _ _ _ Hfe) in Hok; discriminate Hok].
  rewrite (Hk' eq_refl), firstn_all in *. clear Hk Hk' Hfe k.
  exists x3.
  match type of Hok with
  | context [bind (lift (response_openweb_lectura E r)) _ ?s5] =>
    pose proof (response_openweb_lectura_valor E r (world s5)) as Hlec
  end.
  cbv zeta in Hlec.
  rewrite (bind_ok _ _ _ _ _ (lift_eq _ _ _ _ Hlec)) in *. clear Hlec.
  cbn [estado_tras world tras ext self] in *.
  set (deteccion' := generate_content E MODELO_IDIOMA (PROMPT_IDIOMA r) None x3)
    in *.
  set (voz := voz_de (idioma_de (fst deteccion'))) in *.
  set (peticion := post_speech E (URL_LECTURA E) r voz (snd deteccion')) in *.
  unfold AVISO_ENVIADA.
  destruct (audio_de (fst peticion)) as [[|b bs]|]; cbn [audio_a_enviar].
  - exists (snd peticion). unfold bind, ret, lift, print, emit, modify.
    cbn [fst snd world self]. unfold estado_tras, tras. cbn [self world ext fs log].
    rewrite <- !app_assoc. reflexivity.
  - unfold bind, lift, call in *. cbn [world tras ext] in *.
    destruct (sendAudio E cid (b :: bs) (snd peticion)) as [[[]|e] x5];
      cbn [fst snd] in *; [|discriminate Hok].
    exists x5. unfold ret, print, emit, modify.
    cbn [fst snd world self]. unfold estado_tras, tras. cbn [self world ext fs log].
    rewrite <- !app_assoc. reflexivity.
  - exists (snd peticion). unfold bind, ret, lift, print, emit, modify.
    cbn [fst snd world self]. unfold estado_tras, tras. cbn [self world ext fs log].
    rewrite <- !app_assoc. reflexivity.
Qed.

End Traza.

Section Cuerpo.

Context {W : Type} (E : Collaborators W).

Lemma procesar_update_chat_id update (s : St (W:=W)) :
  chat_id (self (snd (procesar_update E update s))) = chat_id (self s).
Proof.
  apply (campos_procesar_update E (fun g => chat_id g = chat_id (self s)));
    [intros g linea H; exact H|reflexivity].
Qed.

(** What the body of the loop does around [procesar_update]. *)
Lemma procesar_cola_cuerpo_valor update (s : St (W:=W)) :
  let res := procesar_update E update s in
  let aviso := match fst res with
               | Ok _ => []
               | Raise e => [EPrint (AVISO_ERROR (chat_id (self s)) e)]
               end in
  let reloj := time_time E (ext (world (snd res))) in
  procesar_cola_cuerpo E update s
  = (Ok tt,
     {| self := set_ultima_actividad (fst reloj) (self (snd res));
        world := {| ext := snd reloj; fs := fs (world (snd res));
                    log := log (world (snd res)) ++ aviso |} |}).
Proof.
  cbv zeta. pose proof (procesar_update_chat_id update s) as Hcid.
  unfold procesar_cola_cuerpo, try_finally, try_except, AVISO_ERROR.
  destruct (procesar_update E update s) as [[[]|e] s1]; cbn [fst snd] in *.
  - unfold bind, lift, now, on_self, modify. cbn [world self].
    destruct (time_time E (ext (world s1))) as [t x]. cbn [fst snd world self].
    rewrite app_nil_r. reflexivity.
  - unfold bind, get_state, lift, print, emit, modify, now, on_self.
    cbn [fst snd world self ext fs log]. rewrite Hcid.
    destruct (time_time E (ext (world s1))) as [t x]. reflexivity.
Qed.

(** X12: the body of the loop of the worker never raises, whatever
    [procesar_update] does: when [procesar_update] raises [e] the line
    "Error en chat <id>: <e>" is printed and nothing else; in every case
    the clock is read after the processing and becomes the time of last
    activity; and the flag, the queue and the chat of the instance are as
    [procesar_update] found them. *)
Theorem procesar_cola_cuerpo_robusto update (s : St (W:=W)) :
  let res := procesar_update E update s in
  let aviso := match fst res with
               | Ok _ => []
               | Raise e => [EPrint (AVISO_ERROR (chat_id (self s)) e)]
               end in
  let reloj := time_time E (ext (world (snd res))) in
  procesar_cola_cuerpo E update s
  = (Ok tt,
     {| self := set_ultima_actividad (fst reloj) (self (snd res));
        world := {| ext := snd reloj; fs := fs (world (snd res));
                    log := log (world (snd res)) ++ aviso |} |})
  /\ activo (self (snd (procesar_cola_cuerpo E update s))) = activo (self s)
  /\ cola_mensajes (self (snd (procesar_cola_cuerpo E update s)))
     = cola_mensajes (self s)
  /\ chat_id (self (snd (procesar_cola_cuerpo E update s))) = chat_id (self s).
Proof.
  cbv zeta. split; [apply procesar_cola_cuerpo_valor|].
  split; [|split].
  - apply (campos_procesar_cola_cuerpo E (fun g => activo g = activo (self s)));
      [intros g t H; exact H|intros g l H; exact H|reflexivity].
  - apply (campos_procesar_cola_cuerpo E
             (fun g => cola_mensajes g = cola_mensajes (self s)));
      [intros g t H; exact H|intros g l H; exact H|reflexivity].
  - apply (campos_procesar_cola_cuerpo E (fun g => chat_id g = chat_id (self s)));
      [intros g t H; exact H|intros g l H; exact H|reflexivity].
Qed.

(** [obt_audio]: the request for the file is made only when [getFile]
    returned its path. *)
Lemma obt_audio_valor fid (w : World W) :
  let fichero := getFile E fid (ext w) in
  obt_audio E fid w
  = match fst fichero with
    | Ok file_path =>
      let descarga := requests_get E (URL_FICHERO E file_path) (snd fichero) in
      (fst descarga,
       tras w (snd descarga)
            [EGetFile fid; ERequestsGet (URL_FICHERO E file_path)])
    | Raise e => (Raise e, tras w (snd fichero) [EGetFile fid])
    end.
Proof.
  cbv zeta. unfold obt_audio, URL_FICHERO, bind. rewrite call_eq.
  destruct (getFile E fid (ext w)) as [[file_path|e] x1]; cbn [fst snd].
  - rewrite call_eq. cbn [ext tras fs log]. unfold tras. cbn [fs log].
    rewrite <- app_assoc. reflexivity.
  - reflexivity.
Qed.

(** X11: when the audio of a message cannot be fetched ([obt_audio]
    raises [e], in [getFile] or in the download), [procesar_update] raises
    [e] with the instance untouched: nothing is transcribed, the generation
    model is not called, the history does not change, and no text and no
    audio is sent. The body of the loop catches the exception, prints
    "Error en chat <id>: <e>", sets the time of last activity and returns,
    so that the only lines printed are the first print of the method and
    that one. *)
Theorem procesar_update_descarga_fallida (s : St (W:=W)) update msg e w1 :
  message update = Some msg ->
  truthy_obj (audio msg) || truthy_obj (voice msg) = true ->
  obt_audio E (file_id_de msg) (world (tras_aviso s)) = (Raise e, w1) ->
  let reloj := time_time E (ext w1) in
  procesar_update E update s = (Raise e, {| self := self s; world := w1 |})
  /\ procesar_cola_cuerpo E update s
     = (Ok tt,
        {| self := set_ultima_actividad (fst reloj) (self s);
           world := {| ext := snd reloj; fs := fs (world s);
                       log := log w1
                              ++ [EPrint (AVISO_ERROR (chat_id (self s)) e)] |} |})
  /\ mensajes_enviados (log w1) = mensajes_enviados (log (world s))
  /\ audios_enviados (log w1) = audios_enviados (log (world s))
  /\ consultas_generacion (log w1) = consultas_generacion (log (world s))
  /\ impresos (log w1)
     = impresos (log (world s)) ++ [AVISO_PROCESANDO (chat_id (self s))].
Proof.
  intros Hmsg Haud Hobt reloj. subst reloj.
  assert (Hrun : procesar_update E update s
                 = (Raise e, {| self := self s; world := w1 |})).
  { rewrite (procesar_update_con_mensaje E _ _ _ Hmsg).
    pose proof (obtener_pregunta_audio E msg (tras_aviso s) Haud) as Hq.
    rewrite Hobt in Hq. rewrite (bind_raise _ _ _ _ _ Hq). reflexivity. }
  split; [exact Hrun|].
  pose proof (procesar_cola_cuerpo_valor update s) as Hc. cbv zeta in Hc.
  rewrite Hrun in Hc. cbn [fst snd self world] in Hc.
  pose proof (obt_audio_valor (file_id_de msg) (world (tras_aviso s))) as Hv.
  cbv zeta in Hv. rewrite Hobt in Hv.
  assert (Hw1 : fs w1 = fs (world s)
                /\ exists otros,
                     log w1 = log (world s)
                              ++ EPrint (AVISO_PROCESANDO (chat_id (self s)))
                                 :: EGetFile (file_id_de msg) :: otros
                     /\ (otros = [] \/ exists url, otros = [ERequestsGet url])).
  { destruct (fst (getFile E (file_id_de msg) (ext (world (tras_aviso s)))))
      as [file_path|e'].
    - injection Hv as _ ->. split; [reflexivity|].
      eexists. split; [unfold tras, tras_aviso; cbn [log world];
                       rewrite <- app_assoc; reflexivity|].
      right. eexists. reflexivity.
    - injection Hv as _ ->. split; [reflexivity|].
      exists []. split; [unfold tras, tras_aviso; cbn [log world];
                         rewrite <- app_assoc; reflexivity|].
      left. reflexivity. }
  destruct Hw1 as (Hfs & otros & Hlog & Hotros).
  split; [rewrite Hc, Hfs; reflexivity|].
  rewrite Hlog.
  rewrite mensajes_enviados_app, consultas_generacion_app.
  assert (Hap : forall l1 l2, audios_enviados (l1 ++ l2)
                              = audios_enviados l1 ++ audios_enviados l2).
  { intros l1 l2. induction l1 as [|ev l1 IH]; [reflexivity|].
    destruct ev; cbn [app audios_enviados]; rewrite ?IH; reflexivity. }
  assert (Hip : forall l1 l2, impresos (l1 ++ l2) = impresos l1 ++ impresos l2).
  { intros l1 l2. induction l1 as [|ev l1 IH]; [reflexivity|].
    destruct ev; cbn [app impresos]; rewrite ?IH; reflexivity. }
  rewrite Hap, Hip.
  destruct Hotros as [->|(url & ->)];
    cbn [mensajes_enviados consultas_generacion audios_enviados impresos app];
    rewrite ?app_nil_r; auto.
Qed.

End Cuerpo.

Section TrazaUpdate.

Context {W : Type} (E : Collaborators W).

(** X10: when [procesar_update] returns for an update with query [q],
    what it has done after obtaining the query is, in this order: the
    language detection on the query; one call to the generation model with
    the prompt built from the history as it was before the exchange; one
    text message to the chat of the worker for each chunk of the reply, in
    order; the language detection on the reply; one request to the speech
    service for the whole reply; one audio message, only if the request
    returned bytes and they are not empty; and the last print. The history
    has received the two lines of the exchange. *)
Theorem procesar_update_traza (s : St (W:=W)) update msg q sq :
  message update = Some msg ->
  obtener_pregunta E msg (tras_aviso s) = (Ok (Some q), sq) ->
  fst (procesar_update E update s) = Ok tt ->
  let cid := chat_id (self s) in
  let deteccion :=
    generate_content E MODELO_IDIOMA (PROMPT_IDIOMA q) None (ext (world sq)) in
  let contents :=
    prompt_completo (idioma_de (fst deteccion))
                    (join [LF] (memoria (self s))) q in
  let generado :=
    generate_content E MODELO_RESPUESTA contents (Some (FILESEARCHSTORE E))
                     (snd deteccion) in
  let r := respuesta_de (fst generado) in
  exists x3,
    let deteccion' :=
      generate_content E MODELO_IDIOMA (PROMPT_IDIOMA r) None x3 in
    let voz := voz_de (idioma_de (fst deteccion')) in
    let peticion := post_speech E (URL_LECTURA E) r voz (snd deteccion') in
    log (world (snd (procesar_update E update s)))
    = log (world sq)
      ++ [EGenerateContent MODELO_IDIOMA (PROMPT_IDIOMA q) None;
          EGenerateContent MODELO_RESPUESTA contents (Some (FILESEARCHSTORE E))]
      ++ map (ESendMessage cid) (adecuar_respuesta r)
      ++ [EGenerateContent MODELO_IDIOMA (PROMPT_IDIOMA r) None;
          EPostSpeech (URL_LECTURA E) r voz]
      ++ audio_a_enviar cid (audio_de (fst peticion))
      ++ [EPrint (AVISO_ENVIADA cid)]
    /\ self (snd (procesar_update E update s))
       = set_memoria (anotar q r (memoria (self s))) (self s).
Proof.
  intros Hmsg Hq Hok.
  destruct (procesar_update_con_pregunta E s update msg q sq Hmsg Hq)
    as (Hrun & x0 & ev0 & Hsq & _).
  rewrite Hrun in Hok |- *.
  destruct (responder_traza E (chat_id (self s)) q sq Hok) as (x3 & x & Hs).
  cbv zeta in Hs |- *. exists x3. rewrite Hs.
  assert (Hself : self sq = self s) by (rewrite Hsq; reflexivity).
  rewrite Hself. split; reflexivity.
Qed.

End TrazaUpdate.

(** ** The loop of a worker run alone *)

Section Bucle.

Context {W : Type} (E : Collaborators W).

Lemma procesar_cola_activo (fuel : nat) :
  forall s : St (W:=W),
    activo (self s) = true ->
    fst (procesar_cola E fuel s) = Ok SinCombustible
    /\ activo (self (snd (procesar_cola E fuel s))) = true
    /\ cola_mensajes (self (snd (procesar_cola E fuel s)))
       = drop fuel (cola_mensajes (self s)).
Proof.
  induction fuel as [|fuel IH]; intros s Hact.
  - cbn [procesar_cola]. unfold ret. cbn [fst snd drop]. auto.
  - cbn [procesar_cola]. pose proof (procesar_cola_get_eq s) as Hget.
    rewrite Hact in Hget.
    destruct (cola_mensajes (self s)) as [|update resto] eqn:Hcola.
    + rewrite (bind_ok _ _ _ _ _ Hget).
      destruct (IH s Hact) as (H1 & H2 & H3).
      rewrite H1, H2, H3, Hcola, drop_nil. auto.
    + rewrite (bind_ok _ _ _ _ _ Hget).
      set (s1 := {| self := set_cola resto (self s); world := world s |}).
      pose proof (procesar_cola_cuerpo_ok E update s1) as Hok.
      destruct (procesar_cola_cuerpo_cola E update s1) as (Hq & Ha).
      destruct (procesar_cola_cuerpo E update s1) as [[[]|e] s2] eqn:Hc;
        cbn [fst snd] in *; [|discriminate Hok].
      rewrite (bind_ok _ _ _ _ _ Hc).
      destruct (IH s2) as (H1 & H2 & H3); [rewrite Ha; exact Hact|].
      rewrite H1, H2, H3, Hq. auto.
Qed.

(** X13: the loop of a worker that is left alone ends exactly when the
    flag [activo] is down. While the flag is up a run of any length does
    not end, keeps the flag up, and takes one update from the queue at each
    turn as long as there is one; with the flag down, and so after
    [detener], the loop ends at its next turn without touching the
    instance: the updates still in the queue are not processed. *)
Theorem procesar_cola_fin (fuel : nat) (s : St (W:=W)) :
  (if activo (self s) then
     fst (procesar_cola E fuel s) = Ok SinCombustible
     /\ activo (self (snd (procesar_cola E fuel s))) = true
     /\ cola_mensajes (self (snd (procesar_cola E fuel s)))
        = drop fuel (cola_mensajes (self s))
   else procesar_cola E (S fuel) s = (Ok Terminado, s))
  /\ procesar_cola E (S fuel) (snd (detener s))
     = (Ok Terminado, snd (detener s)).
Proof.
  assert (Hfin : forall s0 : St (W:=W),
             activo (self s0) = false ->
             procesar_cola E (S fuel) s0 = (Ok Terminado, s0)).
  { intros s0 H0. cbn [procesar_cola]. pose proof (procesar_cola_get_eq s0) as Hget.
    rewrite H0 in Hget. rewrite (bind_ok _ _ _ _ _ Hget). reflexivity. }
  split.
  - destruct (activo (self s)) eqn:Hact.
    + apply procesar_cola_activo, Hact.
    + apply Hfin, Hact.
  - apply Hfin. destruct (detener_efecto s) as (w & -> & _). reflexivity.
Qed.

End Bucle.

(** ** A worker replies to its own chat only *)

Lemma destinatarios_app l1 l2 :
  destinatarios (l1 ++ l2) = destinatarios l1 ++ destinatarios l2.
Proof.
  induction l1 as [|e l1 IH]; [reflexivity|].
  destruct e; cbn [app destinatarios]; rewrite ?IH; reflexivity.
Qed.

Section AlChat.

Context {W : Type} (E : Collaborators W).

Variable c : Z.
Variable base : list Z.

Lemma solo_al_chat_log (w w' : World W) e :
  destinatarios [e] = [] \/ destinatarios [e] = [c] ->
  log w' = log w ++ [e] ->
  solo_al_chat c base w -> solo_al_chat c base w'.
Proof.
  intros He Hlog (nuevos & Hd & Hall). unfold solo_al_chat.
  rewrite Hlog, destinatarios_app, Hd.
  destruct He as [->| ->].
  - exists nuevos. rewrite app_nil_r. auto.
  - exists (nuevos ++ [c]). rewrite app_assoc. split; [reflexivity|].
    apply Forall_app. split; [exact Hall|]. constructor; [reflexivity|constructor].
Qed.

Lemma solo_al_chat_call {A} (e : Event) (oracle : W -> result A * W) :
  destinatarios [e] = [] \/ destinatarios [e] = [c] ->
  preserva (solo_al_chat c base) (call e oracle).
Proof.
  intros He w Hw. rewrite call_eq. cbn [snd].
  apply (solo_al_chat_log w _ e He); [reflexivity|exact Hw].
Qed.

Lemma solo_al_chat_emit (e : Event) :
  destinatarios [e] = [] \/ destinatarios [e] = [c] ->
  preserva (solo_al_chat c base) (emit (W:=W) e).
Proof.
  intros He w Hw. apply (solo_al_chat_log w _ e He); [reflexivity|exact Hw].
Qed.

Lemma solo_al_chat_now : preserva (solo_al_chat c base) (now E).
Proof. intros w Hw. unfold now. destruct (time_time E (ext w)). exact Hw. Qed.

Lemma solo_al_chat_on_fs f : preserva (solo_al_chat c base) (on_fs (W:=W) f).
Proof. intros w Hw. exact Hw. Qed.

Lemma trabaja_para_lift {A} (m : M (World W) A) :
  preserva (solo_al_chat c base) m -> preserva (trabaja_para c base) (lift m).
Proof.
  intros Hm s (Hc & Hs). unfold lift. specialize (Hm (world s) Hs).
  destruct (m (world s)). split; [exact Hc|exact Hm].
Qed.

Lemma trabaja_para_on_self f :
  (forall g, chat_id (f g) = chat_id g) ->
  preserva (trabaja_para c base) (on_self (W:=W) f).
Proof.
  intros Hf s (Hc & Hs). split; [|exact Hs].
  cbn [snd on_self modify self]. rewrite Hf. exact Hc.
Qed.

End AlChat.

Ltac al_chat :=
  preserva_estructura;
  try lazymatch goal with
      | |- preserva _ (lift _) =>
        apply trabaja_para_lift; preserva_estructura;
        try lazymatch goal with
            | |- preserva _ (call _ _) =>
              apply solo_al_chat_call;
              first [left; reflexivity | right; reflexivity]
            | |- preserva _ (emit _) =>
              apply solo_al_chat_emit;
              first [left; reflexivity | right; reflexivity]
            | |- preserva _ (now _) => apply solo_al_chat_now
            | |- preserva _ (on_fs _) => apply solo_al_chat_on_fs
            end
      | |- preserva _ (on_self _) =>
        apply trabaja_para_on_self; intros; reflexivity
      end.

Section SoloSuChat.

Context {W : Type} (E : Collaborators W).

Variable c : Z.
Variable base : list Z.

Lemma trabaja_para_cargar_historial :
  preserva (trabaja_para (W:=W) c base) cargar_historial.
Proof. unfold cargar_historial, memoria_append. al_chat. Qed.

Lemma trabaja_para_guardar_historial :
  preserva (trabaja_para (W:=W) c base) guardar_historial.
Proof. unfold guardar_historial. al_chat. Qed.

Lemma trabaja_para_agregar_mensaje update :
  preserva (trabaja_para c base) (agregar_mensaje E update).
Proof. unfold agregar_mensaje. al_chat. Qed.

Lemma trabaja_para_detener : preserva (trabaja_para (W:=W) c base) detener.
Proof.
  unfold detener, print. al_chat. apply trabaja_para_guardar_historial.
Qed.

Lemma trabaja_para_procesar_update update :
  preserva (trabaja_para c base) (procesar_update E update).
Proof.
  intros s Hs. pose proof Hs as (Hc & _).
  unfold procesar_update. rewrite (bind_ok get_state _ s s s eq_refl).
  rewrite Hc. revert s Hs Hc.
  match goal with
  | |- forall s, _ -> _ -> trabaja_para c base (snd (?m s)) =>
    intros s Hs _; revert s Hs; change (preserva (trabaja_para c base) m)
  end.
  unfold message_of, memoria_append, obt_audio, response_openweb_transcriptor,
    response_gemini_consulta_documentos, response_openweb_lectura,
    detectar_idioma, client_generate_content, print.
  al_chat.
Qed.

Lemma trabaja_para_procesar_cola_get :
  preserva (trabaja_para (W:=W) c base) procesar_cola_get.
Proof. unfold procesar_cola_get. al_chat. Qed.

Lemma trabaja_para_procesar_cola_cuerpo update :
  preserva (trabaja_para c base) (procesar_cola_cuerpo E update).
Proof.
  unfold procesar_cola_cuerpo, print. al_chat.
  apply trabaja_para_procesar_update.
Qed.

Lemma trabaja_para_procesar_cola fuel :
  preserva (trabaja_para c base) (procesar_cola E fuel).
Proof.
  induction fuel as [|fuel IH]; cbn [procesar_cola]; al_chat;
    first [apply trabaja_para_procesar_cola_get
          | apply trabaja_para_procesar_cola_cuerpo
          | exact IH].
Qed.

End SoloSuChat.

Section SoloSuChatTeorema.

Context {W : Type} (E : Collaborators W).

(** X14: whatever a worker does (any of its methods, any run of its loop,
    whatever the updates in its queue and whatever the collaborators
    answer), the text and audio messages it sends go to its own chat,
    [self.chat_id], and to no other; and its chat never changes. *)
Theorem solo_responde_a_su_chat op (s : St (W:=W)) :
  chat_id (self (aplicar E op s)) = chat_id (self s)
  /\ exists nuevos,
       destinatarios (log (world (aplicar E op s)))
       = destinatarios (log (world s)) ++ nuevos
       /\ Forall (eq (chat_id (self s))) nuevos.
Proof.
  assert (Hs : trabaja_para (chat_id (self s))
                 (destinatarios (log (world s))) s).
  { split; [reflexivity|]. exists []. rewrite app_nil_r. auto. }
  enough (trabaja_para (chat_id (self s)) (destinatarios (log (world s)))
            (aplicar E op s)) as (Hc & Hd) by (split; [exact Hc|exact Hd]).
  destruct op; cbn [aplicar].
  - apply trabaja_para_cargar_historial, Hs.
  - apply trabaja_para_guardar_historial, Hs.
  - apply trabaja_para_agregar_mensaje, Hs.
  - apply trabaja_para_procesar_cola, Hs.
  - apply trabaja_para_procesar_cola_get, Hs.
  - apply trabaja_para_procesar_cola_cuerpo, Hs.
  - apply trabaja_para_procesar_update, Hs.
  - apply trabaja_para_detener, Hs.
Qed.

End SoloSuChatTeorema.

(** ** The polling loop: dispatching an update *)

Section Despacho.

Context {W : Type} (E : Collaborators W).

Lemma agregar_mensaje_valor update (s : St (W:=W)) :
  let reloj := time_time E (ext (world s)) in
  agregar_mensaje E update s
  = (Ok tt,
     {| self := set_ultima_actividad (fst reloj)
                  (set_cola (cola_mensajes (self s) ++ [update]) (self s));
        world := {| ext := snd reloj; fs := fs (world s);
                    log := log (world s) |} |}).
Proof.
  cbv zeta. unfold agregar_mensaje, bind, on_self, modify, lift, now.
  cbn [fst snd self world]. destruct (time_time E (ext (world s))).
  reflexivity.
Qed.

(** X15: [agregar_mensaje] never raises: it puts the update at the end of
    the queue, then reads the clock and sets the time of last activity, and
    touches neither the files nor the trace. The instance it leaves is not
    idle for the cleaning thread, whatever the time of the scan, since its
    queue is not empty. *)
Theorem agregar_mensaje_efecto update (s : St (W:=W)) :
  let reloj := time_time E (ext (world s)) in
  agregar_mensaje E update s
  = (Ok tt,
     {| self := set_ultima_actividad (fst reloj)
                  (set_cola (cola_mensajes (self s) ++ [update]) (self s));
        world := {| ext := snd reloj; fs := fs (world s);
                    log := log (world s) |} |})
  /\ (forall ahora,
        inactivo ahora (self (snd (agregar_mensaje E update s))) = false).
Proof.
  cbv zeta. split; [apply agregar_mensaje_valor|].
  intros ahora. rewrite agregar_mensaje_valor. cbn [snd self].
  unfold inactivo. cbn [cola_mensajes set_ultima_actividad set_cola].
  destruct (cola_mensajes (self s)); cbn [app]; apply andb_false_r.
Qed.

Lemma GestorChat_init_cola cid (w : World W) :
  match GestorChat_init E cid w with
  | (Ok g, _) => cola_mensajes g = []
  | (Raise _, _) => True
  end.
Proof.
  unfold GestorChat_init. destruct (now E w) as [[t|e] w1]; [|exact I].
  match goal with
  | |- context [cargar_historial ?s0] =>
    pose proof (campos_cargar_historial
                  (fun g => cola_mensajes g = [])
                  (fun g linea H => H) s0 eq_refl) as H;
    destruct (cargar_historial s0) as [[u|e] s]
  end; [exact H|exact I].
Qed.

(** What dispatching an update does, for a chat the dictionary has and for
    one it has not. *)
Lemma despachar_valor cid update (r : Registro (W:=W)) :
  bien_formado r = true ->
  match chats_activos r !! cid with
  | Some a =>
    exists g,
      heap r !! a = Some g
      /\ chat_id g = cid
      /\ let reloj := time_time E (ext (mundo r)) in
         despachar E cid update r
         = (Ok tt,
            {| heap := <[a := set_ultima_actividad (fst reloj)
                                (set_cola (cola_mensajes g ++ [update]) g)]>
                         (heap r);
               chats_activos := chats_activos r;
               mundo := {| ext := snd reloj; fs := fs (mundo r);
                           log := log (mundo r) |} |})
  | None =>
    let w0 := tras (mundo r) (ext (mundo r))
                   [EPrint (AVISO_NUEVA_SESION cid)] in
    match GestorChat_init E cid w0 with
    | (Ok g, w1) =>
      let reloj := time_time E (ext w1) in
      cola_mensajes g = [] /\ chat_id g = cid /\ activo g = true
      /\ despachar E cid update r
         = (Ok tt,
            {| heap := heap r
                       ++ [set_ultima_actividad (fst reloj) (set_cola [update] g)];
               chats_activos := <[cid := length (heap r)]> (chats_activos r);
               mundo := {| ext := snd reloj; fs := fs w1; log := log w1 |} |})
    | (Raise e, w1) =>
      despachar E cid update r
      = (Raise e,
         {| heap := heap r; chats_activos := chats_activos r; mundo := w1 |})
    end
  end.
Proof.
  intros Hwf. unfold despachar.
  rewrite (bind_ok get_state _ r r r eq_refl).
  destruct (chats_activos r !! cid) as [a|] eqn:Hcid.
  - destruct (bien_formado_entrada r cid a Hwf Hcid) as (g & Hg & Hc).
    exists g. split; [exact Hg|]. split; [exact Hc|]. cbv zeta.
    rewrite (bind_ok (ret tt) _ r tt r eq_refl).
    rewrite (bind_ok get_state _ r r r eq_refl), Hcid.
    unfold con_gestor. rewrite Hg, agregar_mensaje_valor. reflexivity.
  - cbv zeta. unfold AVISO_NUEVA_SESION.
    assert (Hp : en_mundo (print (py "[" ++ str_of_Z cid
                                  ++ py "] Nueva sesión (o recuperada de disco)."))
                   r
                 = (Ok tt,
                    {| heap := heap r; chats_activos := chats_activos r;
                       mundo := tras (mundo r) (ext (mundo r))
                                  [EPrint (py "[" ++ str_of_Z cid
                                           ++ py "] Nueva sesión (o recuperada de disco).")] |}))
      by reflexivity.
    pose proof (GestorChat_init_cola cid
                  (tras (mundo r) (ext (mundo r))
                     [EPrint (py "[" ++ str_of_Z cid
                              ++ py "] Nueva sesión (o recuperada de disco).")]))
      as Hcola.
    pose proof (GestorChat_init_campos E cid
                  (tras (mundo r) (ext (mundo r))
                     [EPrint (py "[" ++ str_of_Z cid
                              ++ py "] Nueva sesión (o recuperada de disco).")]))
      as Hcampos.
    destruct (GestorChat_init E cid _) as [[g|e] w1] eqn:Hinit.
    + destruct Hcampos as (Hc & Ha).
      split; [exact Hcola|]. split; [exact Hc|]. split; [exact Ha|].
      assert (Hi : en_mundo (GestorChat_init E cid)
                     {| heap := heap r; chats_activos := chats_activos r;
                        mundo := tras (mundo r) (ext (mundo r))
                                   [EPrint (py "[" ++ str_of_Z cid
                                            ++ py "] Nueva sesión (o recuperada de disco).")] |}
                   = (Ok g, {| heap := heap r; chats_activos := chats_activos r;
                               mundo := w1 |}))
        by (unfold en_mundo; cbn [mundo heap chats_activos]; rewrite Hinit;
            reflexivity).
      match goal with
      | |- bind (bind ?m1 ?k1) ?k2 r = _ =>
        assert (Hb : bind m1 k1 r
                     = (Ok tt,
                        {| heap := heap r ++ [g];
                           chats_activos := <[cid := length (heap r)]>
                                              (chats_activos r);
                           mundo := w1 |}))
          by (rewrite (bind_ok _ _ _ _ _ Hp), (bind_ok _ _ _ _ _ Hi);
              reflexivity);
        rewrite (bind_ok _ _ _ _ _ Hb)
      end.
      rewrite (bind_ok get_state _ _ _ _ eq_refl).
      cbn [chats_activos]. rewrite lookup_insert_eq.
      unfold con_gestor. cbn [heap mundo chats_activos].
      rewrite lookup_app_r, Nat.sub_diag by reflexivity. cbn [lookup list_lookup].
      rewrite agregar_mensaje_valor. cbn [self world ext fs log].
      rewrite Hcola. cbn [app].
      rewrite insert_app_r_alt, Nat.sub_diag by reflexivity. reflexivity.
    + assert (Hi : en_mundo (GestorChat_init E cid)
                     {| heap := heap r; chats_activos := chats_activos r;
                        mundo := tras (mundo r) (ext (mundo r))
                                   [EPrint (py "[" ++ str_of_Z cid
                                            ++ py "] Nueva sesión (o recuperada de disco).")] |}
                   = (Raise e, {| heap := heap r; chats_activos := chats_activos r;
                                  mundo := w1 |}))
        by (unfold en_mundo; cbn [mundo heap chats_activos]; rewrite Hinit;
            reflexivity).
      match goal with
      | |- bind (bind ?m1 ?k1) ?k2 r = _ =>
        assert (Hb : bind m1 k1 r
                     = (Raise e,
                        {| heap := heap r; chats_activos := chats_activos r;
                           mundo := w1 |}))
          by (rewrite (bind_ok _ _ _ _ _ Hp), (bind_raise _ _ _ _ _ Hi);
              reflexivity);
        rewrite (bind_raise _ _ _ _ _ Hb)
      end.
      reflexivity.
Qed.

End Despacho.

(** ** The polling loop: a batch of updates *)

Section Lote.

Context {W : Type} (E : Collaborators W) (B : Sondeo W).

Lemma bien_formado_intro (r : Registro (W:=W)) :
  (forall c a, chats_activos r !! c = Some a ->
               exists g, heap r !! a = Some g /\ chat_id g = c) ->
  bien_formado r = true.
Proof.
  intros H. unfold bien_formado. apply forallb_forall.
  intros [c a] Hin. apply list_elem_of_In, elem_of_map_to_list in Hin.
  destruct (H c a Hin) as (g & Hg & Hc).
  unfold entrada_valida. cbn [fst snd]. rewrite Hg.
  apply bool_decide_eq_true_2, Hc.
Qed.

(** Dispatching keeps the dictionary sound and adds the update to the
    queue of its chat, and to no other. *)
Lemma despachar_cola cid update (r : Registro (W:=W)) :
  bien_formado r = true ->
  let res := despachar E cid update r in
  bien_formado (snd res) = true
  /\ forall c,
       cola_de (snd res) c
       = cola_de r c
         ++ match fst res with
            | Ok _ => if bool_decide (cid = c) then [update] else []
            | Raise _ => []
            end.
Proof.
  intros Hwf. cbv zeta.
  pose proof (despachar_valor E cid update r Hwf) as Hd.
  destruct (chats_activos r !! cid) as [a|] eqn:Hcid.
  - destruct Hd as (g & Hg & Hc & Hrun). cbv zeta in Hrun. rewrite Hrun.
    cbn [fst snd]. clear Hrun.
    set (g' := set_ultima_actividad _ (set_cola (cola_mensajes g ++ [update]) g)).
    assert (Ha : a < length (heap r)) by (eapply lookup_lt_Some; exact Hg).
    split.
    + apply bien_formado_intro. cbn [heap chats_activos].
      intros c0 a0 H0.
      destruct (bien_formado_entrada r c0 a0 Hwf H0) as (g0 & Hg0 & Hc0).
      destruct (decide (a0 = a)) as [->|Hne].
      * exists g'. rewrite list_lookup_insert_eq by exact Ha.
        split; [reflexivity|]. rewrite Hg in Hg0. injection Hg0 as <-.
        exact Hc0.
      * exists g0. rewrite list_lookup_insert_ne by congruence. auto.
    + intros c. unfold cola_de. cbn [heap chats_activos].
      destruct (bool_decide (cid = c)) eqn:Hb.
      * apply bool_decide_eq_true in Hb. subst c. rewrite Hcid.
        rewrite list_lookup_insert_eq by exact Ha. rewrite Hg. reflexivity.
      * apply bool_decide_eq_false in Hb. rewrite app_nil_r.
        destruct (chats_activos r !! c) as [a0|] eqn:H0; [|reflexivity].
        destruct (bien_formado_entrada r c a0 Hwf H0) as (g0 & Hg0 & Hc0).
        rewrite list_lookup_insert_ne; [reflexivity|].
        intros ->. rewrite Hg in Hg0. injection Hg0 as <-. congruence.
  - cbv zeta in Hd.
    destruct (GestorChat_init E cid _) as [[g|e] w1].
    + destruct Hd as (Hcola & Hc & Ha & Hrun). rewrite Hrun. cbn [fst snd].
      clear Hrun.
      set (g' := set_ultima_actividad _ (set_cola [update] g)).
      split.
      * apply bien_formado_intro. cbn [heap chats_activos].
        intros c0 a0 H0. destruct (decide (c0 = cid)) as [->|Hne].
        -- rewrite lookup_insert_eq in H0. injection H0 as <-.
           exists g'. rewrite lookup_app_r, Nat.sub_diag by reflexivity.
           split; [reflexivity|exact Hc].
        -- rewrite lookup_insert_ne in H0 by congruence.
           destruct (bien_formado_entrada r c0 a0 Hwf H0) as (g0 & Hg0 & Hc0).
           exists g0. split; [|exact Hc0].
           apply lookup_app_l_Some, Hg0.
      * intros c. unfold cola_de. cbn [heap chats_activos].
        destruct (bool_decide (cid = c)) eqn:Hb.
        -- apply bool_decide_eq_true in Hb. subst c.
           rewrite Hcid, lookup_insert_eq.
           rewrite lookup_app_r, Nat.sub_diag by reflexivity. reflexivity.
        -- apply bool_decide_eq_false in Hb. rewrite app_nil_r.
           rewrite lookup_insert_ne by exact Hb.
           destruct (chats_activos r !! c) as [a0|] eqn:H0; [|reflexivity].
           destruct (bien_formado_entrada r c a0 Hwf H0) as (g0 & Hg0 & Hc0).
           rewrite (lookup_app_l_Some _ _ _ _ Hg0), Hg0. reflexivity.
    + rewrite Hd. cbn [fst snd]. split; [exact Hwf|].
      intros c. rewrite app_nil_r. reflexivity.
Qed.

(** X16: the block under [with lock_chats] of the polling loop, on a
    sound dictionary. It leaves the dictionary sound. When it returns, the
    update is at the end of the queue of the instance of its chat, and the
    queue of every other chat is as it was; when it raises, every queue is
    as it was. For a chat that the dictionary has, nothing is printed, no
    file is read and no instance is created; for a chat that it has not,
    the notice is printed and the constructor runs: if it returns, the new
    instance is stored under the chat at a new address with the update as
    its only pending one, and if it raises, the dictionary and the
    instances are unchanged. *)
Theorem despachar_correcto cid update (r : Registro (W:=W)) :
  bien_formado r = true ->
  let res := despachar E cid update r in
  bien_formado (snd res) = true
  /\ (forall c,
        cola_de (snd res) c
        = cola_de r c
          ++ match fst res with
             | Ok _ => if bool_decide (cid = c) then [update] else []
             | Raise _ => []
             end)
  /\ match chats_activos r !! cid with
     | Some a =>
       exists g,
         heap r !! a = Some g
         /\ chat_id g = cid
         /\ let reloj := time_time E (ext (mundo r)) in
            res
            = (Ok tt,
               {| heap := <[a := set_ultima_actividad (fst reloj)
                                   (set_cola (cola_mensajes g ++ [update]) g)]>
                            (heap r);
                  chats_activos := chats_activos r;
                  mundo := {| ext := snd reloj; fs := fs (mundo r);
                              log := log (mundo r) |} |})
     | None =>
       let w0 := tras (mundo r) (ext (mundo r))
                      [EPrint (AVISO_NUEVA_SESION cid)] in
       match GestorChat_init E cid w0 with
       | (Ok g, w1) =>
         let reloj := time_time E (ext w1) in
         cola_mensajes g = [] /\ chat_id g = cid /\ activo g = true
         /\ res
            = (Ok tt,
               {| heap := heap r
                          ++ [set_ultima_actividad (fst reloj)
                                (set_cola [update] g)];
                  chats_activos := <[cid := length (heap r)]> (chats_activos r);
                  mundo := {| ext := snd reloj; fs := fs w1; log := log w1 |} |})
       | (Raise e, w1) =>
         res
         = (Raise e,
            {| heap := heap r; chats_activos := chats_activos r; mundo := w1 |})
       end
     end.
Proof.
  intros Hwf res. subst res.
  destruct (despachar_cola cid update r Hwf) as (Hwf' & Hcola).
  split; [exact Hwf'|]. split; [exact Hcola|].
  exact (despachar_valor E cid update r Hwf).
Qed.

Lemma offset_tras_cons desde u hechos :
  offset_tras desde (u :: hechos) = offset_tras (update_id u + 1) hechos.
Proof.
  unfold offset_tras. destruct hechos as [|v hechos]; [reflexivity|].
  rewrite last_cons. destruct (last (v :: hechos)); reflexivity.
Qed.

Lemma atender_lote (updates : list Update) :
  forall p : Principal (W:=W),
    bien_formado (compartido p) = true ->
    exists k,
      k <= length updates
      /\ let res := for_each updates (atender E) p in
         bien_formado (compartido (snd res)) = true
         /\ offset (snd res) = offset_tras (offset p) (take k updates)
         /\ (forall c,
               cola_de (compartido (snd res)) c
               = cola_de (compartido p) c ++ para_chat c (take k updates))
         /\ match fst res with
            | Ok _ => k = length updates
            | Raise _ => k < length updates
            end.
Proof.
  induction updates as [|u resto IH]; intros p Hwf.
  - exists 0. cbn [for_each take length]. unfold ret. cbn [fst snd].
    split; [lia|]. split; [exact Hwf|]. split; [reflexivity|].
    split; [|reflexivity]. intros c. symmetry. apply app_nil_r.
  - cbn [for_each].
    destruct (message u) as [m|] eqn:Hm.
    + pose proof (despachar_cola (id (chat m)) u (compartido p) Hwf) as Hd.
      cbv zeta in Hd. destruct Hd as (Hwf1 & Hcola1).
      destruct (despachar E (id (chat m)) u (compartido p)) as [[[]|e] r1] eqn:Hrun;
        cbn [fst snd] in *.
      * set (p1 := {| offset := (update_id u + 1)%Z; compartido := r1 |}).
        assert (Hat : atender E u p = (Ok tt, p1))
          by (unfold atender; rewrite Hm; unfold bind, en_registro;
              rewrite Hrun; reflexivity).
        rewrite (bind_ok _ _ _ _ _ Hat).
        destruct (IH p1 Hwf1) as (k & Hk & Hwf' & Hoff & Hcola & Hres).
        exists (S k). cbn [length take]. split; [lia|].
        split; [exact Hwf'|]. split; [rewrite offset_tras_cons; exact Hoff|].
        split.
        -- intros c. rewrite Hcola. cbn [compartido p1]. rewrite Hcola1.
           rewrite <- app_assoc. f_equal. unfold para_chat. cbn [List.filter].
           unfold es_para at 2. rewrite Hm.
           destruct (bool_decide (id (chat m) = c)); reflexivity.
        -- destruct (fst (for_each resto (atender E) p1)); lia.
      * assert (Hat : atender E u p
                      = (Raise e, {| offset := offset p; compartido := r1 |}))
          by (unfold atender; rewrite Hm; unfold bind, en_registro;
              rewrite Hrun; reflexivity).
        rewrite (bind_raise _ _ _ _ _ Hat). cbn [fst snd offset compartido].
        exists 0. cbn [take length]. split; [lia|]. split; [exact Hwf1|].
        split; [reflexivity|]. split; [|lia].
        intros c. rewrite Hcola1. reflexivity.
    + set (p1 := {| offset := (update_id u + 1)%Z; compartido := compartido p |}).
      assert (Hat : atender E u p = (Ok tt, p1))
        by (unfold atender; rewrite Hm; reflexivity).
      rewrite (bind_ok _ _ _ _ _ Hat).
      destruct (IH p1 Hwf) as (k & Hk & Hwf' & Hoff & Hcola & Hres).
      exists (S k). cbn [length take]. split; [lia|].
      split; [exact Hwf'|]. split; [rewrite offset_tras_cons; exact Hoff|].
      split.
      * intros c. rewrite Hcola. cbn [compartido p1]. f_equal.
        unfold para_chat. cbn [List.filter]. unfold es_para at 2.
        rewrite Hm. reflexivity.
      * destruct (fst (for_each resto (atender E) p1)); lia.
Qed.

End Lote.

Section CicloPrincipal.

Context {W : Type} (E : Collaborators W) (B : Sondeo W).


End CicloPrincipal.

(** ** A turn of the cleaning thread *)

Section TurnoMonitor.

Context {W : Type} (E : Collaborators W).

(** With nothing to reap, the first loop changes nothing. *)
Lemma revisar_todos_nada ahora (items : list (Z * nat)) :
  forall (eliminar : list Z) (r : Registro (W:=W)),
    (forall item, item ∈ items -> is_Some (heap r !! item.2)) ->
    candidatos ahora r items = [] ->
    revisar_todos ahora items eliminar r = (Ok eliminar, r).
Proof.
  induction items as [|[c a] resto IH]; intros eliminar r Hval Hnada;
    [reflexivity|].
  destruct (Hval (c, a)) as (g & Hg); [apply elem_of_cons; auto|].
  cbn [snd] in Hg. cbn [candidatos] in Hnada.
  unfold debe_eliminar in Hnada. cbn [snd] in Hnada. rewrite Hg in Hnada.
  pose proof (revisar_efecto ahora c a eliminar g r Hg) as Hrev.
  destruct (inactivo ahora g); [discriminate Hnada|].
  cbn [revisar_todos]. rewrite (bind_ok _ _ _ _ _ Hrev).
  apply IH; [|exact Hnada].
  intros item Hin. apply Hval, elem_of_cons. auto.
Qed.

Lemma candidatos_heap ahora (r r' : Registro (W:=W)) items :
  heap r' = heap r -> candidatos ahora r' items = candidatos ahora r items.
Proof.
  intros Hh. induction items as [|item resto IH]; [reflexivity|].
  cbn [candidatos]. unfold debe_eliminar. rewrite Hh, IH. reflexivity.
Qed.

Lemma limpiar_efecto ahora (r : Registro (W:=W)) :
  bien_formado r = true ->
  let eliminar := candidatos ahora r (map_to_list (chats_activos r)) in
  exists r',
    limpiar ahora r = (Ok eliminar, r')
    /\ NoDup eliminar
    /\ (forall c,
          chats_activos r' !! c
          = if bool_decide (c ∈ eliminar) then None else chats_activos r !! c)
    /\ (eliminar = [] -> r' = r).
Proof.
  intros Hwf eliminar.
  set (items := map_to_list (chats_activos r)) in *.
  assert (Hval : forall item, item ∈ items -> is_Some (heap r !! item.2)).
  { intros [c a] Hin. apply elem_of_map_to_list in Hin.
    destruct (bien_formado_entrada r c a Hwf Hin) as (g & Hg & _).
    exists g. exact Hg. }
  assert (Hnd : NoDup eliminar)
    by apply NoDup_candidatos, NoDup_fst_map_to_list.
  destruct (revisar_todos_efecto ahora items [] r Hval
              (bien_formado_direcciones r Hwf))
    as (r1 & Hrun1 & Hchats1 & _ & _).
  cbn [app] in Hrun1. fold eliminar in Hrun1.
  destruct (borrar_todos eliminar r1 Hnd) as (r' & Hrun2 & _ & _ & Hchats2).
  { intros c (a & Hin & _)%elem_of_candidatos. rewrite Hchats1.
    exists a. apply elem_of_map_to_list, Hin. }
  exists r'.
  assert (Hrun : limpiar ahora r = (Ok eliminar, r')).
  { unfold limpiar. rewrite (bind_ok get_state _ r r r eq_refl).
    fold items. rewrite (bind_ok _ _ _ _ _ Hrun1).
    rewrite (bind_ok _ _ _ _ _ Hrun2). reflexivity. }
  split; [exact Hrun|]. split; [exact Hnd|]. split.
  - intros c. rewrite Hchats2, Hchats1. reflexivity.
  - intros Hnada.
    pose proof (revisar_todos_nada ahora items [] r Hval Hnada) as Hrun1'.
    rewrite Hrun1' in Hrun1. injection Hrun1 as _ <-.
    rewrite Hnada in Hrun2. cbn [for_each] in Hrun2.
    injection Hrun2 as <-. reflexivity.
Qed.

(** X18: one turn of the cleaning thread on a sound dictionary returns.
    The time of the scan is the one the clock gives at that turn: the chats
    it removes from the dictionary are those idle at that time, each once,
    and the other entries stay. When there is none, nothing changes but the
    clock and the trace, which has received the sleep of 10 seconds only:
    nothing is printed. When there are some, the last thing it does is to
    print the notice with their number. *)
Theorem monitor_ciclo_efecto (r : Registro (W:=W)) :
  bien_formado r = true ->
  let reloj := time_time E (ext (mundo r)) in
  let eliminar :=
    candidatos (fst reloj) r (map_to_list (chats_activos r)) in
  let dormido :=
    {| heap := heap r; chats_activos := chats_activos r;
       mundo := {| ext := snd reloj; fs := fs (mundo r);
                   log := log (mundo r) ++ [ESleep INTERVALO_LIMPIEZA] |} |} in
  exists r',
    monitor_ciclo E r = (Ok eliminar, r')
    /\ NoDup eliminar
    /\ (forall c,
          chats_activos r' !! c
          = if bool_decide (c ∈ eliminar) then None else chats_activos r !! c)
    /\ (eliminar = [] -> r' = dormido)
    /\ (eliminar <> [] ->
        last (log (mundo r'))
        = Some (EPrint (AVISO_LIMPIEZA (length eliminar)))).
Proof.
  intros Hwf reloj eliminar dormido.
  assert (Hwfd : bien_formado dormido = true) by exact Hwf.
  destruct (limpiar_efecto (fst reloj) dormido Hwfd)
    as (r1 & Hrun & Hnd & Hchats & Hnada).
  cbv zeta in Hrun, Hnd, Hchats, Hnada.
  rewrite (candidatos_heap (fst reloj) r dormido _ eq_refl) in Hrun, Hnd, Hchats, Hnada.
  change (chats_activos dormido) with (chats_activos r) in Hrun, Hnd, Hchats, Hnada.
  fold eliminar in Hrun, Hnd, Hchats, Hnada.
  assert (Hinicio : (run! en_mundo (emit (ESleep INTERVALO_LIMPIEZA)) in
                     en_mundo (now E)) r = (Ok (fst reloj), dormido)).
  { unfold bind, en_mundo, emit, modify, now. cbn [fst snd mundo ext].
    subst dormido reloj. destruct (time_time E (ext (mundo r))). reflexivity. }
  assert (Hciclo : monitor_ciclo E r
                   = (run! aviso_limpieza eliminar in ret eliminar) r1).
  { unfold monitor_ciclo.
    unfold bind at 1. unfold bind in Hinicio.
    destruct (en_mundo (emit (ESleep INTERVALO_LIMPIEZA)) r) as [[[]|e] r0];
      [|discriminate Hinicio].
    rewrite (bind_ok _ _ _ _ _ Hinicio), (bind_ok _ _ _ _ _ Hrun).
    reflexivity. }
  rewrite Hciclo. unfold aviso_limpieza, AVISO_LIMPIEZA.
  destruct eliminar as [|c0 resto] eqn:Hel.
  - exists r1. split; [reflexivity|]. split; [exact Hnd|].
    split; [exact Hchats|]. split; [intros _; apply Hnada; reflexivity|].
    congruence.
  - eexists. split; [reflexivity|]. split; [exact Hnd|].
    unfold bind, en_mundo, print, emit, modify, ret.
    cbn [fst snd mundo chats_activos heap log].
    split; [exact Hchats|]. split; [discriminate|].
    intros _. apply last_snoc.
Qed.

End TurnoMonitor.

(** ** Shutdown: every worker is stopped and saved *)

Section Cierre.

Context {W : Type}.

Lemma con_gestor_detener_ficheros (a : nat) (g : GestorChat)
    (r : Registro (W:=W)) :
  heap r !! a = Some g ->
  exists w,
    con_gestor a detener r
    = (Ok tt, {| heap := <[a := set_activo false g]> (heap r);
                 chats_activos := chats_activos r;
                 mundo := w |})
    /\ fs_files (fs w)
       = fs_store (fs_files (fs (mundo r))) (historial_de g).1 (historial_de g).2.
Proof.
  intros Hg. unfold con_gestor. rewrite Hg.
  pose proof (detener_ficheros {| self := g; world := mundo r |}) as Hf.
  destruct (detener_efecto {| self := g; world := mundo r |})
    as (w & Hd & _).
  rewrite Hd in Hf |- *. exists w. split; [reflexivity|exact Hf].
Qed.

Lemma historiales_mismo (heap1 heap2 : list GestorChat) dirs :
  (forall a, a ∈ dirs -> heap1 !! a = heap2 !! a) ->
  historiales heap1 dirs = historiales heap2 dirs.
Proof.
  intros H. induction dirs as [|a dirs IH]; [reflexivity|].
  unfold historiales in *. cbn [omap list_omap].
  rewrite (H a) by (apply elem_of_cons; auto).
  rewrite IH; [reflexivity|]. intros a' Ha'. apply H, elem_of_cons. auto.
Qed.

Lemma detener_todos (dirs : list nat) :
  forall r : Registro (W:=W),
    (forall a, a ∈ dirs -> is_Some (heap r !! a)) ->
    NoDup dirs ->
    exists r',
      for_each dirs (fun a => con_gestor a detener) r = (Ok tt, r')
      /\ chats_activos r' = chats_activos r
      /\ (forall a,
             heap r' !! a
             = match heap r !! a with
               | Some g =>
                 Some (if bool_decide (a ∈ dirs) then set_activo false g else g)
               | None => None
               end)
      /\ fs_files (fs (mundo r'))
         = tras_escrituras (fs_files (fs (mundo r))) (historiales (heap r) dirs).
Proof.
  induction dirs as [|a resto IH]; intros r Hval Hnd.
  - exists r. split; [reflexivity|]. split; [reflexivity|].
    split; [|reflexivity]. intros a. destruct (heap r !! a); reflexivity.
  - apply NoDup_cons in Hnd as (Hnotin & Hnd).
    destruct (Hval a) as (g & Hg); [apply elem_of_cons; auto|].
    destruct (con_gestor_detener_ficheros a g r Hg) as (w & Hdet & Hfs).
    cbn [for_each]. rewrite (bind_ok _ _ _ _ _ Hdet).
    set (r1 := {| heap := <[a := set_activo false g]> (heap r);
                  chats_activos := chats_activos r; mundo := w |}).
    assert (Hsame : forall a', a' ∈ resto -> heap r1 !! a' = heap r !! a').
    { intros a' Ha'. cbn [heap r1]. apply list_lookup_insert_ne.
      intros ->. exact (Hnotin Ha'). }
    destruct (IH r1) as (r' & Hrun & Hchats & Hheap & Hfiles); [|exact Hnd|].
    { intros a' Ha'. rewrite (Hsame a' Ha'). apply Hval, elem_of_cons. auto. }
    exists r'. split; [exact Hrun|]. split; [exact Hchats|]. split.
    + intros a'. rewrite Hheap. cbn [heap r1].
      destruct (decide (a' = a)) as [->|Hne].
      * rewrite list_lookup_insert_eq by (eapply lookup_lt_Some, Hg).
        rewrite Hg, (bool_decide_eq_false_2 _ Hnotin).
        rewrite bool_decide_eq_true_2 by (apply elem_of_cons; auto).
        reflexivity.
      * rewrite list_lookup_insert_ne by congruence.
        destruct (heap r !! a') as [g'|]; [|reflexivity].
        rewrite (bool_decide_cons_ne a' a resto Hne). reflexivity.
    + rewrite Hfiles. cbn [mundo r1]. rewrite Hfs.
      rewrite (historiales_mismo (heap r1) (heap r) resto Hsame).
      unfold historiales at 2. cbn [omap list_omap]. rewrite Hg.
      reflexivity.
Qed.

(** Writes to distinct files do not disturb each other. *)
Lemma tras_escrituras_otro escrituras :
  forall files ruta,
    ruta ∉ escrituras.*1 ->
    fs_lookup (tras_escrituras files escrituras) ruta = fs_lookup files ruta.
Proof.
  induction escrituras as [|[p c] resto IH]; intros files ruta Hno;
    [reflexivity|].
  unfold tras_escrituras in *. cbn [fold_left fst snd].
  rewrite IH by (intros H; apply Hno; cbn; apply elem_of_cons; auto).
  apply fs_lookup_store_otro. intros ->. apply Hno. cbn.
  apply elem_of_cons. auto.
Qed.

Lemma tras_escrituras_lookup escrituras :
  forall files ruta contenido,
    NoDup escrituras.*1 ->
    (ruta, contenido) ∈ escrituras ->
    fs_lookup (tras_escrituras files escrituras) ruta = Some contenido.
Proof.
  induction escrituras as [|[p c] resto IH]; intros files ruta contenido Hnd Hin;
    [inversion Hin|].
  cbn [fmap list_fmap fst] in Hnd. apply NoDup_cons in Hnd as (Hno & Hnd).
  unfold tras_escrituras in *. cbn [fold_left fst snd].
  apply elem_of_cons in Hin as [Heq|Hin].
  - injection Heq as -> ->.
    pose proof (tras_escrituras_otro resto (fs_store files p c) p Hno) as H.
    unfold tras_escrituras in H. rewrite H. apply fs_lookup_store.
  - apply (IH _ _ _ Hnd Hin).
Qed.

End Cierre.

Section CierreTeorema.

Context {W : Type}.

Lemma historiales_rutas (r : Registro (W:=W)) (items : list (Z * nat)) :
  bien_formado r = true ->
  (forall c a, (c, a) ∈ items -> chats_activos r !! c = Some a) ->
  (historiales (heap r) items.*2).*1 = ruta_historial <$> items.*1.
Proof.
  intros Hwf. induction items as [|[c a] items IH]; intros Hin; [reflexivity|].
  destruct (bien_formado_entrada r c a Hwf) as (g & Hg & Hc);
    [apply Hin, elem_of_cons; auto|].
  unfold historiales in *. cbn [fmap list_fmap omap list_omap fst snd].
  rewrite Hg. cbn [fmap option_fmap option_map list_fmap historial_de fst].
  rewrite Hc. f_equal. apply IH.
  intros c' a' H. apply Hin, elem_of_cons. auto.
Qed.

(** X19: the handler of [KeyboardInterrupt], on a sound dictionary,
    returns after stopping every instance of the dictionary: each one has
    its flag down and is otherwise unchanged, and the file of its chat
    holds its history; the dictionary keeps its entries; the instances that
    the dictionary no longer has are left as they are, and so are the files
    of the chats that it has not. *)
Theorem cerrar_guarda_todo (r : Registro (W:=W)) :
  bien_formado r = true ->
  exists r',
    cerrar r = (Ok tt, r')
    /\ chats_activos r' = chats_activos r
    /\ (forall c a g,
          chats_activos r !! c = Some a -> heap r !! a = Some g ->
          heap r' !! a = Some (set_activo false g)
          /\ fs_lookup (fs_files (fs (mundo r'))) (ruta_historial c)
             = Some (join [LF] (memoria g)))
    /\ (forall a g,
          heap r !! a = Some g ->
          (forall c, chats_activos r !! c <> Some a) ->
          heap r' !! a = Some g)
    /\ (forall c,
          chats_activos r !! c = None ->
          fs_lookup (fs_files (fs (mundo r'))) (ruta_historial c)
          = fs_lookup (fs_files (fs (mundo r))) (ruta_historial c)).
Proof.
  intros Hwf.
  set (items := map_to_list (chats_activos r)).
  assert (Hitems : forall c a, (c, a) ∈ items -> chats_activos r !! c = Some a)
    by (intros c a H; apply elem_of_map_to_list, H).
  set (r0 := {| heap := heap r; chats_activos := chats_activos r;
                mundo := tras (mundo r) (ext (mundo r))
                           [EPrint (py "Cerrando...")] |}).
  destruct (detener_todos items.*2 r0) as (r' & Hrun & Hchats & Hheap & Hfiles).
  { intros a (item & -> & Hin)%list_elem_of_fmap. destruct item as [c a].
    destruct (bien_formado_entrada r c a Hwf (Hitems c a Hin)) as (g & Hg & _).
    exists g. exact Hg. }
  { apply bien_formado_direcciones, Hwf. }
  cbn [heap mundo r0 tras fs] in Hheap, Hfiles.
  pose proof (historiales_rutas r items Hwf Hitems) as Hrutas.
  assert (Hnd : NoDup (historiales (heap r) items.*2).*1).
  { rewrite Hrutas. apply NoDup_fmap_2_strong; [|apply NoDup_fst_map_to_list].
    intros c1 c2 _ _ H. apply ruta_historial_inj, H. }
  exists r'. split.
  { unfold cerrar.
    rewrite (bind_ok (en_mundo (print (py "Cerrando..."))) _ r tt r0 eq_refl).
    rewrite (bind_ok get_state _ r0 r0 r0 eq_refl). exact Hrun. }
  split; [exact Hchats|]. split; [|split].
  - intros c a g Hc Hg.
    assert (Hin : (c, a) ∈ items) by (apply elem_of_map_to_list, Hc).
    assert (Ha : a ∈ items.*2)
      by (apply list_elem_of_fmap; exists (c, a); auto).
    destruct (bien_formado_entrada r c a Hwf Hc) as (g' & Hg' & Hcid).
    rewrite Hg in Hg'. injection Hg' as <-.
    split.
    + rewrite Hheap, Hg, (bool_decide_eq_true_2 _ Ha). reflexivity.
    + rewrite Hfiles. apply tras_escrituras_lookup; [exact Hnd|].
      unfold historiales. apply list_elem_of_omap. exists a.
      split; [exact Ha|]. rewrite Hg. cbn. unfold historial_de.
      rewrite Hcid. reflexivity.
  - intros a g Hg Hno. rewrite Hheap, Hg.
    rewrite bool_decide_eq_false_2; [reflexivity|].
    intros (item & -> & Hin)%list_elem_of_fmap. destruct item as [c a].
    exact (Hno c (Hitems c a Hin)).
  - intros c Hc. rewrite Hfiles. apply tras_escrituras_otro.
    rewrite Hrutas. intros (c' & Heq & Hin)%list_elem_of_fmap.
    apply ruta_historial_inj in Heq. subst c'.
    apply list_elem_of_fmap in Hin as ([c'' a'] & Hk & Hin).
    cbn [fst] in Hk. subst c''. pose proof (Hitems _ _ Hin) as Hc'.
    congruence.
Qed.

End CierreTeorema.


(** ** Hibernation and return of a conversation *)

Section Hibernacion.

Context {W : Type} (E : Collaborators W).

Variable files0 base : list (pystr * pystr).

Local Abbreviation coherente :=
  (fun r : Registro (W:=W) => escrituras_coherentes files0 base (mundo r)).

Lemma coherente_con_gestor_detener a : preserva coherente (con_gestor a detener).
Proof.
  intros r (nuevos & Hlog & Hfs). unfold con_gestor.
  destruct (heap r !! a) as [g|]; [|exists nuevos; auto].
  pose proof (detener_ficheros {| self := g; world := mundo r |}) as Hf.
  destruct (detener_efecto {| self := g; world := mundo r |})
    as (w & Hd & _ & _ & Hlogw).
  rewrite Hd in Hf |- *. cbn [snd self world mundo chat_id memoria] in *.
  exists (nuevos ++ [historial_de g]). split.
  - rewrite Hlogw, Hlog, <- app_assoc. reflexivity.
  - rewrite Hf, Hfs. unfold tras_escrituras. rewrite fold_left_app.
    reflexivity.
Qed.

Lemma coherente_revisar ahora item eliminar :
  preserva coherente (revisar ahora item eliminar).
Proof.
  unfold revisar. preserva_estructura. apply coherente_con_gestor_detener.
Qed.

Lemma coherente_revisar_todos ahora items :
  forall eliminar, preserva coherente (revisar_todos ahora items eliminar).
Proof.
  induction items as [|item resto IH]; intros eliminar; cbn [revisar_todos].
  - apply preserva_ret.
  - apply preserva_bind; [apply coherente_revisar|intros el; apply IH].
Qed.

Lemma coherente_borrar c : preserva coherente (borrar c).
Proof.
  unfold borrar. preserva_estructura. apply preserva_modify.
  intros r H. exact H.
Qed.

Lemma coherente_limpiar ahora : preserva coherente (limpiar ahora).
Proof.
  unfold limpiar. preserva_estructura.
  - apply coherente_revisar_todos.
  - apply coherente_borrar.
Qed.

End Hibernacion.

Section Despertar.

Context {W : Type} (E : Collaborators W).

Lemma guardados_rutas ahora (r : Registro (W:=W)) (items : list (Z * nat)) :
  bien_formado r = true ->
  (forall c a, (c, a) ∈ items -> chats_activos r !! c = Some a) ->
  (guardados ahora r items).*1 = ruta_historial <$> candidatos ahora r items.
Proof.
  intros Hwf. induction items as [|[c a] items IH]; intros Hin; [reflexivity|].
  destruct (bien_formado_entrada r c a Hwf) as (g & Hg & Hc);
    [apply Hin, elem_of_cons; auto|].
  assert (IH' : (guardados ahora r items).*1
                = ruta_historial <$> candidatos ahora r items)
    by (apply IH; intros c' a' H; apply Hin, elem_of_cons; auto).
  cbn [guardados candidatos]. unfold debe_eliminar. cbn [fst snd].
  rewrite Hg. destruct (inactivo ahora g); [|exact IH'].
  cbn [fmap list_fmap fst]. rewrite Hc. f_equal. exact IH'.
Qed.

(** The block of the cleaning thread, instance by instance and file by
    file. *)
Lemma limpiar_instancias ahora (r : Registro (W:=W)) :
  bien_formado r = true ->
  let items := map_to_list (chats_activos r) in
  let eliminar := candidatos ahora r items in
  exists r',
    limpiar ahora r = (Ok eliminar, r')
    /\ (forall c,
          chats_activos r' !! c
          = if bool_decide (c ∈ eliminar) then None else chats_activos r !! c)
    /\ (forall a,
          heap r' !! a
          = match heap r !! a with
            | Some g =>
              Some (if bool_decide (a ∈ items.*2) && inactivo ahora g
                    then set_activo false g else g)
            | None => None
            end)
    /\ fs_files (fs (mundo r'))
       = tras_escrituras (fs_files (fs (mundo r))) (guardados ahora r items).
Proof.
  intros Hwf items eliminar.
  assert (Hval : forall item, item ∈ items -> is_Some (heap r !! item.2)).
  { intros [c a] Hin. apply elem_of_map_to_list in Hin.
    destruct (bien_formado_entrada r c a Hwf Hin) as (g & Hg & _).
    exists g. exact Hg. }
  assert (Hnd : NoDup eliminar)
    by apply NoDup_candidatos, NoDup_fst_map_to_list.
  destruct (revisar_todos_efecto ahora items [] r Hval
              (bien_formado_direcciones r Hwf))
    as (r1 & Hrun1 & Hchats1 & Hheap1 & Hlog1).
  cbn [app] in Hrun1. fold eliminar in Hrun1.
  destruct (borrar_todos eliminar r1 Hnd)
    as (r' & Hrun2 & Hheap2 & Hmundo2 & Hchats2).
  { intros c (a & Hin & _)%elem_of_candidatos. rewrite Hchats1.
    exists a. apply elem_of_map_to_list, Hin. }
  exists r'. split.
  { unfold limpiar. rewrite (bind_ok get_state _ r r r eq_refl).
    fold items. rewrite (bind_ok _ _ _ _ _ Hrun1).
    rewrite (bind_ok _ _ _ _ _ Hrun2). reflexivity. }
  split; [intros c; rewrite Hchats2, Hchats1; reflexivity|].
  split; [intros a; rewrite Hheap2; apply Hheap1|].
  rewrite Hmundo2.
  destruct (coherente_revisar_todos (fs_files (fs (mundo r)))
              (ficheros_escritos (log (mundo r))) ahora items [] r)
    as (nuevos & Hlog & Hfs).
  { exists []. rewrite app_nil_r. split; reflexivity. }
  rewrite Hrun1 in Hlog, Hfs. cbn [snd] in Hlog, Hfs.
  rewrite Hlog1 in Hlog. apply app_inv_head in Hlog. subst nuevos.
  exact Hfs.
Qed.

Lemma mismas_longitudes {A} (l1 l2 : list A) :
  (forall a, is_Some (l1 !! a) <-> is_Some (l2 !! a)) -> length l1 = length l2.
Proof.
  intros H. destruct (Nat.lt_trichotomy (length l1) (length l2)) as [Hlt|[Heq|Hgt]].
  - apply lookup_lt_is_Some_2, H, lookup_lt_is_Some_1 in Hlt. lia.
  - exact Heq.
  - apply lookup_lt_is_Some_2, H, lookup_lt_is_Some_1 in Hgt. lia.
Qed.

(** X20: a conversation that the cleaning thread reaps and that writes
    again. For an instance of the dictionary that is idle at the time of
    the scan, whose history has at most 6 lines, all of them clean (not
    empty, without line break, without white space at either end): the
    scan removes its entry, lowers its flag and leaves its history in the
    file of the chat; the next update of the chat then creates a second
    instance, at a new address, with the same history, the update as its
    only pending one and its flag up; the first instance stays stopped. *)
Theorem hibernar_y_despertar ahora (r : Registro (W:=W)) c a g update :
  bien_formado r = true ->
  chats_activos r !! c = Some a ->
  heap r !! a = Some g ->
  inactivo ahora g = true ->
  forallb linea_limpia (memoria g) = true ->
  length (memoria g) <= MEMORIA_MAXLEN ->
  exists eliminar r1 r2 g',
    limpiar ahora r = (Ok eliminar, r1)
    /\ c ∈ eliminar
    /\ chats_activos r1 !! c = None
    /\ heap r1 !! a = Some (set_activo false g)
    /\ fs_lookup (fs_files (fs (mundo r1))) (ruta_historial c)
       = Some (join [LF] (memoria g))
    /\ despachar E c update r1 = (Ok tt, r2)
    /\ chats_activos r2 !! c = Some (length (heap r))
    /\ heap r2 !! a = Some (set_activo false g)
    /\ heap r2 !! length (heap r) = Some g'
    /\ chat_id g' = c
    /\ activo g' = true
    /\ memoria g' = memoria g
    /\ cola_mensajes g' = [update].
Proof.
  intros Hwf Hc Hg Hidle Hlimpia Hlen.
  set (items := map_to_list (chats_activos r)).
  set (eliminar := candidatos ahora r items).
  destruct (limpiar_instancias ahora r Hwf) as (r1 & Hrun & Hchats & Hheap & Hfiles).
  fold items eliminar in Hrun, Hchats, Hheap, Hfiles.
  assert (Hitems : forall c' a', (c', a') ∈ items -> chats_activos r !! c' = Some a')
    by (intros c' a' H; apply elem_of_map_to_list, H).
  assert (Hin : (c, a) ∈ items) by (apply elem_of_map_to_list, Hc).
  assert (Ha : a ∈ items.*2)
    by (apply list_elem_of_fmap; exists (c, a); auto).
  assert (Hcid : chat_id g = c).
  { destruct (bien_formado_entrada r c a Hwf Hc) as (g0 & Hg0 & Hc0).
    congruence. }
  assert (Hel : c ∈ eliminar).
  { apply elem_of_candidatos. exists a. split; [exact Hin|].
    unfold debe_eliminar. cbn [snd]. rewrite Hg. exact Hidle. }
  assert (Hc1 : chats_activos r1 !! c = None)
    by (rewrite Hchats, (bool_decide_eq_true_2 _ Hel); reflexivity).
  assert (Hg1 : heap r1 !! a = Some (set_activo false g)).
  { rewrite Hheap, Hg, (bool_decide_eq_true_2 _ Ha), Hidle. reflexivity. }
  assert (Hfile : fs_lookup (fs_files (fs (mundo r1))) (ruta_historial c)
                  = Some (join [LF] (memoria g))).
  { rewrite Hfiles. apply tras_escrituras_lookup.
    - rewrite (guardados_rutas ahora r items Hwf Hitems).
      apply NoDup_fmap_2_strong; [|apply NoDup_candidatos, NoDup_fst_map_to_list].
      intros c1 c2 _ _ H. apply ruta_historial_inj, H.
    - rewrite <- Hcid. apply (elem_of_guardados ahora r items c a g Hin Hg Hidle). }
  assert (Hlong : length (heap r1) = length (heap r)).
  { apply mismas_longitudes. intros a'. rewrite Hheap.
    destruct (heap r !! a'); [split; eauto|split; intros []; discriminate]. }
  assert (Hwf1 : bien_formado r1 = true).
  { apply bien_formado_intro. intros c' a' H'. rewrite Hchats in H'.
    destruct (bool_decide (c' ∈ eliminar)); [discriminate H'|].
    destruct (bien_formado_entrada r c' a' Hwf H') as (g0 & Hg0 & Hc0).
    rewrite Hheap, Hg0. eexists. split; [reflexivity|].
    destruct (_ && _); exact Hc0. }
  pose proof (despachar_valor E c update r1 Hwf1) as Hd.
  rewrite Hc1 in Hd. cbv zeta in Hd.
  pose proof (GestorChat_init_con_fichero E c
                (tras (mundo r1) (ext (mundo r1)) [EPrint (AVISO_NUEVA_SESION c)])
                (join [LF] (memoria g)) Hfile) as Hinit.
  cbv zeta in Hinit. rewrite Hinit in Hd.
  destruct Hd as (_ & _ & _ & Hrun2).
  rewrite (file_lines_join _ Hlimpia), (ultimas_todo _ _ Hlen) in Hrun2.
  rewrite Hlong in Hrun2.
  eexists eliminar, r1, _, _.
  split; [exact Hrun|]. split; [exact Hel|]. split; [exact Hc1|].
  split; [exact Hg1|]. split; [exact Hfile|]. split; [exact Hrun2|].
  cbn [chats_activos heap]. split; [apply lookup_insert_eq|].
  split; [apply lookup_app_l_Some, Hg1|].
  split; [rewrite <- Hlong, lookup_app_r, Nat.sub_diag by reflexivity;
          reflexivity|].
  repeat split.
Qed.

End Despertar.

(** ** The lock is always released *)

Section Cerrojo.

Context {W : Type} (E : Collaborators W).

Lemma pc_main_con_pc_main t p (s : Sistema (W:=W)) :
  pc_main (con_pc_main t p s) t = p.
Proof. unfold pc_main, con_pc_main. cbn [pcs_main]. rewrite lookup_insert_eq. reflexivity. Qed.

(** One step of a polling thread inside its block: it leaves the block,
    releasing the lock, or it stays inside with fewer steps left. *)
Lemma paso_main_avanza t u (s : Sistema (W:=W)) :
  lock_chats s = Some (HMain t) ->
  pc_main s t <> MLibre ->
  let s' := paso_main E t u s in
  (lock_chats s' = None /\ pc_main s' t = MLibre)
  \/ (lock_chats s' = Some (HMain t)
      /\ pc_main s' t <> MLibre
      /\ pasos_restantes_main (pc_main s' t)
         < pasos_restantes_main (pc_main s t)).
Proof.
  intros Hlock Hpc. cbv zeta. unfold paso_main.
  destruct (pc_main s t) as [|u0 c|u0 c|u0 c a|u0 c|] eqn:Hp;
    [congruence| | | | |].
  - destruct (chats_activos (registro s) !! c); right;
      rewrite pc_main_con_pc_main; cbn; repeat split; try exact Hlock;
      try discriminate; lia.
  - destruct (en_mundo _ (registro s)) as [[g|e] r].
    + right. rewrite pc_main_con_pc_main. cbn.
      repeat split; try exact Hlock; try discriminate; lia.
    + left. unfold main_excepcion. rewrite pc_main_con_pc_main.
      split; reflexivity.
  - right. rewrite pc_main_con_pc_main. cbn.
    repeat split; try exact Hlock; try discriminate; lia.
  - destruct (chats_activos (registro s) !! c) as [a|].
    + destruct (con_gestor a _ (registro s)) as [[[]|e] r].
      * right. rewrite pc_main_con_pc_main. cbn.
        repeat split; try exact Hlock; try discriminate; lia.
      * left. unfold main_excepcion. rewrite pc_main_con_pc_main.
        split; reflexivity.
    + left. unfold main_excepcion. rewrite pc_main_con_pc_main.
      split; reflexivity.
  - left. rewrite pc_main_con_pc_main. split; reflexivity.
Qed.

Lemma main_suelta t u (n : nat) :
  forall s : Sistema (W:=W),
    lock_chats s = Some (HMain t) ->
    pc_main s t <> MLibre ->
    pasos_restantes_main (pc_main s t) <= n ->
    exists k,
      k <= n
      /\ lock_chats (Nat.iter k (paso_main E t u) s) = None
      /\ pc_main (Nat.iter k (paso_main E t u) s) t = MLibre.
Proof.
  induction n as [|n IH]; intros s Hlock Hpc Hn.
  - destruct (pc_main s t); cbn in Hn; first [congruence|lia].
  - destruct (paso_main_avanza t u s Hlock Hpc) as [(Hl & Hp)|(Hl & Hp & Hm)].
    + exists 1. split; [lia|]. cbn [Nat.iter]. auto.
    + destruct (IH _ Hl Hp) as (k & Hk & Hl' & Hp'); [lia|].
      exists (S k). split; [lia|].
      rewrite Nat.iter_succ_r. auto.
Qed.

Lemma revisar_longitud ahora item eliminar (r : Registro (W:=W)) :
  match fst (revisar ahora item eliminar r) with
  | Ok eliminar' => length eliminar' <= length eliminar + 1
  | Raise _ => True
  end.
Proof.
  unfold revisar. rewrite (bind_ok get_state _ r r r eq_refl).
  destruct (heap r !! item.2) as [g|]; [|exact I].
  destruct (inactivo ahora g).
  - unfold bind. destruct (con_gestor item.2 detener r) as [[[]|e] r1];
      [|exact I].
    cbn [fst ret]. rewrite length_app. cbn [length]. lia.
  - cbn [fst ret]. lia.
Qed.

Lemma paso_monitor_avanza (s : Sistema (W:=W)) :
  lock_chats s = Some HMonitor ->
  dentro_monitor (pc_monitor s) = true ->
  let s' := paso_monitor E s in
  (lock_chats s' = None /\ dentro_monitor (pc_monitor s') = false)
  \/ (lock_chats s' = Some HMonitor
      /\ dentro_monitor (pc_monitor s') = true
      /\ pasos_restantes_monitor (pc_monitor s')
         < pasos_restantes_monitor (pc_monitor s)).
Proof.
  intros Hlock Hd. cbv zeta. unfold paso_monitor.
  destruct (pc_monitor s) as [|ahora|ahora [|item resto] eliminar
                              |[|c resto] eliminar|eliminar|] eqn:Hp;
    try discriminate Hd.
  - right. cbn. repeat split; try exact Hlock. lia.
  - pose proof (revisar_longitud ahora item eliminar (registro s)) as Hlen.
    destruct (revisar ahora item eliminar (registro s)) as [[eliminar'|e] r];
      cbn [fst] in Hlen.
    + right. cbn. repeat split; try exact Hlock. cbn [length] in *. lia.
    + left. split; reflexivity.
  - left. split; reflexivity.
  - destruct (borrar c (registro s)) as [[[]|e] r].
    + right. cbn. repeat split; try exact Hlock. lia.
    + left. split; reflexivity.
Qed.

Lemma monitor_suelta (n : nat) :
  forall s : Sistema (W:=W),
    lock_chats s = Some HMonitor ->
    dentro_monitor (pc_monitor s) = true ->
    pasos_restantes_monitor (pc_monitor s) <= n ->
    exists k,
      k <= n
      /\ lock_chats (Nat.iter k (paso_monitor E) s) = None
      /\ dentro_monitor (pc_monitor (Nat.iter k (paso_monitor E) s)) = false.
Proof.
  induction n as [|n IH]; intros s Hlock Hd Hn.
  - destruct (pc_monitor s); cbn in Hn, Hd; first [discriminate Hd|lia].
  - destruct (paso_monitor_avanza s Hlock Hd) as [(Hl & Hp)|(Hl & Hp & Hm)].
    + exists 1. split; [lia|]. cbn [Nat.iter]. auto.
    + destruct (IH _ Hl Hp) as (k & Hk & Hl' & Hp'); [lia|].
      exists (S k). split; [lia|].
      rewrite Nat.iter_succ_r. auto.
Qed.

(** X21: in every state that the threads can reach, whoever holds
    [lock_chats] releases it after a bounded number of its own steps,
    whatever the collaborators answer and also when they raise: a polling
    thread within 5 steps, the cleaning thread within two steps for each
    entry it has still to visit, one for each chat it has marked, and
    two. *)
Theorem cerrojo_se_suelta (w : World W) (plan : list Etiqueta) :
  let s := ejecutar_sistema E plan (sistema_inicial w) in
  match lock_chats s with
  | None => True
  | Some (HMain t) =>
    forall u,
      exists k,
        k <= 5
        /\ lock_chats (Nat.iter k (paso_main E t u) s) = None
        /\ pc_main (Nat.iter k (paso_main E t u) s) t = MLibre
  | Some HMonitor =>
    exists k,
      k <= pasos_restantes_monitor (pc_monitor s)
      /\ lock_chats (Nat.iter k (paso_monitor E) s) = None
      /\ dentro_monitor (pc_monitor (Nat.iter k (paso_monitor E) s)) = false
  end.
Proof.
  intros s.
  assert (Hinv : invariante s)
    by (apply invariante_ejecutar, invariante_inicial).
  pose proof (inv_lock _ _ _ _ _ Hinv) as Hl.
  destruct (lock_chats s) as [[t|]|] eqn:Hlock; [| |exact I].
  - destruct Hl as (Hpc & _). intros u.
    apply (main_suelta t u 5 s Hlock Hpc).
    destruct (pc_main s t); cbn; lia.
  - destruct Hl as (_ & Hd).
    apply (monitor_suelta _ s Hlock Hd). lia.
Qed.

End Cerrojo.

(** ** The threads of the workers *)

Section HilosAbstractos.

Variables (vista : list (Z * bool)) (pcs : list PcHilo).
Hypothesis Hord : hilos_en_orden vista pcs.

Lemma hilos_para a c :
  a < length vista ->
  hilos_en_orden (<[a := (c, false)]> vista) pcs.
Proof.
  destruct Hord as (Hlen & Hvivo). intros Ha. split.
  - rewrite length_insert. exact Hlen.
  - intros a' c' Hv. destruct (decide (a' = a)) as [->|Hne].
    + rewrite list_lookup_insert_eq in Hv by exact Ha. discriminate Hv.
    + rewrite list_lookup_insert_ne in Hv by congruence. exact (Hvivo a' c' Hv).
Qed.

Lemma hilos_nuevo c :
  hilos_en_orden (vista ++ [(c, true)]) (pcs ++ [EnCabeza]).
Proof.
  destruct Hord as (Hlen & Hvivo). split.
  - rewrite !length_app, Hlen. reflexivity.
  - intros a c' Hv. destruct (Nat.lt_ge_cases a (length vista)) as [Hlt|Hge].
    + rewrite lookup_app_l in Hv by exact Hlt.
      rewrite lookup_app_l by (rewrite Hlen; exact Hlt). exact (Hvivo a c' Hv).
    + rewrite lookup_app_r by (rewrite Hlen; exact Hge).
      intros H. destruct (a - length pcs) as [|n]; cbn in H; [discriminate H|].
      destruct n; discriminate H.
Qed.

Lemma hilos_paso a p :
  (p = Fin -> pcs !! a = Some Fin \/ exists c, vista !! a = Some (c, false)) ->
  hilos_en_orden vista (<[a := p]> pcs).
Proof.
  destruct Hord as (Hlen & Hvivo). intros Hp. split.
  - rewrite length_insert. exact Hlen.
  - intros a' c' Hv. destruct (decide (a' = a)) as [->|Hne].
    + intros H.
      assert (Ha : a < length pcs)
        by (rewrite Hlen; eapply lookup_lt_Some; exact Hv).
      rewrite list_lookup_insert_eq in H by exact Ha. injection H as ->.
      destruct (Hp eq_refl) as [Hfin|(c & Hc)].
      * exact (Hvivo a c' Hv Hfin).
      * rewrite Hv in Hc. discriminate Hc.
    + rewrite list_lookup_insert_ne by congruence. exact (Hvivo a' c' Hv).
Qed.

End HilosAbstractos.

Section HilosConcretos.

Context {W : Type} (E : Collaborators W).

Local Abbreviation en_orden s :=
  (hilos_en_orden (resumen (heap (registro s))) (pcs_hilos s)).

(** The thread of a worker ends only when the flag of its instance is
    down. *)
Lemma paso_hilo_fin (t : Trabajador (W:=W)) :
  pc (paso_hilo E t) = Fin ->
  pc t = Fin \/ activo (self (estado t)) = false.
Proof.
  unfold paso_hilo. destruct (pc t) as [|update|] eqn:Hpc.
  - rewrite procesar_cola_get_eq.
    destruct (activo (self (estado t))); [|right; reflexivity].
    destruct (cola_mensajes (self (estado t))); cbn [pc]; discriminate.
  - pose proof (procesar_cola_cuerpo_ok E update (estado t)) as Hok.
    destruct (procesar_cola_cuerpo E update (estado t)) as [[[]|e] s];
      cbn [fst pc] in *; discriminate.
  - left. reflexivity.
Qed.

Lemma hilos_paso_main t update (s : Sistema (W:=W)) :
  en_orden s -> en_orden (paso_main E t update s).
Proof.
  intros Hord. unfold paso_main.
  assert (Hexc : forall e r,
             heap r = heap (registro s) -> en_orden (main_excepcion t e r s)).
  { intros e r Hr. unfold main_excepcion.
    cbn [registro pcs_hilos con_pc_main con_lock con_registro].
    rewrite (proj1 (en_mundo_registro _ r)), Hr. exact Hord. }
  destruct (pc_main s t) as [|u c|u c|u c a|u c|].
  - destruct (message update); [|exact Hord].
    destruct (lock_chats s); exact Hord.
  - destruct (chats_activos (registro s) !! c); exact Hord.
  - match goal with
    | |- context [en_mundo ?m (registro s)] =>
      pose proof (en_mundo_registro m (registro s)) as (Hheap & _);
      assert (Hinit : match en_mundo m (registro s) with
                      | (Ok g, _) => chat_id g = c /\ activo g = true
                      | (Raise _, _) => True
                      end);
      [|destruct (en_mundo m (registro s)) as [[g|e] r]]
    end.
    { unfold en_mundo, bind, print, emit, modify. cbn [fst snd].
      match goal with
      | |- context [GestorChat_init E c ?w0] =>
        pose proof (GestorChat_init_campos E c w0) as Hi;
        destruct (GestorChat_init E c w0) as [[g|e] w1]
      end; [exact Hi|exact I]. }
    + cbn [snd] in Hheap. destruct Hinit as (Hc & Ha).
      cbn [registro pcs_hilos con_pc_main con_pcs_hilos con_registro heap].
      unfold resumen. rewrite fmap_app. cbn [fmap list_fmap].
      rewrite Hc, Ha, Hheap. apply hilos_nuevo, Hord.
    + cbn [snd] in Hheap. apply Hexc, Hheap.
  - exact Hord.
  - destruct (chats_activos (registro s) !! c) as [a|];
      [|apply Hexc; reflexivity].
    pose proof (con_gestor_resumen (agregar_mensaje E u) a (registro s)
                  (agregar_mensaje_mismo E u)) as (_ & Hres).
    destruct (con_gestor a (agregar_mensaje E u) (registro s)) as [[[]|e] r];
      cbn [snd] in Hres.
    + cbn [registro pcs_hilos con_pc_main con_registro]. rewrite Hres.
      exact Hord.
    + unfold main_excepcion.
      cbn [registro pcs_hilos con_pc_main con_lock con_registro].
      rewrite (proj1 (en_mundo_registro _ r)), Hres. exact Hord.
  - exact Hord.
Qed.

Lemma hilos_paso_monitor (s : Sistema (W:=W)) :
  en_orden s -> en_orden (paso_monitor E s).
Proof.
  intros Hord. unfold paso_monitor.
  destruct (pc_monitor s) as [|ahora|ahora [|[c a] resto] eliminar
                              |[|c resto] eliminar|eliminar|].
  - assert (Hheap : heap (snd ((let! _ := en_mundo (emit (ESleep INTERVALO_LIMPIEZA)) in
                                en_mundo (now E)) (registro s)))
                    = heap (registro s)).
    { unfold bind, en_mundo, emit, modify, now. cbn [fst snd mundo ext].
      destruct (time_time E (ext (mundo (registro s)))). reflexivity. }
    destruct ((let! _ := en_mundo (emit (ESleep INTERVALO_LIMPIEZA)) in
               en_mundo (now E)) (registro s)) as [[ahora|e] r];
      cbn [snd] in Hheap;
      cbn [registro pcs_hilos con_pc_monitor con_registro];
      rewrite Hheap; exact Hord.
  - destruct (lock_chats s); exact Hord.
  - exact Hord.
  - destruct (heap (registro s) !! a) as [g|] eqn:Hg.
    + pose proof (revisar_efecto ahora c a eliminar g (registro s) Hg) as Hrev.
      destruct (inactivo ahora g).
      * destruct Hrev as (w & Hrev & _). rewrite Hrev.
        cbn [registro pcs_hilos con_pc_monitor con_registro heap].
        rewrite resumen_insert. cbn [chat_id activo set_activo].
        apply hilos_para; [exact Hord|].
        unfold resumen. rewrite length_fmap. eapply lookup_lt_Some, Hg.
      * rewrite Hrev. exact Hord.
    + destruct (revisar_sin_instancia ahora (c, a) eliminar (registro s) Hg)
        as (Hr & e & He).
      destruct (revisar ahora (c, a) eliminar (registro s)) as [[el|e'] r];
        cbn [fst snd] in Hr, He; [discriminate He|]. subst r. exact Hord.
  - exact Hord.
  - pose proof (borrar_efecto c (registro s)) as Hb.
    destruct (borrar c (registro s)) as [[[]|e] r].
    + destruct Hb as (Hheap & _).
      cbn [registro pcs_hilos con_pc_monitor con_registro].
      rewrite Hheap. exact Hord.
    + subst r. exact Hord.
  - assert (Hheap : heap (snd (aviso_limpieza eliminar (registro s)))
                    = heap (registro s)).
    { unfold aviso_limpieza. destruct eliminar; [reflexivity|].
      apply en_mundo_registro. }
    cbn [registro pcs_hilos con_pc_monitor con_registro].
    rewrite Hheap. exact Hord.
  - exact Hord.
Qed.

Lemma hilos_paso_trabajador a (s : Sistema (W:=W)) :
  en_orden s -> en_orden (paso_trabajador E a s).
Proof.
  intros Hord. unfold paso_trabajador.
  destruct (heap (registro s) !! a) as [g|] eqn:Hg; [|exact Hord].
  destruct (pcs_hilos s !! a) as [p|] eqn:Hp; [|exact Hord].
  match goal with
  | |- context [paso_hilo E ?t0] =>
    pose proof (campos_paso_hilo E
                  (fun g' => chat_id g' = chat_id g /\ activo g' = activo g)
                  (fun g0 q H => H) (fun g0 t H => H) (fun g0 l H => H)
                  t0 (conj eq_refl eq_refl)) as (Hc & Ha);
    pose proof (paso_hilo_fin t0) as Hfin
  end.
  cbn [registro pcs_hilos con_pcs_hilos con_registro heap estado pc self] in *.
  rewrite (resumen_insert_mismo _ _ g _ Hg Hc Ha).
  apply hilos_paso; [exact Hord|].
  intros Heq. destruct (Hfin Heq) as [->|Hact]; [left; exact Hp|].
  right. exists (chat_id g). rewrite resumen_lookup, Hg.
  cbn [fmap option_fmap option_map]. rewrite Hact. reflexivity.
Qed.

Lemma hilos_ejecutar plan :
  forall s : Sistema (W:=W),
    en_orden s -> en_orden (ejecutar_sistema E plan s).
Proof.
  induction plan as [|l plan IH]; intros s Hord; [exact Hord|].
  apply (IH (paso_sistema E l s)).
  destruct l as [t update| |a]; cbn [paso_sistema].
  - apply hilos_paso_main, Hord.
  - apply hilos_paso_monitor, Hord.
  - apply hilos_paso_trabajador, Hord.
Qed.

(** X22: in every state that the threads can reach, every instance has a
    thread of its own, and the thread of an instance whose flag is up has
    not ended: the thread of a worker ends only after the instance has been
    stopped, never by an exception raised while an update is processed. *)
Theorem un_hilo_por_instancia (w : World W) (plan : list Etiqueta) :
  let s := ejecutar_sistema E plan (sistema_inicial w) in
  length (pcs_hilos s) = length (heap (registro s))
  /\ (forall a g,
        heap (registro s) !! a = Some g -> activo g = true ->
        exists p, pcs_hilos s !! a = Some p /\ p <> Fin)
  /\ (forall a g,
        heap (registro s) !! a = Some g -> pcs_hilos s !! a = Some Fin ->
        activo g = false).
Proof.
  intros s.
  assert (Hord : en_orden s).
  { apply hilos_ejecutar. split; [reflexivity|].
    intros a c H. cbn in H. rewrite lookup_nil in H. discriminate H. }
  destruct Hord as (Hlen & Hvivo).
  unfold resumen in Hlen. rewrite length_fmap in Hlen.
  split; [exact Hlen|]. split.
  - intros a g Hg Ha.
    assert (Hlt : a < length (pcs_hilos s))
      by (rewrite Hlen; eapply lookup_lt_Some, Hg).
    apply lookup_lt_is_Some_2 in Hlt as (p & Hp). exists p.
    split; [exact Hp|]. intros ->.
    apply (Hvivo a (chat_id g)); [|exact Hp].
    rewrite resumen_lookup, Hg. cbn [fmap option_fmap option_map].
    rewrite Ha. reflexivity.
  - intros a g Hg Hp. destruct (activo g) eqn:Ha; [|reflexivity].
    exfalso. apply (Hvivo a (chat_id g)); [|exact Hp].
    rewrite resumen_lookup, Hg. cbn [fmap option_fmap option_map].
    rewrite Ha. reflexivity.
Qed.

End HilosConcretos.

(** ** The properties on concrete cases *)

(** X2 on a reply of 4001 characters. *)
Lemma adecuar_respuesta_trozos_4001 :
  let r := repeat 120%N 4001 in
  (forall i,
      adecuar_respuesta r !! i
      = if i * LIMITE_TELEGRAM <? length r
        then Some (slice (i * LIMITE_TELEGRAM)
                         (i * LIMITE_TELEGRAM + LIMITE_TELEGRAM) r)
        else None)
  /\ Forall (fun trozo => trozo <> []) (adecuar_respuesta r)
  /\ (forall i trozo,
        adecuar_respuesta r !! i = Some trozo ->
        S i < length (adecuar_respuesta r) ->
        length trozo = LIMITE_TELEGRAM).
Proof. apply adecuar_respuesta_trozos. discriminate. Defined.


(** X5: stopping conversation 42 leaves the file of conversation 7 as it
    is. *)
Lemma detener_42_no_toca_7 :
  fs_lookup
    (fs_files (fs (world (aplicar Escenario.colaboradores_hola OpDetener
                            Casos.estado_42_con_7))))
    (ruta_historial 7)
  = Some (py "Usuario: hi" ++ [LF] ++ py "Asistente: Hello!").
Proof.
  rewrite (historial_ajeno_intacto Escenario.colaboradores_hola OpDetener
             Casos.estado_42_con_7 7).
  - reflexivity.
  - discriminate.
Defined.

(** X10 on the scenario of the specification: conversation 42 sends "hola",
    the model generates "¡Hola!" and the speech service is down, so that no
    audio follows the text. *)
Lemma procesar_update_hola_traza :
  mensajes_enviados
    (log (world (snd (procesar_update Escenario.colaboradores_hola
                        (Escenario.mensaje_texto 1 42 "hola")
                        Escenario.estado_42))))
  = [(42%Z, py "¡Hola!")]
  /\ audios_enviados
       (log (world (snd (procesar_update Escenario.colaboradores_hola
                           (Escenario.mensaje_texto 1 42 "hola")
                           Escenario.estado_42))))
     = []
  /\ impresos
       (log (world (snd (procesar_update Escenario.colaboradores_hola
                           (Escenario.mensaje_texto 1 42 "hola")
                           Escenario.estado_42))))
     = [AVISO_PROCESANDO 42; AVISO_ENVIADA 42].
Proof.
  destruct (procesar_update_traza Escenario.colaboradores_hola
              Escenario.estado_42 (Escenario.mensaje_texto 1 42 "hola")
              _ (py "hola") (tras_aviso Escenario.estado_42)
              eq_refl eq_refl eq_refl)
    as (x3 & Hlog & _).
  rewrite Hlog. vm_compute. auto.
Defined.

(** X11 on a voice message whose file the client cannot give. *)
Lemma procesar_update_voz_sin_descarga :
  fst (procesar_update Casos.colaboradores_sin_descarga
         (Escenario.mensaje_voz 1 42) Escenario.estado_42)
  = Raise (Exn (py "file is too big"))
  /\ fst (procesar_cola_cuerpo Casos.colaboradores_sin_descarga
            (Escenario.mensaje_voz 1 42) Escenario.estado_42)
     = Ok tt
  /\ impresos
       (log (world (snd (procesar_cola_cuerpo Casos.colaboradores_sin_descarga
                           (Escenario.mensaje_voz 1 42) Escenario.estado_42))))
     = [AVISO_PROCESANDO 42; AVISO_ERROR 42 (Exn (py "file is too big"))].
Proof.
  destruct (procesar_update_descarga_fallida Casos.colaboradores_sin_descarga
              Escenario.estado_42 (Escenario.mensaje_voz 1 42) _
              (Exn (py "file is too big")) _ eq_refl eq_refl eq_refl)
    as (Hrun & Hcuerpo & _).
  rewrite Hrun, Hcuerpo. vm_compute. auto.
Defined.

(** X16 on the dictionary of [Escenario.registro_ejemplo]: an update of
    conversation 42 goes to the queue of its instance, and the queue of
    conversation 7 keeps its pending update. *)
Lemma despachar_a_42 :
  let u := Escenario.mensaje_texto 8 42 "hola" in
  let res := despachar Escenario.colaboradores_hola 42 u
               Escenario.registro_ejemplo in
  fst res = Ok tt
  /\ bien_formado (snd res) = true
  /\ cola_de (snd res) 42 = [u]
  /\ cola_de (snd res) 7 = [Escenario.mensaje_texto 5 7 "sigues ahi"].
Proof.
  intros u res.
  destruct (despachar_correcto Escenario.colaboradores_hola 42 u
              Escenario.registro_ejemplo eq_refl)
    as (Hwf & Hcola & _).
  fold res in Hwf, Hcola.
  assert (Hok : fst res = Ok tt) by (vm_compute; reflexivity).
  split; [exact Hok|]. split; [exact Hwf|].
  rewrite !Hcola, Hok. split; vm_compute; reflexivity.
Defined.


(** X18 on the same dictionary at second 1000: conversation 42 is removed
    and the notice reports one chat. *)
Lemma monitor_ciclo_ejemplo :
  exists r',
    monitor_ciclo Escenario.colaboradores_hola Escenario.registro_ejemplo
    = (Ok [42%Z], r')
    /\ chats_activos r' !! 42%Z = None
    /\ chats_activos r' !! 7%Z = Some 1
    /\ last (log (mundo r')) = Some (EPrint (AVISO_LIMPIEZA 1)).
Proof.
  pose proof (monitor_ciclo_efecto Escenario.colaboradores_hola
                Escenario.registro_ejemplo eq_refl) as H.
  cbv zeta in H.
  assert (Hel : candidatos
                  (fst (time_time Escenario.colaboradores_hola
                          (ext (mundo Escenario.registro_ejemplo))))
                  Escenario.registro_ejemplo
                  (map_to_list (chats_activos Escenario.registro_ejemplo))
                = [42%Z]) by (vm_compute; reflexivity).
  rewrite Hel in H. destruct H as (r' & Hrun & _ & Hchats & _ & Hlast).
  exists r'. split; [exact Hrun|].
  split; [rewrite Hchats; reflexivity|].
  split; [rewrite Hchats; reflexivity|].
  apply Hlast. discriminate.
Defined.

(** X19 on the same dictionary: the three conversations are stopped and
    the history of conversation 42 is in its file. *)
Lemma cerrar_ejemplo :
  exists r',
    cerrar Escenario.registro_ejemplo = (Ok tt, r')
    /\ activo <$> heap r' !! 0 = Some false
    /\ activo <$> heap r' !! 1 = Some false
    /\ activo <$> heap r' !! 2 = Some false
    /\ fs_lookup (fs_files (fs (mundo r'))) (ruta_historial 42)
       = Some (join [LF] [py "Usuario: hola"; py "Asistente: ¡Hola!"]).
Proof.
  destruct (cerrar_guarda_todo Escenario.registro_ejemplo eq_refl)
    as (r' & Hrun & _ & Hcada & _).
  exists r'. split; [exact Hrun|].
  destruct (Hcada 42%Z 0 _ eq_refl eq_refl) as (H42 & Hf42).
  destruct (Hcada 7%Z 1 _ eq_refl eq_refl) as (H7 & _).
  destruct (Hcada 9%Z 2 _ eq_refl eq_refl) as (H9 & _).
  rewrite H42, H7, H9. repeat split. exact Hf42.
Defined.

(** X20 on the same dictionary: conversation 42 is reaped at second 1000
    and comes back, with its history, when it writes again. *)
Lemma hibernar_y_despertar_42 :
  exists eliminar r1 r2 g',
    limpiar 1000 Escenario.registro_ejemplo = (Ok eliminar, r1)
    /\ chats_activos r1 !! 42%Z = None
    /\ despachar Escenario.colaboradores_hola 42
         (Escenario.mensaje_texto 8 42 "he vuelto") r1 = (Ok tt, r2)
    /\ chats_activos r2 !! 42%Z = Some 3
    /\ heap r2 !! 3 = Some g'
    /\ memoria g' = [py "Usuario: hola"; py "Asistente: ¡Hola!"]
    /\ cola_mensajes g' = [Escenario.mensaje_texto 8 42 "he vuelto"]
    /\ activo g' = true
    /\ activo <$> heap r2 !! 0 = Some false.
Proof.
  destruct (hibernar_y_despertar Escenario.colaboradores_hola 1000
              Escenario.registro_ejemplo 42 0 _
              (Escenario.mensaje_texto 8 42 "he vuelto")
              eq_refl eq_refl eq_refl eq_refl eq_refl)
    as (eliminar & r1 & r2 & g' & Hrun & _ & Hc1 & _ & _ & Hd & Hc2 & H0
        & Hg' & _ & Ha & Hm & Hq).
  - apply Nat.leb_le. reflexivity.
  - exists eliminar, r1, r2, g'. rewrite H0.
    repeat split; assumption.
Defined.
